(** * The xv6 buffer cache with hashed buckets (kernel/bio.c)

    A shallow embedding of [binit], [bget], [bread], [bwrite], [brelse],
    [bpin] and [bunpin].  The cache memory is modelled as the C code has it:
    an array of [struct buf] and an array of list heads, linked into circular
    doubly-linked lists through [prev]/[next] pointers.  The functions are
    written as command trees whose nodes are the memory accesses and the calls
    to the lock and disk primitives, so that the same text has a sequential
    meaning ([run]), a record of what happened ([trace]) and an interleaved
    meaning for several callers ([step]/[sched]). *)

From Stdlib Require Import ZArith String.
From stdpp Require Import base list numbers sets.

Open Scope Z_scope.

(** ** Memory *)

(** [#define NBUCKET 13] *)
Definition NBUCKET : nat := 13.

(** [#define HASH(x) (((uint)(x)) % NBUCKET)]: the cast to the 32-bit [uint]
    is written out. *)
Definition HASH (x : Z) : nat := Z.to_nat ((x mod 2 ^ 32) mod Z.of_nat NBUCKET).

(** A [struct buf *] points either at a list head [&bcache.head[i]] or at a
    pool slot [&bcache.buf[j]]. *)
Inductive ptr : Type :=
| Hd (i : nat)
| Bf (j : nat).

Definition ptr_eqb (p q : ptr) : bool :=
  match p, q with
  | Hd i, Hd i' => Nat.eqb i i'
  | Bf j, Bf j' => Nat.eqb j j'
  | _, _ => false
  end.

(** Modelled from the spec: the spinlock and the sleep-lock are external
    primitives (spinlock.c and sleeplock.c are not part of the sources).  A
    lock is either free or held by one caller, named by its number; the
    sleep-lock answers whether the current caller holds it. *)
Abbreviation spinlock := (option nat) (only parsing).
Abbreviation sleeplock := (option nat) (only parsing).

(** The payload [uchar data[BSIZE]]. *)
Definition block : Type := list Byte.byte.

(** Modelled from the spec: [struct buf] (buf.h is not part of the sources).
    The fields are those bio.c uses; [dev] and [blockno] hold the [uint]
    arguments of [bget], [valid] is a flag and [refcnt] a counter, kept as an
    integer so that a decrement below zero is visible. *)
Record buf : Type := mkbuf {
  valid : bool;
  dev : Z;
  blockno : Z;
  lock : sleeplock;
  refcnt : Z;
  prev : ptr;
  next : ptr;
  data : block
}.

Definition with_valid (v : bool) (b : buf) : buf :=
  mkbuf v b.(dev) b.(blockno) b.(lock) b.(refcnt) b.(prev) b.(next) b.(data).
Definition with_dev (v : Z) (b : buf) : buf :=
  mkbuf b.(valid) v b.(blockno) b.(lock) b.(refcnt) b.(prev) b.(next) b.(data).
Definition with_blockno (v : Z) (b : buf) : buf :=
  mkbuf b.(valid) b.(dev) v b.(lock) b.(refcnt) b.(prev) b.(next) b.(data).
Definition with_lock (v : sleeplock) (b : buf) : buf :=
  mkbuf b.(valid) b.(dev) b.(blockno) v b.(refcnt) b.(prev) b.(next) b.(data).
Definition with_refcnt (v : Z) (b : buf) : buf :=
  mkbuf b.(valid) b.(dev) b.(blockno) b.(lock) v b.(prev) b.(next) b.(data).
Definition with_prev (v : ptr) (b : buf) : buf :=
  mkbuf b.(valid) b.(dev) b.(blockno) b.(lock) b.(refcnt) v b.(next) b.(data).
Definition with_next (v : ptr) (b : buf) : buf :=
  mkbuf b.(valid) b.(dev) b.(blockno) b.(lock) b.(refcnt) b.(prev) v b.(data).
Definition with_data (v : block) (b : buf) : buf :=
  mkbuf b.(valid) b.(dev) b.(blockno) b.(lock) b.(refcnt) b.(prev) b.(next) v.

(** The global [bcache]: the bucket locks, the pool, the master lock and one
    list head per bucket. *)
Record bcache : Type := mkbcache {
  bcache_lock : list spinlock;
  bcache_buf : list buf;
  bcache_master : spinlock;
  bcache_head : list buf
}.

(** The disk behind [virtio_disk_rw]: the content of every block of every
    device. *)
Definition disk_t : Type := Z -> Z -> block.

Record world : Type := mkworld {
  cache : bcache;
  disk : disk_t
}.

(** A zeroed [struct buf], as static storage is before [binit] runs; its link
    fields are null, for which any pointer stands since [binit] overwrites
    them before they are read. *)
Definition buf_zero (BSIZE : nat) : buf :=
  mkbuf false 0 0 None 0 (Hd 0) (Hd 0) (repeat Byte.x00 BSIZE).

(** Reading through a pointer.  A pointer outside the arrays reads a zeroed
    struct; the code never forms one. *)
Definition deref (c : bcache) (p : ptr) : buf :=
  match p with
  | Hd i => default (buf_zero 0) (c.(bcache_head) !! i)
  | Bf j => default (buf_zero 0) (c.(bcache_buf) !! j)
  end.

(** Writing through a pointer: [f] updates the fields assigned. *)
Definition assign (p : ptr) (f : buf -> buf) (c : bcache) : bcache :=
  match p with
  | Hd i => mkbcache c.(bcache_lock) c.(bcache_buf) c.(bcache_master)
                     (alter f i c.(bcache_head))
  | Bf j => mkbcache c.(bcache_lock) (alter f j c.(bcache_buf)) c.(bcache_master)
                     c.(bcache_head)
  end.

(** The spinlocks of the cache. *)
Inductive lockid : Type :=
| Master
| Bucket (i : nat).

Definition spin (c : bcache) (l : lockid) : spinlock :=
  match l with
  | Master => c.(bcache_master)
  | Bucket i => default None (c.(bcache_lock) !! i)
  end.

Definition set_spin (l : lockid) (v : spinlock) (c : bcache) : bcache :=
  match l with
  | Master => mkbcache c.(bcache_lock) c.(bcache_buf) v c.(bcache_head)
  | Bucket i => mkbcache (<[i := v]> c.(bcache_lock)) c.(bcache_buf) c.(bcache_master)
                         c.(bcache_head)
  end.

Definition on_cache (f : bcache -> bcache) (w : world) : world :=
  mkworld (f w.(cache)) w.(disk).

(** Modelled from the spec: [virtio_disk_rw(b, write)] (the disk driver is not
    part of the sources).  Direction in ([write = false]) fills the payload
    from the block the slot names; direction out writes the payload to it. *)
Definition virtio_disk_rw (b : ptr) (write : bool) (w : world) : world :=
  let bb := deref w.(cache) b in
  if write then
    mkworld w.(cache)
            (fun d n => if (d =? bb.(dev)) && (n =? bb.(blockno)) then bb.(data)
                        else w.(disk) d n)
  else
    on_cache (assign b (with_data (w.(disk) bb.(dev) bb.(blockno)))) w.

(** ** Commands *)

(** A function body is a tree of the actions it performs on shared state, each
    followed by the rest of the body. *)
Inductive prog (A : Type) : Type :=
| Ret (a : A)
| Panic (msg : string)
| Diverge
| Initlock (l : lockid) (k : prog A)
| Initsleeplock (b : ptr) (k : prog A)
| Acquire (l : lockid) (k : prog A)
| Release (l : lockid) (k : prog A)
| Acquiresleep (b : ptr) (k : prog A)
| Releasesleep (b : ptr) (k : prog A)
| Holdingsleep (b : ptr) (k : bool -> prog A)
| Deref (b : ptr) (k : buf -> prog A)
| Assign (b : ptr) (f : buf -> buf) (k : prog A)
| Disk_rw (b : ptr) (write : bool) (k : prog A).

Arguments Ret {A} a.
Arguments Panic {A} msg.
Arguments Diverge {A}.
Arguments Initlock {A} l k.
Arguments Initsleeplock {A} b k.
Arguments Acquire {A} l k.
Arguments Release {A} l k.
Arguments Acquiresleep {A} b k.
Arguments Releasesleep {A} b k.
Arguments Holdingsleep {A} b k.
Arguments Deref {A} b k.
Arguments Assign {A} b f k.
Arguments Disk_rw {A} b write k.

Fixpoint bind {A B : Type} (p : prog A) (f : A -> prog B) : prog B :=
  match p with
  | Ret a => f a
  | Panic msg => Panic msg
  | Diverge => Diverge
  | Initlock l k => Initlock l (bind k f)
  | Initsleeplock b k => Initsleeplock b (bind k f)
  | Acquire l k => Acquire l (bind k f)
  | Release l k => Release l (bind k f)
  | Acquiresleep b k => Acquiresleep b (bind k f)
  | Releasesleep b k => Releasesleep b (bind k f)
  | Holdingsleep b k => Holdingsleep b (fun r => bind (k r) f)
  | Deref b k => Deref b (fun r => bind (k r) f)
  | Assign b g k => Assign b g (bind k f)
  | Disk_rw b wr k => Disk_rw b wr (bind k f)
  end.

#[export] Instance prog_ret : MRet prog := @Ret.
#[export] Instance prog_bind : MBind prog := fun A B f p => bind p f.

Definition initlock (l : lockid) : prog unit := Initlock l (Ret tt).
Definition initsleeplock (b : ptr) : prog unit := Initsleeplock b (Ret tt).
Definition acquire (l : lockid) : prog unit := Acquire l (Ret tt).
Definition release (l : lockid) : prog unit := Release l (Ret tt).
Definition acquiresleep (b : ptr) : prog unit := Acquiresleep b (Ret tt).
Definition releasesleep (b : ptr) : prog unit := Releasesleep b (Ret tt).
Definition holdingsleep (b : ptr) : prog bool := Holdingsleep b Ret.
Definition get (b : ptr) : prog buf := Deref b Ret.
Definition set (b : ptr) (f : buf -> buf) : prog unit := Assign b f (Ret tt).
Definition disk_rw (b : ptr) (write : bool) : prog unit := Disk_rw b write (Ret tt).
Definition panic {A : Type} (msg : string) : prog A := Panic msg.

(** [b->refcnt++] and [b->refcnt--]. *)
Definition refcnt_add (d : Z) (b : buf) : buf := with_refcnt (b.(refcnt) + d) b.

(** ** The functions of bio.c *)

Section Bio.

(** [NBUF] (param.h) is a compile-time constant. *)
Variable NBUF : nat.

(** [for (int i = 0; i < NBUCKET; i++)] of [binit], with [n] iterations left. *)
Fixpoint binit_heads (n : nat) (i : nat) : prog unit :=
  match n with
  | O => mret tt
  | S n' =>
    initlock (Bucket i);;
    set (Hd i) (with_prev (Hd i));;
    set (Hd i) (with_next (Hd i));;
    binit_heads n' (S i)
  end.

(** [for (b = bcache.buf; b < bcache.buf + NBUF; b++)] of [binit]. *)
Fixpoint binit_bufs (n : nat) (j : nat) : prog unit :=
  match n with
  | O => mret tt
  | S n' =>
    let b := Bf j in
    head0 ← get (Hd 0);
    set b (with_next head0.(next));;
    set b (with_prev (Hd 0));;
    initsleeplock b;;
    head0 ← get (Hd 0);
    set head0.(next) (with_prev b);;
    set (Hd 0) (with_next b);;
    binit_bufs n' (S j)
  end.

Definition binit : prog unit :=
  initlock Master;;
  binit_heads NBUCKET 0;;
  binit_bufs NBUF 0.

(** [for (b = bcache.head[h].next; b != &bcache.head[h]; b = b->next)] of
    [bget]; [not_cached] is the code after the loop.  A well-formed list has
    at most [NBUF] elements, so the body runs at most [fuel = NBUF] times; on a
    list that never comes back to its head the model diverges. *)
Fixpoint bget_cached (fuel : nat) (dev0 blockno0 : Z) (h : nat) (b : ptr)
    (not_cached : prog ptr) : prog ptr :=
  if ptr_eqb b (Hd h) then not_cached
  else
    match fuel with
    | O => Diverge
    | S fuel' =>
      bb ← get b;
      if (bb.(dev) =? dev0) && (bb.(blockno) =? blockno0) then
        set b (refcnt_add 1);;
        release (Bucket h);;
        acquiresleep b;;
        mret b
      else bget_cached fuel' dev0 blockno0 h bb.(next) not_cached
    end.

(** [for (b = bcache.buf; b != bcache.buf + NBUF; b++)] of [bget], with [n]
    slots left from index [j], and the code after the loop. *)
Fixpoint bget_scan (n : nat) (dev0 blockno0 : Z) (h : nat) (j : nat) : prog ptr :=
  match n with
  | O =>
    release Master;;
    release (Bucket h);;
    panic "bget: no buffers"
  | S n' =>
    let b := Bf j in
    bb ← get b;
    let current_h := HASH bb.(blockno) in
    if Nat.eqb current_h h then
      if bb.(refcnt) =? 0 then
        set b (with_dev dev0);;
        set b (with_blockno blockno0);;
        set b (with_valid false);;
        set b (with_refcnt 1);;
        release Master;;
        release (Bucket h);;
        acquiresleep b;;
        mret b
      else bget_scan n' dev0 blockno0 h (S j)
    else
      acquire (Bucket current_h);;
      bb ← get b;
      if bb.(refcnt) =? 0 then
        set b (with_dev dev0);;
        set b (with_blockno blockno0);;
        set b (with_valid false);;
        set b (with_refcnt 1);;
        bb ← get b;
        set bb.(prev) (with_next bb.(next));;
        bb ← get b;
        set bb.(next) (with_prev bb.(prev));;
        head_h ← get (Hd h);
        set b (with_next head_h.(next));;
        set b (with_prev (Hd h));;
        head_h ← get (Hd h);
        set head_h.(next) (with_prev b);;
        set (Hd h) (with_next b);;
        release (Bucket current_h);;
        release (Bucket h);;
        release Master;;
        acquiresleep b;;
        mret b
      else
        release (Bucket current_h);;
        bget_scan n' dev0 blockno0 h (S j)
  end.

Definition bget (dev0 blockno0 : Z) : prog ptr :=
  let h := HASH blockno0 in
  acquire (Bucket h);;
  head_h ← get (Hd h);
  bget_cached NBUF dev0 blockno0 h head_h.(next)
    (acquire Master;;
     bget_scan NBUF dev0 blockno0 h 0).

(** What [bread] does with the buffer [bget] returned. *)
Definition bread_fill (b : ptr) : prog ptr :=
  bb ← get b;
  if negb bb.(valid) then
    disk_rw b false;;
    set b (with_valid true);;
    mret b
  else mret b.

Definition bread (dev0 blockno0 : Z) : prog ptr :=
  b ← bget dev0 blockno0;
  bread_fill b.

Definition bwrite (b : ptr) : prog unit :=
  held ← holdingsleep b;
  if negb held then panic "bwrite"
  else disk_rw b true.

Definition brelse (b : ptr) : prog unit :=
  held ← holdingsleep b;
  if negb held then panic "brelse"
  else
    releasesleep b;;
    bb ← get b;
    let h := HASH bb.(blockno) in
    acquire (Bucket h);;
    set b (refcnt_add (-1));;
    release (Bucket h).

Definition bpin (b : ptr) : prog unit :=
  bb ← get b;
  let h := HASH bb.(blockno) in
  acquire (Bucket h);;
  set b (refcnt_add 1);;
  release (Bucket h).

Definition bunpin (b : ptr) : prog unit :=
  bb ← get b;
  let h := HASH bb.(blockno) in
  acquire (Bucket h);;
  set b (refcnt_add (-1));;
  release (Bucket h).

End Bio.

(** ** Meaning of the commands *)

(** Modelled from the spec: what the lock primitives do.  [acquire] takes a
    free spinlock and otherwise waits; [acquiresleep] takes a free sleep-lock
    and otherwise blocks the caller; [holdingsleep] tells whether the caller
    [pid] is the holder. *)
Definition is_free (l : option nat) : bool :=
  match l with
  | None => true
  | Some _ => false
  end.

Definition held_by (pid : nat) (l : option nat) : bool :=
  match l with
  | None => false
  | Some q => Nat.eqb q pid
  end.

Definition spin_free (w : world) (l : lockid) : bool := is_free (spin w.(cache) l).
Definition sleep_free (w : world) (b : ptr) : bool := is_free (deref w.(cache) b).(lock).
Definition sleep_held (pid : nat) (w : world) (b : ptr) : bool :=
  held_by pid (deref w.(cache) b).(lock).

(** Every action of a command tree, as it is recorded in a trace. *)
Inductive event : Type :=
| EvInitlock (l : lockid)
| EvInitsleeplock (b : ptr)
| EvAcquire (l : lockid)
| EvRelease (l : lockid)
| EvAcquiresleep (b : ptr)
| EvReleasesleep (b : ptr)
| EvHoldingsleep (b : ptr)
| EvDeref (b : ptr)
| EvAssign (b : ptr)
| EvDisk_rw (b : ptr) (write : bool).

(** How a call ends when its caller runs alone. *)
Inductive outcome (A : Type) : Type :=
| Done (a : A) (w : world)
| Panicked (msg : string) (w : world)
| Sleeping (b : ptr) (k : prog A) (w : world)
| Spinning (l : lockid) (w : world)
| Diverged (w : world).

Arguments Done {A} a w.
Arguments Panicked {A} msg w.
Arguments Sleeping {A} b k w.
Arguments Spinning {A} l w.
Arguments Diverged {A} w.

(** One action of the caller [pid]: the event, the rest of the command and the
    new state, or the reason why there is none. *)
Inductive status (A : Type) : Type :=
| Next (e : event) (k : prog A) (w : world)
| Over (o : outcome A).

Arguments Next {A} e k w.
Arguments Over {A} o.

Definition step {A : Type} (pid : nat) (p : prog A) (w : world) : status A :=
  match p with
  | Ret a => Over (Done a w)
  | Panic msg => Over (Panicked msg w)
  | Diverge => Over (Diverged w)
  | Initlock l k => Next (EvInitlock l) k (on_cache (set_spin l None) w)
  | Initsleeplock b k => Next (EvInitsleeplock b) k (on_cache (assign b (with_lock None)) w)
  | Acquire l k =>
    if spin_free w l then Next (EvAcquire l) k (on_cache (set_spin l (Some pid)) w)
    else Over (Spinning l w)
  | Release l k => Next (EvRelease l) k (on_cache (set_spin l None) w)
  | Acquiresleep b k =>
    if sleep_free w b
    then Next (EvAcquiresleep b) k (on_cache (assign b (with_lock (Some pid))) w)
    else Over (Sleeping b p w)
  | Releasesleep b k => Next (EvReleasesleep b) k (on_cache (assign b (with_lock None)) w)
  | Holdingsleep b k => Next (EvHoldingsleep b) (k (sleep_held pid w b)) w
  | Deref b k => Next (EvDeref b) (k (deref w.(cache) b)) w
  | Assign b f k => Next (EvAssign b) k (on_cache (assign b f) w)
  | Disk_rw b wr k => Next (EvDisk_rw b wr) k (virtio_disk_rw b wr w)
  end.

(** The caller runs alone until the call is over. *)
Fixpoint run {A : Type} (p : prog A) (pid : nat) (w : world) : outcome A :=
  match p with
  | Ret a => Done a w
  | Panic msg => Panicked msg w
  | Diverge => Diverged w
  | Initlock l k => run k pid (on_cache (set_spin l None) w)
  | Initsleeplock b k => run k pid (on_cache (assign b (with_lock None)) w)
  | Acquire l k =>
    if spin_free w l then run k pid (on_cache (set_spin l (Some pid)) w)
    else Spinning l w
  | Release l k => run k pid (on_cache (set_spin l None) w)
  | Acquiresleep b k =>
    if sleep_free w b then run k pid (on_cache (assign b (with_lock (Some pid))) w)
    else Sleeping b p w
  | Releasesleep b k => run k pid (on_cache (assign b (with_lock None)) w)
  | Holdingsleep b k => run (k (sleep_held pid w b)) pid w
  | Deref b k => run (k (deref w.(cache) b)) pid w
  | Assign b f k => run k pid (on_cache (assign b f) w)
  | Disk_rw b wr k => run k pid (virtio_disk_rw b wr w)
  end.

(** The actions of that run, each with the state it was taken in. *)
Fixpoint trace {A : Type} (p : prog A) (pid : nat) (w : world) : list (event * world) :=
  match p with
  | Ret a => []
  | Panic msg => []
  | Diverge => []
  | Initlock l k => (EvInitlock l, w) :: trace k pid (on_cache (set_spin l None) w)
  | Initsleeplock b k =>
    (EvInitsleeplock b, w) :: trace k pid (on_cache (assign b (with_lock None)) w)
  | Acquire l k =>
    if spin_free w l
    then (EvAcquire l, w) :: trace k pid (on_cache (set_spin l (Some pid)) w)
    else []
  | Release l k => (EvRelease l, w) :: trace k pid (on_cache (set_spin l None) w)
  | Acquiresleep b k =>
    if sleep_free w b
    then (EvAcquiresleep b, w) :: trace k pid (on_cache (assign b (with_lock (Some pid))) w)
    else []
  | Releasesleep b k =>
    (EvReleasesleep b, w) :: trace k pid (on_cache (assign b (with_lock None)) w)
  | Holdingsleep b k => (EvHoldingsleep b, w) :: trace (k (sleep_held pid w b)) pid w
  | Deref b k => (EvDeref b, w) :: trace (k (deref w.(cache) b)) pid w
  | Assign b f k => (EvAssign b, w) :: trace k pid (on_cache (assign b f) w)
  | Disk_rw b wr k => (EvDisk_rw b wr, w) :: trace k pid (virtio_disk_rw b wr w)
  end.

(** The state a call ends in. *)
Definition final {A : Type} (o : outcome A) : world :=
  match o with
  | Done _ w | Panicked _ w | Sleeping _ _ w | Spinning _ w | Diverged w => w
  end.

(** The memory before [binit]: static storage, all zero. *)
Definition bcache_zero (NBUF BSIZE : nat) : bcache :=
  mkbcache (replicate NBUCKET None) (replicate NBUF (buf_zero BSIZE)) None
           (replicate NBUCKET (buf_zero BSIZE)).

(** The state [binit] leaves, over a disk [d]. *)
Definition boot (NBUF BSIZE : nat) (d : disk_t) : world :=
  final (run (binit NBUF) 0%nat (mkworld (bcache_zero NBUF BSIZE) d)).

(** ** The bucket lists and the well-formed states *)

(** The slots met when following [next] from [p] up to the first list head. *)
Fixpoint walk (c : bcache) (fuel : nat) (p : ptr) : list nat :=
  match fuel with
  | O => []
  | S fuel' =>
    match p with
    | Hd _ => []
    | Bf j => j :: walk c fuel' (deref c p).(next)
    end
  end.

(** The list of bucket [h], front first. *)
Definition bucket (c : bcache) (h : nat) : list nat :=
  walk c (length c.(bcache_buf)) (deref c (Hd h)).(next).

(** [l] is linked between [from] and [to], forwards and backwards. *)
Fixpoint chain (c : bcache) (from : ptr) (l : list nat) (to : ptr) : Prop :=
  match l with
  | [] => (deref c from).(next) = to /\ (deref c to).(prev) = from
  | j :: l' =>
    (deref c from).(next) = Bf j /\ (deref c (Bf j)).(prev) = from /\ chain c (Bf j) l' to
  end.

Definition has_key (c : bcache) (dev0 blockno0 : Z) (j : nat) : bool :=
  ((deref c (Bf j)).(dev) =? dev0) && ((deref c (Bf j)).(blockno) =? blockno0).

(** The slot the first loop of [bget] finds: the first one of the home bucket
    with the key. *)
Definition cached (c : bcache) (dev0 blockno0 : Z) : option nat :=
  find (has_key c dev0 blockno0) (bucket c (HASH blockno0)).

Definition is_unused (c : bcache) (j : nat) : bool := (deref c (Bf j)).(refcnt) =? 0.

(** The first slot of the pool, in index order, that nobody holds. *)
Definition first_free (c : bcache) : option nat :=
  find (is_unused c) (seq 0 (length c.(bcache_buf))).

(** No spinlock is held: no call is inside the cache. *)
Definition quiet (c : bcache) : Prop :=
  c.(bcache_master) = None /\ c.(bcache_lock) = replicate NBUCKET None.

(** Every bucket is a circular doubly-linked list without repetition, and
    every slot of the pool is in the list of the bucket its block number
    hashes to, and in no other. *)
Definition links_ok (NBUF : nat) (c : bcache) : Prop :=
  length c.(bcache_buf) = NBUF /\
  length c.(bcache_head) = NBUCKET /\
  (forall h, (h < NBUCKET)%nat ->
     chain c (Hd h) (bucket c h) (Hd h) /\ NoDup (bucket c h)) /\
  (forall h j, (h < NBUCKET)%nat -> j ∈ bucket c h ->
     (j < NBUF)%nat /\ HASH (deref c (Bf j)).(blockno) = h) /\
  (forall j, (j < NBUF)%nat -> j ∈ bucket c (HASH (deref c (Bf j)).(blockno))).

(** The states between calls, as the data model describes them: well-formed
    lists, no spinlock held, counts not negative, and a held sleep-lock
    counted. *)
Definition state_ok (NBUF : nat) (c : bcache) : Prop :=
  links_ok NBUF c /\ quiet c /\
  forall j, (j < NBUF)%nat ->
    0 <= (deref c (Bf j)).(refcnt) /\
    ((deref c (Bf j)).(lock) <> None -> 1 <= (deref c (Bf j)).(refcnt)).

(** What the code of [bget] amounts to on the cache, read off its text: the
    four assignments that give a slot its new identity, the two that take it
    out of its list and the four that put it at the front of bucket [h]. *)
Definition claim (dev0 blockno0 : Z) (b : buf) : buf :=
  with_refcnt 1 (with_valid false (with_blockno blockno0 (with_dev dev0 b))).

Definition unlink (b : ptr) (c : bcache) : bcache :=
  let c1 := assign (deref c b).(prev) (with_next (deref c b).(next)) c in
  assign (deref c1 b).(next) (with_prev (deref c1 b).(prev)) c1.

Definition push_front (h : nat) (b : ptr) (c : bcache) : bcache :=
  let c1 := assign b (with_next (deref c (Hd h)).(next)) c in
  let c2 := assign b (with_prev (Hd h)) c1 in
  let c3 := assign (deref c2 (Hd h)).(next) (with_prev b) c2 in
  assign (Hd h) (with_next b) c3.

(** ** Sequences of calls *)

(** The public operations, on the slot handles [bread] gives out. *)
Inductive call : Type :=
| Bread (dev0 blockno0 : Z)
| Bwrite (b : ptr)
| Brelse (b : ptr)
| Bpin (b : ptr)
| Bunpin (b : ptr).

(** What a step of the system does to the holds on a slot. *)
Inductive label : Type :=
| Lread (b : ptr)
| Lwrite (b : ptr)
| Lrelease (b : ptr)
| Lpin (b : ptr)
| Lunpin (b : ptr)
| Lwake (b : ptr).

(** The callers take turns; each call runs until it returns or until its
    caller sleeps on a buffer, and a sleeper goes on when the buffer is free. *)
Inductive turn : Type :=
| Call (pid : nat) (c : call)
| Wake (pid : nat).

Record system : Type := mksystem {
  sys_world : world;
  sys_sleepers : list (nat * prog ptr)
}.

Definition sleeper (s : system) (pid : nat) : option (prog ptr) :=
  snd <$> find (fun x => Nat.eqb (fst x) pid) s.(sys_sleepers).

Definition unsleep (pid : nat) (l : list (nat * prog ptr)) : list (nat * prog ptr) :=
  filter (fun x => fst x ≠ pid) l.

Definition finish (s : system) (lb : label) (o : outcome unit) : option (label * system) :=
  match o with
  | Done _ w => Some (lb, mksystem w s.(sys_sleepers))
  | _ => None
  end.

(** One turn.  A panic halts the kernel: there is no next state. *)
Definition sys_step (NBUF : nat) (s : system) (t : turn) : option (label * system) :=
  match t with
  | Call pid c =>
    match sleeper s pid with
    | Some _ => None
    | None =>
      match c with
      | Bread dev0 blockno0 =>
        match run (bread NBUF dev0 blockno0) pid s.(sys_world) with
        | Done b w => Some (Lread b, mksystem w s.(sys_sleepers))
        | Sleeping b k w => Some (Lread b, mksystem w ((pid, k) :: s.(sys_sleepers)))
        | _ => None
        end
      | Bwrite b => finish s (Lwrite b) (run (bwrite b) pid s.(sys_world))
      | Brelse b => finish s (Lrelease b) (run (brelse b) pid s.(sys_world))
      | Bpin b => finish s (Lpin b) (run (bpin b) pid s.(sys_world))
      | Bunpin b => finish s (Lunpin b) (run (bunpin b) pid s.(sys_world))
      end
    end
  | Wake pid =>
    match sleeper s pid with
    | None => None
    | Some k =>
      match run k pid s.(sys_world) with
      | Done b w => Some (Lwake b, mksystem w (unsleep pid s.(sys_sleepers)))
      | _ => None
      end
    end
  end.

(** A sequence of turns from a state, with the labels of its steps. *)
Fixpoint sys_run (NBUF : nat) (s : system) (ts : list turn) : option (list label * system) :=
  match ts with
  | [] => Some ([], s)
  | t :: ts' =>
    match sys_step NBUF s t with
    | None => None
    | Some (lb, s') =>
      match sys_run NBUF s' ts' with
      | None => None
      | Some (lbs, s'') => Some (lb :: lbs, s'')
      end
    end
  end.

(** The system after [binit]. *)
Definition sys_boot (NBUF BSIZE : nat) (d : disk_t) : system :=
  mksystem (boot NBUF BSIZE d) [].

(** The holds on the slot [b] that a sequence of steps leaves outstanding:
    reads and pins not yet matched by a release or an unpin. *)
Definition hold_delta (b : ptr) (lb : label) : Z :=
  match lb with
  | Lread b' | Lpin b' => if ptr_eqb b' b then 1 else 0
  | Lrelease b' | Lunpin b' => if ptr_eqb b' b then -1 else 0
  | Lwrite _ | Lwake _ => 0
  end.

Fixpoint outstanding (b : ptr) (lbs : list label) : Z :=
  match lbs with
  | [] => 0
  | lb :: lbs' => hold_delta b lb + outstanding b lbs'
  end.

Definition count_label (f : label -> bool) (lbs : list label) : nat :=
  length (filter (fun lb => f lb = true) lbs).

Definition is_read (b : ptr) (lb : label) : bool :=
  match lb with Lread b' => ptr_eqb b' b | _ => false end.
Definition is_release (b : ptr) (lb : label) : bool :=
  match lb with Lrelease b' => ptr_eqb b' b | _ => false end.
Definition is_pin (b : ptr) (lb : label) : bool :=
  match lb with Lpin b' => ptr_eqb b' b | _ => false end.
Definition is_unpin (b : ptr) (lb : label) : bool :=
  match lb with Lunpin b' => ptr_eqb b' b | _ => false end.

(** Every release so far has its read before it and every unpin its pin. *)
Definition paired (lbs : list label) : Prop :=
  forall n b,
    (count_label (is_release b) (take n lbs) <= count_label (is_read b) (take n lbs))%nat /\
    (count_label (is_unpin b) (take n lbs) <= count_label (is_pin b) (take n lbs))%nat.

(** ** Several callers at once *)

(** Caller [t] runs the [t]-th command of the pool and takes one action of it,
    if it can. *)
Definition sched_step {A : Type} (ts : list (prog A)) (w : world) (t : nat)
    : option (list (prog A) * world) :=
  match ts !! t with
  | None => None
  | Some p =>
    match step t p w with
    | Next _ k w' => Some (<[t := k]> ts, w')
    | Over _ => None
    end
  end.

Fixpoint sched {A : Type} (ts : list (prog A)) (w : world) (order : list nat)
    : option (list (prog A) * world) :=
  match order with
  | [] => Some (ts, w)
  | t :: order' =>
    match sched_step ts w t with
    | None => None
    | Some (ts', w') => sched ts' w' order'
    end
  end.

(** Caller [t] waits for a spinlock that another caller of the pool holds. *)
Definition waits_for {A : Type} (ts : list (prog A)) (w : world) (t : nat) (l : lockid)
    (holder : nat) : Prop :=
  exists p, ts !! t = Some p /\ step t p w = Over (Spinning l w) /\
            spin w.(cache) l = Some holder /\ holder <> t /\ (holder < length ts)%nat.

(** Every caller of the pool waits for a spinlock held by another one: nobody
    will ever take a step again. *)
Definition deadlocked {A : Type} (ts : list (prog A)) (w : world) : Prop :=
  forall t, (t < length ts)%nat -> exists l holder, waits_for ts w t l holder.

(** ** Pointers in range *)

Definition in_range (c : bcache) (p : ptr) : Prop :=
  match p with
  | Hd i => (i < length c.(bcache_head))%nat
  | Bf j => (j < length c.(bcache_buf))%nat
  end.

#[export] Instance ptr_eq_dec : EqDecision ptr.
Proof. solve_decision. Defined.

#[export] Instance lockid_eq_dec : EqDecision lockid.
Proof. solve_decision. Defined.

#[export] Instance in_range_dec c p : Decision (in_range c p).
Proof. destruct p; simpl; apply _. Defined.

Arguments NBUCKET : simpl never.
Arguments deref : simpl never.
Arguments assign : simpl never.
Arguments spin : simpl never.
Arguments set_spin : simpl never.

(** The ends of a chain. *)
Definition last_ptr (from : ptr) (l : list nat) : ptr :=
  match list.last l with
  | Some x => Bf x
  | None => from
  end.

Definition first_ptr (l : list nat) (to : ptr) : ptr :=
  match l with
  | x :: _ => Bf x
  | [] => to
  end.

(** The slots in [S] are linked into the bucket lists [L], slot [j] in the
    list of bucket [loc j] and in no other. *)
Definition shape (S : nat -> Prop) (c : bcache) (L : nat -> list nat) (loc : nat -> nat)
    : Prop :=
  length c.(bcache_head) = NBUCKET /\
  (forall h, (h < NBUCKET)%nat -> chain c (Hd h) (L h) (Hd h) /\ NoDup (L h)) /\
  (forall h j, (h < NBUCKET)%nat -> j ∈ L h -> S j /\ loc j = h) /\
  (forall j, S j -> (j < length c.(bcache_buf))%nat /\ (loc j < NBUCKET)%nat /\ j ∈ L (loc j)).

(** The bucket a slot belongs to by its block number. *)
Definition home (c : bcache) (j : nat) : nat := HASH (deref c (Bf j)).(blockno).

(** Two caches with the same memory: they differ in their spinlocks only. *)
Definition same_mem (c1 c2 : bcache) : Prop :=
  c1.(bcache_buf) = c2.(bcache_buf) /\ c1.(bcache_head) = c2.(bcache_head).

(** What a miss of [bget] does to the cache when it takes slot [j]: the slot
    gets its new identity, and moves to the front of the home bucket when it
    comes from another one. *)
Definition claimed (dev0 blockno0 : Z) (b : ptr) (c : bcache) : bcache :=
  assign b (with_refcnt 1)
    (assign b (with_valid false)
       (assign b (with_blockno blockno0)
          (assign b (with_dev dev0) c))).

Definition recycle (dev0 blockno0 : Z) (j : nat) (c : bcache) : bcache :=
  let c1 := claimed dev0 blockno0 (Bf j) c in
  if decide (home c j = HASH blockno0) then c1
  else push_front (HASH blockno0) (Bf j) (unlink (Bf j) c1).

Definition lock_in_range (c : bcache) (l : lockid) : Prop :=
  match l with
  | Master => True
  | Bucket i => (i < length c.(bcache_lock))%nat
  end.

(** The slot [bget] hands out, if any, and the cache at the moment [bget]
    has released its spinlocks, before it takes the sleep-lock. *)
Definition bget_slot (c : bcache) (dev0 blockno0 : Z) : option nat :=
  match cached c dev0 blockno0 with
  | Some j => Some j
  | None => first_free c
  end.

Definition bget_cache (c : bcache) (dev0 blockno0 : Z) : bcache :=
  match cached c dev0 blockno0 with
  | Some j => assign (Bf j) (refcnt_add 1) c
  | None =>
    match first_free c with
    | Some j => recycle dev0 blockno0 j c
    | None => c
    end
  end.

(** [R l c] holds of every spinlock [l] released in a trace and the cache [c]
    it is released in. *)
Definition at_release (R : lockid -> bcache -> Prop) (x : event * world) : Prop :=
  match x.1 with
  | EvRelease l => R l x.2.(cache)
  | _ => True
  end.

Definition releases (R : lockid -> bcache -> Prop) (tr : list (event * world)) : Prop :=
  Forall (at_release R) tr.

(** The lists after a miss that takes slot [j]. *)
Definition recycled_bucket (c : bcache) (n : Z) (j : nat) (g : nat) : list nat :=
  if decide (home c j = HASH n) then bucket c g
  else if decide (g = HASH n) then j :: bucket c g
  else if decide (g = home c j) then filter (fun x => x ≠ j) (bucket c g)
  else bucket c g.


(** A slot as [binit] leaves it: never used, not locked, all zero. *)
Definition fresh_buf (BSIZE : nat) (b : buf) : Prop :=
  b.(valid) = false /\ b.(dev) = 0 /\ b.(blockno) = 0 /\ b.(lock) = None /\
  b.(refcnt) = 0 /\ b.(data) = repeat Byte.x00 BSIZE.

(** The cache when the second loop of [binit] has linked the slots below [k]:
    they are all in bucket 0, the last one linked first. *)
Definition binit_inv (NBUF BSIZE : nat) (k : nat) (c : bcache) : Prop :=
  length c.(bcache_buf) = NBUF /\
  quiet c /\
  (forall j, (j < NBUF)%nat -> fresh_buf BSIZE (deref c (Bf j))) /\
  shape (fun j => (j < k)%nat) c
        (fun h => if decide (h = 0%nat) then reverse (seq 0 k) else [])
        (fun _ => 0%nat).

(** ** Examples *)

(** An empty disk, and a caller. *)
Definition disk0 : disk_t := fun _ _ => [].
Definition pid7 : nat := 7.

(** The cache of two slots after [bread(1, 5)] by that caller: slot 0 holds
    the block and the caller holds its sleep-lock. *)
Definition world1 : world := final (run (bread 2 1 5) pid7 (boot 2 1 disk0)).

(** Every action a command can take produces an event satisfying [Q]. *)
Inductive uses {A : Type} (Q : event -> Prop) : prog A -> Prop :=
| uses_Ret a : uses Q (Ret a)
| uses_Panic msg : uses Q (Panic msg)
| uses_Diverge : uses Q Diverge
| uses_Initlock l k : Q (EvInitlock l) -> uses Q k -> uses Q (Initlock l k)
| uses_Initsleeplock b k : Q (EvInitsleeplock b) -> uses Q k -> uses Q (Initsleeplock b k)
| uses_Acquire l k : Q (EvAcquire l) -> uses Q k -> uses Q (Acquire l k)
| uses_Release l k : Q (EvRelease l) -> uses Q k -> uses Q (Release l k)
| uses_Acquiresleep b k : Q (EvAcquiresleep b) -> uses Q k -> uses Q (Acquiresleep b k)
| uses_Releasesleep b k : Q (EvReleasesleep b) -> uses Q k -> uses Q (Releasesleep b k)
| uses_Holdingsleep b k :
    Q (EvHoldingsleep b) -> (forall r, uses Q (k r)) -> uses Q (Holdingsleep b k)
| uses_Deref b k : Q (EvDeref b) -> (forall r, uses Q (k r)) -> uses Q (Deref b k)
| uses_Assign b f k : Q (EvAssign b) -> uses Q k -> uses Q (Assign b f k)
| uses_Disk_rw b wr k : Q (EvDisk_rw b wr) -> uses Q k -> uses Q (Disk_rw b wr k).

(** An event that is no disk transfer. *)
Definition no_transfer (e : event) : Prop :=
  match e with
  | EvDisk_rw _ _ => False
  | _ => True
  end.

(** ** The invariant of the system *)

(** Slot [j] is the one the first loop of [bget] finds for its own key. *)
Definition first_of_key (c : bcache) (j : nat) : Prop :=
  cached c (deref c (Bf j)).(dev) (deref c (Bf j)).(blockno) = Some j.

(** A sleeper waits in [bread] for the sleep-lock of the slot [bget] gave it. *)
Definition sleeper_ok (NBUF : nat) (c : bcache) (x : nat * prog ptr) : Prop :=
  exists j, (j < NBUF)%nat /\ x.2 = Acquiresleep (Bf j) (bread_fill (Bf j)) /\
            first_of_key c j.

(** Between two turns the lists are well-formed, no spinlock is held, and a
    slot that is valid or awaited by a sleeper is the first of its key. *)
Definition cache_inv (NBUF : nat) (c : bcache) : Prop :=
  links_ok NBUF c /\ quiet c /\
  forall j, (j < NBUF)%nat -> (deref c (Bf j)).(valid) = true -> first_of_key c j.

Definition sys_inv (NBUF : nat) (s : system) : Prop :=
  cache_inv NBUF s.(sys_world).(cache) /\
  Forall (sleeper_ok NBUF s.(sys_world).(cache)) s.(sys_sleepers).

(** Every bucket list is closed through its head, and every slot of the pool
    is in exactly one bucket list, once: the list of the bucket its block
    number hashes to. *)
Definition consistent (NBUF : nat) (c : bcache) : Prop :=
  forall h, (h < NBUCKET)%nat ->
    chain c (Hd h) (bucket c h) (Hd h) /\
    NoDup (bucket c h) /\
    forall j, j ∈ bucket c h <-> (j < NBUF)%nat /\ HASH (deref c (Bf j)).(blockno) = h.

(** The trace of a public operation. *)
Definition call_trace (NBUF : nat) (c : call) (pid : nat) (w : world) : list (event * world) :=
  match c with
  | Bread dev0 blockno0 => trace (bread NBUF dev0 blockno0) pid w
  | Bwrite b => trace (bwrite b) pid w
  | Brelse b => trace (brelse b) pid w
  | Bpin b => trace (bpin b) pid w
  | Bunpin b => trace (bunpin b) pid w
  end.

(** An event that is no release of a spinlock. *)
Definition no_release (e : event) : Prop :=
  match e with
  | EvRelease _ => False
  | _ => True
  end.

(** Two callers read the same block, the first pins and releases it, the
    second wakes up, and both let go. *)
Definition turns1 : list turn :=
  [Call pid7 (Bread 1 5); Call 8 (Bread 1 5); Call pid7 (Bpin (Bf 0));
   Call pid7 (Brelse (Bf 0)); Wake 8; Call pid7 (Bunpin (Bf 0)); Call 8 (Brelse (Bf 0));
   Call 8 (Bread 1 18)].

Definition labels1 : list label :=
  [Lread (Bf 0); Lread (Bf 0); Lpin (Bf 0); Lrelease (Bf 0); Lwake (Bf 0); Lunpin (Bf 0);
   Lrelease (Bf 0); Lread (Bf 0)].

(** The state a sequence of turns leads to from [binit]. *)
Definition world_after (NBUF BSIZE : nat) (d : disk_t) (ts : list turn) : world :=
  match sys_run NBUF (sys_boot NBUF BSIZE d) ts with
  | Some (_, s) => s.(sys_world)
  | None => boot NBUF BSIZE d
  end.

(** The count of slot [j] is not negative, and not zero if its sleep-lock is
    held. *)
Definition counted (c : bcache) (j : nat) : bool :=
  (0 <=? (deref c (Bf j)).(refcnt)) &&
  match (deref c (Bf j)).(lock) with
  | Some _ => 1 <=? (deref c (Bf j)).(refcnt)
  | None => true
  end.

(** A pool of three slots where a caller holds slot 0, and a pool of two of
    which it holds both. *)
Definition world3 : world := world_after 3 1 disk0 [Call 9 (Bread 1 0)].
Definition world4 : world := world_after 2 1 disk0 [Call 9 (Bread 1 0); Call 9 (Bread 1 2)].

(** A third caller has read block 0 into slot 0 and keeps it; it has read and
    released block 2, which left slot 1 free in bucket 2. *)
Definition turns9 : list turn :=
  [Call 9 (Bread 1 0); Call 9 (Bread 1 2); Call 9 (Brelse (Bf 1))].

Definition world9 : world := world_after 2 1 disk0 turns9.

(** Two callers miss at once: caller 0 asks for block 1 (bucket 1), caller 1
    for block 13 (bucket 0).  Caller 1 takes one action, caller 0 four, caller
    1 two more. *)
Definition pool9 : list (prog ptr) := [bget 2 1 1; bget 2 1 13].
Definition order9 : list nat := [1; 0; 0; 0; 0; 1; 1]%nat.

(** The spinlock caller [t] spins on, and the caller of the pool that holds
    it. *)
Definition blocked_on {A : Type} (ts : list (prog A)) (w : world) (t : nat)
    : option (lockid * nat) :=
  match ts !! t with
  | None => None
  | Some p =>
    match step t p w with
    | Over (Spinning l _) =>
      match spin w.(cache) l with
      | Some holder =>
        if decide (holder <> t /\ (holder < length ts)%nat) then Some (l, holder) else None
      | None => None
      end
    | _ => None
    end
  end.

(** ** What the cache holds *)

(** Every valid slot of the pool holds what the disk has for its block. *)
Definition coherent (NBUF : nat) (w : world) : Prop :=
  forall j, (j < NBUF)%nat ->
    (deref w.(cache) (Bf j)).(valid) = true ->
    (deref w.(cache) (Bf j)).(data) =
    w.(disk) (deref w.(cache) (Bf j)).(dev) (deref w.(cache) (Bf j)).(blockno).

(** A call that is over or sleeps on a buffer: it neither spins on a spinlock
    nor walks a list for ever. *)
Definition settled {A : Type} (o : outcome A) : Prop :=
  match o with
  | Spinning _ _ | Diverged _ => False
  | _ => True
  end.

(** An event that is no transfer to the disk. *)
Definition no_write (e : event) : Prop :=
  match e with
  | EvDisk_rw _ true => False
  | _ => True
  end.

(** A disk whose block 5 of device 1 holds one byte. *)
Definition disk5 : disk_t :=
  fun d n => if (d =? 1) && (n =? 5) then [Byte.x2a] else [].

(** [w'] differs from [w] at most in the count and the sleep-lock of the
    buffer [b]. *)
Definition same_but_count (b : ptr) (w w' : world) : Prop :=
  (forall h, bucket w'.(cache) h = bucket w.(cache) h) /\
  (forall p, p <> b -> deref w'.(cache) p = deref w.(cache) p) /\
  (deref w'.(cache) b).(dev) = (deref w.(cache) b).(dev) /\
  (deref w'.(cache) b).(blockno) = (deref w.(cache) b).(blockno) /\
  (deref w'.(cache) b).(valid) = (deref w.(cache) b).(valid) /\
  (deref w'.(cache) b).(data) = (deref w.(cache) b).(data) /\
  (deref w'.(cache) b).(prev) = (deref w.(cache) b).(prev) /\
  (deref w'.(cache) b).(next) = (deref w.(cache) b).(next) /\
  w'.(cache).(bcache_lock) = w.(cache).(bcache_lock) /\
  w'.(cache).(bcache_master) = w.(cache).(bcache_master) /\
  w'.(disk) = w.(disk).

(** Slot [i] is in [c'] what it was in [c]: it has the same device and block
    number and, if it was valid, it is valid with the same payload. *)
Definition intact (c c' : bcache) (i : nat) : Prop :=
  (deref c' (Bf i)).(dev) = (deref c (Bf i)).(dev) /\
  (deref c' (Bf i)).(blockno) = (deref c (Bf i)).(blockno) /\
  ((deref c (Bf i)).(valid) = true ->
   (deref c' (Bf i)).(valid) = true /\
   (deref c' (Bf i)).(data) = (deref c (Bf i)).(data)).

(** ** Pointers and locks in bounds *)

(** A pointer into [bcache.head] or [bcache.buf], and a spinlock of the
    cache. *)
Definition ptr_ok (NBUF : nat) (p : ptr) : Prop :=
  match p with
  | Hd h => (h < NBUCKET)%nat
  | Bf j => (j < NBUF)%nat
  end.

Definition lock_ok (l : lockid) : Prop :=
  match l with
  | Master => True
  | Bucket i => (i < NBUCKET)%nat
  end.

(** The action goes through a pointer into the arrays, or takes or gives
    back a spinlock that exists. *)
Definition event_ok (NBUF : nat) (e : event) : Prop :=
  match e with
  | EvInitlock l | EvAcquire l | EvRelease l => lock_ok l
  | EvInitsleeplock b | EvAcquiresleep b | EvReleasesleep b | EvHoldingsleep b
  | EvDeref b | EvAssign b | EvDisk_rw b _ => ptr_ok NBUF b
  end.

Definition in_bounds (NBUF : nat) (tr : list (event * world)) : Prop :=
  Forall (fun x => event_ok NBUF x.1) tr.

(** The links stored in the arrays point into the arrays. *)
Definition closed (NBUF : nat) (c : bcache) : Prop :=
  forall p, ptr_ok NBUF p ->
    ptr_ok NBUF (deref c p).(next) /\ ptr_ok NBUF (deref c p).(prev).

(** A command all of whose actions are in bounds, from any state that
    satisfies [I]. *)
Definition Safe (NBUF pid : nat) (I : bcache -> Prop) {A : Type} (p : prog A) : Prop :=
  forall w, I w.(cache) -> in_bounds NBUF (trace p pid w).

(** The first element of the list of bucket 0 is in the arrays. *)
Definition head0_ok (NBUF : nat) (c : bcache) : Prop :=
  ptr_ok NBUF (deref c (Hd 0)).(next).

(** ** The order of the spinlocks *)

(** The acquires and releases of spinlocks in a trace, in order. *)
Fixpoint spin_events (tr : list (event * world)) : list event :=
  match tr with
  | [] => []
  | (e, _) :: tr' =>
    match e with
    | EvAcquire _ | EvRelease _ => e :: spin_events tr'
    | _ => spin_events tr'
    end
  end.

(** What the second loop of [bget] does with the lock of the bucket of a slot
    in use: nothing if it is the home bucket [h], whose lock is held already;
    otherwise it takes the lock and gives it back. *)
Definition donor_locks (c : bcache) (h i : nat) : list event :=
  if Nat.eqb (home c i) h then []
  else [EvAcquire (Bucket (home c i)); EvRelease (Bucket (home c i))].

(** The spinlock events of the second loop from slot [j] on, over [n] slots:
    the slots in use before the first free one, then the free one. *)
Definition scan_locks (c : bcache) (h j n : nat) : list event :=
  match find (is_unused c) (seq j n) with
  | Some i =>
    flat_map (donor_locks c h) (seq j (i - j)) ++
    (if Nat.eqb (home c i) h then [EvRelease Master; EvRelease (Bucket h)]
     else [EvAcquire (Bucket (home c i)); EvRelease (Bucket (home c i));
           EvRelease (Bucket h); EvRelease Master])
  | None =>
    flat_map (donor_locks c h) (seq j n) ++ [EvRelease Master; EvRelease (Bucket h)]
  end.

(** The spinlock events of [bget]. *)
Definition bget_locks (NBUF : nat) (c : bcache) (dev0 blockno0 : Z) : list event :=
  let h := HASH blockno0 in
  match cached c dev0 blockno0 with
  | Some _ => [EvAcquire (Bucket h); EvRelease (Bucket h)]
  | None => [EvAcquire (Bucket h); EvAcquire Master] ++ scan_locks c h 0 NBUF
  end.

(** ** A slot taken on a miss *)




(** * Proofs *)

#[local] Set Warnings "-clear-no-such-hyp".

Lemma ptr_eqb_eq p q : ptr_eqb p q = true <-> p = q.
Proof.
  destruct p, q; simpl; rewrite ?Nat.eqb_eq; split; intros H;
    try congruence; try discriminate.
Qed.

Lemma ptr_eqb_neq p q : ptr_eqb p q = false <-> p <> q.
Proof.
  rewrite <- ptr_eqb_eq. destruct (ptr_eqb p q); split; congruence.
Qed.

Lemma ptr_eqb_refl p : ptr_eqb p p = true.
Proof. by apply ptr_eqb_eq. Qed.

Section Memory.
Context (c : bcache).

Lemma assign_length_buf p f : length (bcache_buf (assign p f c)) = length (bcache_buf c).
Proof. destruct p; unfold assign; simpl; by rewrite ?length_alter. Qed.

Lemma assign_length_head p f : length (bcache_head (assign p f c)) = length (bcache_head c).
Proof. destruct p; unfold assign; simpl; by rewrite ?length_alter. Qed.

Lemma assign_lock p f : bcache_lock (assign p f c) = bcache_lock c.
Proof. by destruct p. Qed.

Lemma assign_master p f : bcache_master (assign p f c) = bcache_master c.
Proof. by destruct p. Qed.

Lemma in_range_assign p f q : in_range (assign p f c) q <-> in_range c q.
Proof. destruct q; unfold in_range; by rewrite ?assign_length_buf, ?assign_length_head. Qed.

Lemma deref_assign_eq p f : in_range c p -> deref (assign p f c) p = f (deref c p).
Proof.
  destruct p as [i|j]; unfold deref, assign; simpl; intros Hr.
  - destruct (lookup_lt_is_Some_2 _ _ Hr) as [x Hx].
    rewrite list_lookup_alter_eq, Hx. done.
  - destruct (lookup_lt_is_Some_2 _ _ Hr) as [x Hx].
    rewrite list_lookup_alter_eq, Hx. done.
Qed.

Lemma deref_assign_ne p f q : p <> q -> deref (assign p f c) q = deref c q.
Proof.
  destruct p as [i|j], q as [i'|j']; unfold deref, assign; simpl; intros Hne; try done.
  - rewrite list_lookup_alter_ne; [done | congruence].
  - rewrite list_lookup_alter_ne; [done | congruence].
Qed.

Lemma deref_assign_out p f q : ~ in_range c p -> deref (assign p f c) q = deref c q.
Proof.
  intros Hr. destruct (decide (p = q)) as [->|Hne]; [|by apply deref_assign_ne].
  destruct q as [i|j]; unfold deref, assign; simpl in *.
  - rewrite list_lookup_alter_eq. rewrite lookup_ge_None_2; [done | lia].
  - rewrite list_lookup_alter_eq. rewrite lookup_ge_None_2; [done | lia].
Qed.

(** A property of a struct that [f] keeps is kept at every pointer. *)
Lemma deref_assign_keep {X : Type} (g : buf -> X) p f q :
  (forall b, g (f b) = g b) -> g (deref (assign p f c) q) = g (deref c q).
Proof.
  intros Hk. destruct (decide (p = q)) as [->|Hne].
  - destruct (decide (in_range c q)).
    + by rewrite deref_assign_eq, Hk.
    + by rewrite deref_assign_out.
  - by rewrite deref_assign_ne.
Qed.

Lemma deref_set_spin l v q : deref (set_spin l v c) q = deref c q.
Proof. by destruct l, q. Qed.

Lemma spin_assign p f l : spin (assign p f c) l = spin c l.
Proof. by destruct p, l. Qed.

Lemma set_spin_length_buf l v : length (bcache_buf (set_spin l v c)) = length (bcache_buf c).
Proof. by destruct l. Qed.

End Memory.
(** ** Linked lists in the cache memory *)

(** A chain only depends on the links of the nodes on it. *)
Lemma chain_frame c c' from l to :
  chain c from l to ->
  (deref c' from).(next) = (deref c from).(next) ->
  (forall j, j ∈ l ->
     (deref c' (Bf j)).(next) = (deref c (Bf j)).(next) /\
     (deref c' (Bf j)).(prev) = (deref c (Bf j)).(prev)) ->
  (deref c' to).(prev) = (deref c to).(prev) ->
  chain c' from l to.
Proof.
  revert from. induction l as [|j l IH]; simpl; intros from Hc Hf Hl Ht.
  - destruct Hc as [H1 H2]. split; congruence.
  - destruct Hc as (H1 & H2 & H3).
    destruct (Hl j) as [Hn Hp]; [left|].
    split; [congruence|]. split; [congruence|].
    apply IH; auto. intros x Hx. apply Hl. by right.
Qed.

Lemma chain_same_links c c' from l to :
  (forall p, (deref c' p).(next) = (deref c p).(next)) ->
  (forall p, (deref c' p).(prev) = (deref c p).(prev)) ->
  chain c from l to -> chain c' from l to.
Proof. intros Hn Hp Hc. eapply chain_frame; eauto. Qed.

Lemma chain_app c from l1 j l2 to :
  chain c from (l1 ++ j :: l2) to <-> chain c from l1 (Bf j) /\ chain c (Bf j) l2 to.
Proof.
  revert from. induction l1 as [|x l1 IH]; simpl; intros from.
  - tauto.
  - rewrite IH. tauto.
Qed.

(** The walk along [next] follows the chain. *)
Lemma walk_chain c from l h fuel :
  chain c from l (Hd h) -> (length l <= fuel)%nat ->
  walk c fuel (deref c from).(next) = l.
Proof.
  revert from fuel. induction l as [|j l IH]; simpl; intros from fuel Hc Hlen.
  - destruct Hc as [-> _]. by destruct fuel.
  - destruct Hc as (-> & _ & Hc). destruct fuel as [|fuel]; [lia|].
    simpl. f_equal. apply IH; [done | lia].
Qed.

Lemma walk_same_next c c' fuel p :
  (forall q, (deref c' q).(next) = (deref c q).(next)) ->
  walk c' fuel p = walk c fuel p.
Proof.
  intros Hn. revert p. induction fuel as [|fuel IH]; simpl; intros p; [done|].
  destruct p; [done|]. by rewrite Hn, IH.
Qed.

(** A list of distinct slot numbers below [n] has at most [n] elements. *)
Lemma NoDup_bounded_length (l : list nat) n :
  NoDup l -> (forall j, j ∈ l -> (j < n)%nat) -> (length l <= n)%nat.
Proof.
  intros Hnd Hb.
  rewrite <- (length_seq n 0). apply submseteq_length, NoDup_submseteq; [done|].
  intros j Hj. apply elem_of_seq. specialize (Hb j Hj). lia.
Qed.

Lemma chain_first c from l to : chain c from l to -> (deref c from).(next) = first_ptr l to.
Proof. destruct l; simpl; tauto. Qed.

Lemma chain_last c from l to : chain c from l to -> (deref c to).(prev) = last_ptr from l.
Proof.
  revert from. induction l as [|j l IH]; simpl; intros from Hc.
  - tauto.
  - destruct Hc as (_ & _ & Hc). rewrite (IH _ Hc). unfold last_ptr.
    destruct l as [|x l]; [done|]. simpl.
    destruct (list.last (x :: l)) eqn:E; [done|]. by apply last_None in E.
Qed.

Lemma last_ptr_cases from l :
  last_ptr from l = from \/ exists x, x ∈ l /\ last_ptr from l = Bf x.
Proof.
  unfold last_ptr. destruct (list.last l) as [x|] eqn:E; [right|by left].
  exists x. split; [|done]. apply last_Some in E as [l' ->]. set_solver.
Qed.

Lemma first_ptr_cases l to :
  first_ptr l to = to \/ exists x, x ∈ l /\ first_ptr l to = Bf x.
Proof. destruct l as [|x l]; [by left|right]. exists x. set_solver. Qed.
(** Taking [j] out of a chain: its predecessor and its successor are linked
    to each other, every other link stays. *)
Lemma chain_unlinked c c' from l1 j l2 to :
  chain c from (l1 ++ j :: l2) to ->
  NoDup (l1 ++ j :: l2) ->
  (forall x, x ∈ l1 ++ j :: l2 -> from <> Bf x /\ to <> Bf x) ->
  (forall q, (deref c' q).(next) =
             if decide (q = (deref c (Bf j)).(prev)) then (deref c (Bf j)).(next)
             else (deref c q).(next)) ->
  (forall q, (deref c' q).(prev) =
             if decide (q = (deref c (Bf j)).(next)) then (deref c (Bf j)).(prev)
             else (deref c q).(prev)) ->
  chain c' from (l1 ++ l2) to.
Proof.
  intros Hc Hnd Hends Hn Hp.
  pose proof Hc as Hc0. apply chain_app in Hc0 as [Hc1 Hc2].
  pose proof (chain_last _ _ _ _ Hc1) as HP.
  pose proof (chain_first _ _ _ _ Hc2) as HN.
  rewrite HP in Hn, Hp. rewrite HN in Hn, Hp. clear HP HN Hc1 Hc2.
  revert from Hc Hnd Hends Hn Hp.
  induction l1 as [|y l1 IH]; intros from Hc Hnd Hends Hn Hp.
  - simpl in *. destruct Hc as (H1 & H2 & H3).
    apply NoDup_cons in Hnd as [Hj Hnd].
    unfold last_ptr in *; simpl in *.
    destruct l2 as [|x l2]; simpl in *.
    + destruct H3 as [H3 H4]. split.
      * rewrite Hn. by rewrite decide_True.
      * rewrite Hp. by rewrite decide_True.
    + destruct H3 as (H3 & H4 & H5). split; [|split].
      * rewrite Hn. by rewrite decide_True.
      * rewrite Hp. by rewrite decide_True.
      * apply NoDup_cons in Hnd as [Hx Hnd].
        eapply chain_frame; [exact H5 | | |].
        -- rewrite Hn. rewrite decide_False; [done|].
           intros <-. destruct (Hends x) as [? ?]; [set_solver|]. done.
        -- intros z Hz. rewrite Hn, Hp. split.
           ++ rewrite decide_False; [done|].
              intros <-. destruct (Hends z) as [? ?]; [set_solver|]. done.
           ++ rewrite decide_False; [done|]. intros [= ->]. by apply Hx.
        -- rewrite Hp. rewrite decide_False; [done|].
           intros ->. destruct (Hends x) as [? ?]; [set_solver|]. done.
  - simpl in Hc. destruct Hc as (H1 & H2 & H3).
    simpl in Hnd. apply NoDup_cons in Hnd as [Hy Hnd].
    assert (Hlast : last_ptr from (y :: l1) = last_ptr (Bf y) l1).
    { unfold last_ptr. destruct l1 as [|z l1]; [done|].
      change (list.last (y :: z :: l1)) with (list.last (z :: l1)).
      destruct (list.last (z :: l1)) eqn:E; [done|]. by apply last_None in E. }
    rewrite Hlast in Hn, Hp.
    simpl. split; [|split].
    + rewrite Hn. rewrite decide_False; [done|].
      intros ->. destruct (last_ptr_cases (Bf y) l1) as [E|(x & Hx & E)].
      * destruct (Hends y) as [? ?]; [set_solver|]. congruence.
      * destruct (Hends x) as [? ?]; [set_solver|]. congruence.
    + rewrite Hp. rewrite decide_False; [done|].
      destruct (first_ptr_cases l2 to) as [E|(x & Hx & E)]; rewrite E.
      * intros <-. destruct (Hends y) as [? ?]; [set_solver|]. done.
      * intros [= ->]. apply Hy. set_solver.
    + apply IH; auto.
      intros x Hx. split.
      * intros [= ->]. done.
      * destruct (Hends x) as [? ?]; [set_solver|]. done.
Qed.

(** Putting [j] at the front of the list of bucket [h]. *)
Lemma chain_pushed c c' h j l :
  chain c (Hd h) l (Hd h) ->
  NoDup l ->
  j ∉ l ->
  (deref c' (Hd h)).(next) = Bf j ->
  (deref c' (Bf j)).(next) = (deref c (Hd h)).(next) ->
  (deref c' (Bf j)).(prev) = Hd h ->
  (deref c' (deref c (Hd h)).(next)).(prev) = Bf j ->
  (forall x, x ∈ l -> (deref c' (Bf x)).(next) = (deref c (Bf x)).(next)) ->
  (forall q, q <> (deref c (Hd h)).(next) -> q <> Bf j ->
             (deref c' q).(prev) = (deref c q).(prev)) ->
  chain c' (Hd h) (j :: l) (Hd h).
Proof.
  intros Hc Hnd Hj H1 H2 H3 H4 Hn Hp. simpl. split; [done|]. split; [done|].
  destruct l as [|x l]; simpl in *.
  - destruct Hc as [Hc1 Hc2]. rewrite Hc1 in *. split; [done|]. done.
  - destruct Hc as (Hc1 & Hc2 & Hc3). rewrite Hc1 in *. split; [done|].
    split; [done|].
    eapply chain_frame; [exact Hc3 | | |].
    + apply Hn. set_solver.
    + intros z Hz. split; [apply Hn; set_solver|].
      apply Hp; [|intros [= ->]; set_solver].
      intros [= ->]. apply NoDup_cons in Hnd as [Hx _]. by apply Hx.
    + apply Hp; done.
Qed.
(** ** The pointer surgery of [bget] *)

Lemma unlink_eq c b :
  unlink b c =
  assign (deref c b).(next) (with_prev (deref c b).(prev))
    (assign (deref c b).(prev) (with_next (deref c b).(next)) c).
Proof.
  unfold unlink.
  assert (Hn : (deref (assign (deref c b).(prev) (with_next (deref c b).(next)) c) b).(next)
               = (deref c b).(next)).
  { destruct (decide ((deref c b).(prev) = b)) as [E|E].
    - destruct (decide (in_range c b)) as [Hr|Hr].
      + rewrite E at 1. by rewrite deref_assign_eq.
      + rewrite deref_assign_out; [done | by rewrite E].
    - by rewrite deref_assign_ne. }
  rewrite Hn. by rewrite (deref_assign_keep _ prev).
Qed.

Lemma next_unlink c b q :
  in_range c (deref c b).(prev) ->
  (deref (unlink b c) q).(next) =
  if decide (q = (deref c b).(prev)) then (deref c b).(next) else (deref c q).(next).
Proof.
  intros Hr. rewrite unlink_eq. rewrite (deref_assign_keep _ next) by done.
  destruct (decide (q = _)) as [->|Hne].
  - by rewrite deref_assign_eq.
  - by rewrite deref_assign_ne.
Qed.

Lemma prev_unlink c b q :
  in_range c (deref c b).(next) ->
  (deref (unlink b c) q).(prev) =
  if decide (q = (deref c b).(next)) then (deref c b).(prev) else (deref c q).(prev).
Proof.
  intros Hr. rewrite unlink_eq.
  destruct (decide (q = _)) as [->|Hne].
  - rewrite deref_assign_eq by (by apply in_range_assign). done.
  - rewrite deref_assign_ne by done. by rewrite (deref_assign_keep _ prev).
Qed.

Lemma unlink_keep {X : Type} (g : buf -> X) c b q :
  (forall v x, g (with_next v x) = g x) -> (forall v x, g (with_prev v x) = g x) ->
  g (deref (unlink b c) q) = g (deref c q).
Proof.
  intros H1 H2. rewrite unlink_eq. rewrite !deref_assign_keep; auto.
Qed.

Lemma push_front_eq c h j :
  push_front h (Bf j) c =
  assign (Hd h) (with_next (Bf j))
    (assign (deref c (Hd h)).(next) (with_prev (Bf j))
       (assign (Bf j) (with_prev (Hd h))
          (assign (Bf j) (with_next (deref c (Hd h)).(next)) c))).
Proof.
  unfold push_front. rewrite !deref_assign_ne by done. done.
Qed.

Lemma next_push_front c h j q :
  in_range c (Hd h) -> in_range c (Bf j) ->
  (deref (push_front h (Bf j) c) q).(next) =
  if decide (q = Hd h) then Bf j
  else if decide (q = Bf j) then (deref c (Hd h)).(next)
  else (deref c q).(next).
Proof.
  intros Hh Hj. rewrite push_front_eq.
  destruct (decide (q = Hd h)) as [->|Hne].
  - rewrite deref_assign_eq by (by rewrite !in_range_assign). done.
  - rewrite deref_assign_ne by done.
    rewrite (deref_assign_keep _ next) by done.
    rewrite (deref_assign_keep _ next) by done.
    destruct (decide (q = Bf j)) as [->|Hne'].
    + by rewrite deref_assign_eq.
    + by rewrite deref_assign_ne.
Qed.

Lemma prev_push_front c h j q :
  in_range c (deref c (Hd h)).(next) -> in_range c (Bf j) ->
  (deref c (Hd h)).(next) <> Bf j ->
  (deref (push_front h (Bf j) c) q).(prev) =
  if decide (q = (deref c (Hd h)).(next)) then Bf j
  else if decide (q = Bf j) then Hd h
  else (deref c q).(prev).
Proof.
  intros Hf Hj Hne. rewrite push_front_eq.
  rewrite (deref_assign_keep _ prev) by done.
  destruct (decide (q = _)) as [->|Hq].
  - rewrite deref_assign_eq by (by rewrite !in_range_assign). done.
  - rewrite deref_assign_ne by done.
    destruct (decide (q = Bf j)) as [->|Hq'].
    + rewrite deref_assign_eq by (by rewrite !in_range_assign). done.
    + rewrite deref_assign_ne by done. by rewrite (deref_assign_keep _ prev).
Qed.

Lemma push_front_keep {X : Type} (g : buf -> X) c h b q :
  (forall v x, g (with_next v x) = g x) -> (forall v x, g (with_prev v x) = g x) ->
  g (deref (push_front h b c) q) = g (deref c q).
Proof.
  intros H1 H2. unfold push_front. rewrite !deref_assign_keep; auto.
Qed.

Lemma unlink_length_buf c b : length (bcache_buf (unlink b c)) = length (bcache_buf c).
Proof. unfold unlink. by rewrite !assign_length_buf. Qed.

Lemma unlink_length_head c b : length (bcache_head (unlink b c)) = length (bcache_head c).
Proof. unfold unlink. by rewrite !assign_length_head. Qed.

Lemma push_front_length_buf c h b :
  length (bcache_buf (push_front h b c)) = length (bcache_buf c).
Proof. unfold push_front. by rewrite !assign_length_buf. Qed.

Lemma push_front_length_head c h b :
  length (bcache_head (push_front h b c)) = length (bcache_head c).
Proof. unfold push_front. by rewrite !assign_length_head. Qed.

Lemma unlink_lock c b : bcache_lock (unlink b c) = bcache_lock c.
Proof. unfold unlink. by rewrite !assign_lock. Qed.

Lemma unlink_master c b : bcache_master (unlink b c) = bcache_master c.
Proof. unfold unlink. by rewrite !assign_master. Qed.

Lemma push_front_lock c h b : bcache_lock (push_front h b c) = bcache_lock c.
Proof. unfold push_front. by rewrite !assign_lock. Qed.

Lemma push_front_master c h b : bcache_master (push_front h b c) = bcache_master c.
Proof. unfold push_front. by rewrite !assign_master. Qed.
(** ** The shape of the bucket lists *)

Lemma shape_length S c L loc h :
  shape S c L loc -> (h < NBUCKET)%nat -> (length (L h) <= length (bcache_buf c))%nat.
Proof.
  intros (Hh & Hch & Hin & Hs) Hlt.
  apply NoDup_bounded_length; [by apply Hch|].
  intros j Hj. destruct (Hin h j Hlt Hj) as [HS _]. by apply Hs.
Qed.

(** The walk of the code finds the lists of the shape. *)
Lemma shape_bucket S c L loc h :
  shape S c L loc -> (h < NBUCKET)%nat -> bucket c h = L h.
Proof.
  intros Hsh Hlt. unfold bucket.
  eapply walk_chain; [|by eapply shape_length].
  destruct Hsh as (_ & Hch & _). by apply Hch.
Qed.

Lemma shape_in_range_head S c L loc h :
  shape S c L loc -> (h < NBUCKET)%nat -> in_range c (Hd h).
Proof. intros (Hh & _) Hlt. simpl. by rewrite Hh. Qed.

Lemma shape_in_range_buf S c L loc j :
  shape S c L loc -> S j -> in_range c (Bf j).
Proof. intros (_ & _ & _ & Hs) Hj. simpl. by apply Hs. Qed.

Lemma shape_disjoint S c L loc h h' j :
  shape S c L loc -> (h < NBUCKET)%nat -> (h' < NBUCKET)%nat ->
  j ∈ L h -> j ∈ L h' -> h = h'.
Proof.
  intros (_ & _ & Hin & _) Hlt Hlt' Hj Hj'.
  destruct (Hin h j Hlt Hj) as [_ <-]. by destruct (Hin h' j Hlt' Hj') as [_ <-].
Qed.

(** Assignments to other fields leave the shape alone. *)
Lemma shape_same_links S c c' L loc :
  length (bcache_buf c') = length (bcache_buf c) ->
  length (bcache_head c') = length (bcache_head c) ->
  (forall p, (deref c' p).(next) = (deref c p).(next)) ->
  (forall p, (deref c' p).(prev) = (deref c p).(prev)) ->
  shape S c L loc -> shape S c' L loc.
Proof.
  intros Hb Hh Hn Hp (H1 & H2 & H3 & H4). unfold shape. rewrite Hb, Hh.
  split; [done|]. split; [|done].
  intros h Hlt. destruct (H2 h Hlt). split; [|done]. by eapply chain_same_links.
Qed.

Lemma shape_ext S S' c L L' loc loc' :
  (forall j, S' j <-> S j) ->
  (forall h, (h < NBUCKET)%nat -> L' h = L h) ->
  (forall j, S j -> loc' j = loc j) ->
  shape S c L loc -> shape S' c L' loc'.
Proof.
  intros HS HL Hloc (H1 & H2 & H3 & H4). split; [done|]. split; [|split].
  - intros h Hlt. rewrite HL by done. by apply H2.
  - intros h j Hlt. rewrite HL by done. intros Hj.
    destruct (H3 h j Hlt Hj) as [? ?]. split; [by apply HS|]. by rewrite Hloc.
  - intros j Hj. apply HS in Hj. destruct (H4 j Hj) as (? & ? & ?).
    rewrite Hloc by done. split; [done|]. split; [done|]. by rewrite HL.
Qed.

Lemma filter_ne_notin (j : nat) (l : list nat) :
  j ∉ l -> filter (fun x => x ≠ j) l = l.
Proof.
  induction l as [|x l IH]; intros Hj; [done|].
  apply not_elem_of_cons in Hj as [Hx Hj].
  rewrite filter_cons_True by congruence. by rewrite IH.
Qed.

Lemma filter_ne_split (j : nat) (l1 l2 : list nat) :
  j ∉ l1 -> j ∉ l2 -> filter (fun x => x ≠ j) (l1 ++ j :: l2) = l1 ++ l2.
Proof.
  intros H1 H2. rewrite filter_app, filter_cons_False by (intros ?; done).
  by rewrite !filter_ne_notin.
Qed.

(** Taking a slot out of its list. *)
Lemma shape_unlink S c L loc j :
  shape S c L loc -> S j ->
  shape (fun x => S x /\ x <> j) (unlink (Bf j) c)
        (fun h => if decide (h = loc j) then filter (fun x => x ≠ j) (L h) else L h) loc.
Proof.
  intros Hsh Hj. pose proof Hsh as (Hh & Hch & Hin & Hs).
  destruct (Hs j Hj) as (Hjr & Hg & HjL). set (g := loc j) in *.
  apply list_elem_of_split in HjL as (l1 & l2 & HL).
  destruct (Hch g Hg) as [Hcg Hndg]. rewrite HL in Hcg, Hndg.
  assert (Hj1 : (j ∉ l1) /\ (j ∉ l2)).
  { apply NoDup_app in Hndg as (_ & Hd & Hnd2). apply NoDup_cons in Hnd2 as [? ?].
    split; [|done]. intros Hx. apply (Hd j Hx). by left. }
  destruct Hj1 as [Hj1 Hj2].
  pose proof Hcg as Hcg'. apply chain_app in Hcg' as [Hc1 Hc2].
  pose proof (chain_last _ _ _ _ Hc1) as HP.
  pose proof (chain_first _ _ _ _ Hc2) as HN.
  assert (HPr : in_range c (deref c (Bf j)).(prev)).
  { rewrite HP. destruct (last_ptr_cases (Hd g) l1) as [->|(x & Hx & ->)].
    - by eapply shape_in_range_head.
    - eapply shape_in_range_buf; [done|]. apply (Hin g x Hg). rewrite HL. set_solver. }
  assert (HNr : in_range c (deref c (Bf j)).(next)).
  { rewrite HN. destruct (first_ptr_cases l2 (Hd g)) as [->|(x & Hx & ->)].
    - by eapply shape_in_range_head.
    - eapply shape_in_range_buf; [done|]. apply (Hin g x Hg). rewrite HL. set_solver. }
  split; [by rewrite unlink_length_head|]. split; [|split].
  - intros h Hlt. destruct (decide (h = g)) as [->|Hne].
    + rewrite HL, filter_ne_split by done. split.
      * eapply chain_unlinked; [exact Hcg | exact Hndg | | |].
        -- intros x Hx. split; done.
        -- intros q. by apply next_unlink.
        -- intros q. by apply prev_unlink.
      * apply NoDup_app in Hndg as (Hnd1 & Hd & Hnd2).
        apply NoDup_cons in Hnd2 as [_ Hnd2]. apply NoDup_app. split; [done|].
        split; [|done]. intros x Hx1 Hx2. apply (Hd x Hx1). by right.
    + destruct (Hch h Hlt) as [Hc Hnd]. split; [|done].
      eapply chain_frame; [exact Hc | | |].
      * rewrite next_unlink by done. rewrite decide_False; [done|].
        rewrite HP. destruct (last_ptr_cases (Hd g) l1) as [->|(x & Hx & ->)]; congruence.
      * intros x Hx. rewrite next_unlink, prev_unlink by done.
        rewrite HP, HN. split.
        -- rewrite decide_False; [done|].
           destruct (last_ptr_cases (Hd g) l1) as [->|(y & Hy & ->)]; [done|].
           intros [= ->]. apply Hne.
           eapply shape_disjoint; [exact Hsh|done|done|done|]. rewrite HL. set_solver.
        -- rewrite decide_False; [done|].
           destruct (first_ptr_cases l2 (Hd g)) as [->|(y & Hy & ->)]; [done|].
           intros [= ->]. apply Hne.
           eapply shape_disjoint; [exact Hsh|done|done|done|]. rewrite HL. set_solver.
      * rewrite prev_unlink by done. rewrite decide_False; [done|].
        rewrite HN. destruct (first_ptr_cases l2 (Hd g)) as [->|(x & Hx & ->)]; congruence.
  - intros h x Hlt Hx. destruct (decide (h = g)) as [->|Hne].
    + apply list_elem_of_filter in Hx as [Hxj Hx]. destruct (Hin g x Hlt Hx). done.
    + destruct (Hin h x Hlt Hx) as [? ?]. split; [|done]. split; [done|].
      intros ->. apply Hne. done.
  - intros x [Hx Hxj]. destruct (Hs x Hx) as (? & ? & ?).
    rewrite unlink_length_buf. split; [done|]. split; [done|].
    destruct (decide (loc x = g)) as [E|E]; [|done].
    apply list_elem_of_filter. split; [done|]. done.
Qed.
(** Putting a slot that is in no list at the front of a list. *)
Lemma shape_push S c L loc h j :
  shape S c L loc -> ~ S j -> (j < length (bcache_buf c))%nat -> (h < NBUCKET)%nat ->
  shape (fun x => S x \/ x = j) (push_front h (Bf j) c)
        (fun g => if decide (g = h) then j :: L g else L g)
        (fun x => if decide (x = j) then h else loc x).
Proof.
  intros Hsh Hj Hjr Hh. pose proof Hsh as (Hhd & Hch & Hin & Hs).
  assert (HjL : forall g, (g < NBUCKET)%nat -> j ∉ L g).
  { intros g Hg Hx. by destruct (Hin g j Hg Hx). }
  destruct (Hch h Hh) as [Hc Hnd].
  pose proof (chain_first _ _ _ _ Hc) as HF.
  assert (Hhr : in_range c (Hd h)) by by eapply shape_in_range_head.
  assert (HFr : in_range c (deref c (Hd h)).(next)).
  { rewrite HF. destruct (first_ptr_cases (L h) (Hd h)) as [->|(x & Hx & ->)]; [done|].
    eapply shape_in_range_buf; [done|]. by apply (Hin h x Hh). }
  assert (HFj : (deref c (Hd h)).(next) <> Bf j).
  { rewrite HF. destruct (first_ptr_cases (L h) (Hd h)) as [->|(x & Hx & ->)]; [done|].
    intros [= ->]. by apply (HjL h). }
  split; [by rewrite push_front_length_head|]. split; [|split].
  - intros g Hg. destruct (decide (g = h)) as [->|Hne].
    + split; [|apply NoDup_cons; split; [by apply HjL | done]].
      eapply chain_pushed; [exact Hc | done | by apply HjL | | | | | |].
      * rewrite next_push_front by done. by rewrite decide_True.
      * rewrite next_push_front by done. rewrite decide_False by done.
        by rewrite decide_True.
      * rewrite prev_push_front by done. rewrite decide_False by done.
        by rewrite decide_True.
      * rewrite prev_push_front by done. by rewrite decide_True.
      * intros x Hx. rewrite next_push_front by done.
        rewrite decide_False by done. rewrite decide_False; [done|].
        intros [= ->]. by apply (HjL h).
      * intros q Hq1 Hq2. rewrite prev_push_front by done.
        by rewrite !decide_False.
    + destruct (Hch g Hg) as [Hcg Hndg]. split; [|done].
      eapply chain_frame; [exact Hcg | | |].
      * rewrite next_push_front by done. rewrite decide_False by congruence.
        by rewrite decide_False.
      * intros x Hx. rewrite next_push_front, prev_push_front by done.
        assert (x <> j) by (intros ->; by apply (HjL g)).
        split.
        -- rewrite decide_False by done. rewrite decide_False by congruence. done.
        -- rewrite decide_False; [by rewrite decide_False by congruence|].
           rewrite HF. destruct (first_ptr_cases (L h) (Hd h)) as [->|(y & Hy & ->)]; [done|].
           intros [= ->]. apply Hne. by eapply shape_disjoint.
      * rewrite prev_push_front by done.
        rewrite decide_False; [by rewrite decide_False|].
        rewrite HF. destruct (first_ptr_cases (L h) (Hd h)) as [->|(y & Hy & ->)];
          congruence.
  - intros g x Hg Hx. destruct (decide (g = h)) as [->|Hne].
    + apply elem_of_cons in Hx as [->|Hx].
      * split; [by right|]. by rewrite decide_True.
      * destruct (Hin h x Hh Hx) as [? ?]. split; [by left|].
        rewrite decide_False; [done|]. intros ->. by apply (HjL h).
    + destruct (Hin g x Hg Hx) as [? ?]. split; [by left|].
      rewrite decide_False; [done|]. intros ->. by apply (HjL g).
  - intros x Hx. rewrite push_front_length_buf.
    destruct (decide (x = j)) as [->|Hne].
    + split; [done|]. split; [done|]. rewrite decide_True by done. by left.
    + destruct Hx as [Hx|Hx]; [|done]. destruct (Hs x Hx) as (? & ? & ?).
      split; [done|]. split; [done|].
      destruct (decide (loc x = h)) as [E|E]; [|done]. by right.
Qed.

(** Moving a slot to the front of another bucket, as [bget] does when it
    takes a slot from a donor bucket. *)
Lemma shape_move S c L loc h j :
  shape S c L loc -> S j -> (h < NBUCKET)%nat -> loc j <> h ->
  shape S (push_front h (Bf j) (unlink (Bf j) c))
        (fun g => if decide (g = h) then j :: L h
                  else if decide (g = loc j) then filter (fun x => x ≠ j) (L g)
                  else L g)
        (fun x => if decide (x = j) then h else loc x).
Proof.
  intros Hsh Hj Hh Hne.
  pose proof (shape_unlink _ _ _ _ _ Hsh Hj) as H1.
  assert (Hfresh : ~ (S j /\ j <> j)) by (intros [_ ?]; done).
  assert (Hjr : (j < length (bcache_buf (unlink (Bf j) c)))%nat).
  { rewrite unlink_length_buf. destruct Hsh as (_ & _ & _ & Hs). by apply Hs. }
  pose proof (shape_push _ _ _ _ h j H1 Hfresh Hjr Hh) as H2.
  eapply shape_ext; [| | |exact H2].
  - intros x. simpl. destruct (decide (x = j)) as [->|?]; intuition.
  - intros g Hg. simpl. destruct (decide (g = h)) as [->|?]; [|done].
    by rewrite decide_False.
  - done.
Qed.
(** ** Spinlocks *)

Lemma spin_set_spin_eq c l v : lock_in_range c l -> spin (set_spin l v c) l = v.
Proof.
  destruct l as [|i]; unfold spin, set_spin; simpl; [done|]. intros Hr.
  by rewrite list_lookup_insert_eq.
Qed.

Lemma spin_set_spin_ne c l l' v : l <> l' -> spin (set_spin l v c) l' = spin c l'.
Proof.
  destruct l as [|i], l' as [|i']; unfold spin, set_spin; simpl; try done.
  intros Hne. rewrite list_lookup_insert_ne; [done|congruence].
Qed.

Lemma set_spin_set_spin c l v v' : set_spin l v (set_spin l v' c) = set_spin l v c.
Proof.
  destruct l as [|i]; unfold set_spin; simpl; [done|]. by rewrite list_insert_insert_eq.
Qed.

Lemma set_spin_id c l : lock_in_range c l -> set_spin l (spin c l) c = c.
Proof.
  destruct c as [lk bf ms hd]. destruct l as [|i]; [done|].
  intros Hr. simpl in Hr. destruct (lookup_lt_is_Some_2 lk i Hr) as [x Hx].
  unfold spin, set_spin. cbn [bcache_lock bcache_buf bcache_master bcache_head].
  rewrite Hx. simpl. by rewrite list_insert_id.
Qed.

Lemma set_spin_comm c l l' v v' :
  l <> l' -> set_spin l v (set_spin l' v' c) = set_spin l' v' (set_spin l v c).
Proof.
  destruct l as [|i], l' as [|i']; unfold set_spin; simpl; try done.
  intros Hne. rewrite list_insert_insert_ne; [done|congruence].
Qed.

Lemma set_spin_assign c l v p f : set_spin l v (assign p f c) = assign p f (set_spin l v c).
Proof. by destruct l, p. Qed.

Lemma set_spin_unlink c l v b : set_spin l v (unlink b c) = unlink b (set_spin l v c).
Proof.
  rewrite !unlink_eq. rewrite !set_spin_assign. by rewrite !deref_set_spin.
Qed.

Lemma set_spin_push_front c l v h b :
  set_spin l v (push_front h b c) = push_front h b (set_spin l v c).
Proof.
  destruct b as [i|j].
  - unfold push_front. cbv zeta. rewrite !set_spin_assign.
    rewrite <- !set_spin_assign. by rewrite !deref_set_spin.
  - rewrite !push_front_eq. rewrite !set_spin_assign. by rewrite !deref_set_spin.
Qed.
(** ** The two loops of [bget] *)

Lemma on_cache_id (f : bcache -> bcache) w : f (cache w) = cache w -> on_cache f w = w.
Proof. destruct w as [c d]. unfold on_cache. simpl. by intros ->. Qed.

Lemma assign_assign c p f g : assign p f (assign p g c) = assign p (f ∘ g) c.
Proof.
  destruct p; unfold assign; simpl; f_equal; by rewrite list_alter_alter_eq.
Qed.

(** The first loop follows the list of the bucket and stops at the first slot
    with the key. *)
Lemma run_bget_cached fuel dev0 blockno0 h from l miss pid w :
  chain (cache w) from l (Hd h) -> (length l <= fuel)%nat ->
  run (bget_cached fuel dev0 blockno0 h (deref (cache w) from).(next) miss) pid w =
  match find (has_key (cache w) dev0 blockno0) l with
  | Some j =>
    run (Acquiresleep (Bf j) (Ret (Bf j))) pid
        (on_cache (fun c => set_spin (Bucket h) None (assign (Bf j) (refcnt_add 1) c)) w)
  | None => run miss pid w
  end.
Proof.
  revert from fuel. induction l as [|j l IH]; simpl; intros from fuel Hc Hlen.
  - destruct Hc as [-> _]. destruct fuel; simpl; by rewrite Nat.eqb_refl.
  - destruct Hc as (-> & _ & Hc). destruct fuel as [|fuel]; [lia|]. simpl.
    unfold has_key at 1.
    destruct ((dev (deref (cache w) (Bf j)) =? dev0) &&
              (blockno (deref (cache w) (Bf j)) =? blockno0)) eqn:E; simpl.
    + done.
    + apply IH; [done|lia].
Qed.

Lemma releases_bget_cached R fuel dev0 blockno0 h from l miss pid w :
  chain (cache w) from l (Hd h) -> (length l <= fuel)%nat ->
  match find (has_key (cache w) dev0 blockno0) l with
  | Some j => R (Bucket h) (assign (Bf j) (refcnt_add 1) (cache w))
  | None => releases R (trace miss pid w)
  end ->
  releases R (trace (bget_cached fuel dev0 blockno0 h (deref (cache w) from).(next) miss)
                    pid w).
Proof.
  revert from fuel. induction l as [|j l IH]; simpl; intros from fuel Hc Hlen HR.
  - destruct Hc as [-> _]. destruct fuel; simpl; by rewrite Nat.eqb_refl.
  - destruct Hc as (-> & _ & Hc). destruct fuel as [|fuel]; [lia|]. simpl.
    apply Forall_cons. split; [done|].
    unfold has_key at 1 in HR.
    destruct ((dev (deref (cache w) (Bf j)) =? dev0) &&
              (blockno (deref (cache w) (Bf j)) =? blockno0)) eqn:E; simpl.
    + apply Forall_cons. split; [done|]. apply Forall_cons. split; [done|].
      destruct (sleep_free _ _); repeat constructor.
    + apply IH; [done|lia|done].
Qed.
Lemma HASH_lt x : (HASH x < NBUCKET)%nat.
Proof.
  unfold HASH, NBUCKET.
  pose proof (Z.mod_pos_bound (x mod 2 ^ 32) (Z.of_nat 13) ltac:(lia)). lia.
Qed.

Lemma on_cache_on_cache f g w : on_cache f (on_cache g w) = on_cache (fun c => f (g c)) w.
Proof. done. Qed.

Lemma claimed_eq dev0 blockno0 b c :
  claimed dev0 blockno0 b c = assign b (claim dev0 blockno0) c.
Proof. unfold claimed. by rewrite !assign_assign. Qed.

(** ** Running a command action by action *)

Section RunSteps.
Context {B : Type} (pid : nat).

Lemma run_get b (kb : buf -> prog B) w :
  run (mbind kb (get b)) pid w = run (kb (deref (cache w) b)) pid w.
Proof. done. Qed.

Lemma run_set b f (ku : unit -> prog B) w :
  run (mbind ku (set b f)) pid w = run (ku tt) pid (on_cache (assign b f) w).
Proof. done. Qed.

Lemma run_release l (ku : unit -> prog B) w :
  run (mbind ku (release l)) pid w = run (ku tt) pid (on_cache (set_spin l None) w).
Proof. done. Qed.

Lemma run_acquire l (ku : unit -> prog B) w :
  spin (cache w) l = None ->
  run (mbind ku (acquire l)) pid w = run (ku tt) pid (on_cache (set_spin l (Some pid)) w).
Proof. intros H. simpl. unfold spin_free. by rewrite H. Qed.

Lemma run_acquiresleep b (ku : unit -> prog B) w :
  run (mbind ku (acquiresleep b)) pid w = run (Acquiresleep b (ku tt)) pid w.
Proof. done. Qed.

Lemma trace_get b (kb : buf -> prog B) w :
  trace (mbind kb (get b)) pid w = (EvDeref b, w) :: trace (kb (deref (cache w) b)) pid w.
Proof. done. Qed.

Lemma trace_set b f (ku : unit -> prog B) w :
  trace (mbind ku (set b f)) pid w =
  (EvAssign b, w) :: trace (ku tt) pid (on_cache (assign b f) w).
Proof. done. Qed.

Lemma trace_release l (ku : unit -> prog B) w :
  trace (mbind ku (release l)) pid w =
  (EvRelease l, w) :: trace (ku tt) pid (on_cache (set_spin l None) w).
Proof. done. Qed.

Lemma trace_acquire l (ku : unit -> prog B) w :
  spin (cache w) l = None ->
  trace (mbind ku (acquire l)) pid w =
  (EvAcquire l, w) :: trace (ku tt) pid (on_cache (set_spin l (Some pid)) w).
Proof. intros H. simpl. unfold spin_free. by rewrite H. Qed.

Lemma trace_acquiresleep b (ku : unit -> prog B) w :
  trace (mbind ku (acquiresleep b)) pid w = trace (Acquiresleep b (ku tt)) pid w.
Proof. done. Qed.

End RunSteps.

(** The three pieces of the code of [bget] that change a slot. *)
Lemma run_claim_code {B : Type} dev0 blockno0 b (k : prog B) pid w :
  run (set b (with_dev dev0);; set b (with_blockno blockno0);;
       set b (with_valid false);; set b (with_refcnt 1);; k) pid w =
  run k pid (on_cache (claimed dev0 blockno0 b) w).
Proof. done. Qed.

Lemma run_unlink_code {B : Type} b (k : prog B) pid w :
  run (bb ← get b; set bb.(prev) (with_next bb.(next));;
       bb ← get b; set bb.(next) (with_prev bb.(prev));; k) pid w =
  run k pid (on_cache (unlink b) w).
Proof. done. Qed.

Lemma run_push_front_code {B : Type} h b (k : prog B) pid w :
  run (head_h ← get (Hd h); set b (with_next head_h.(next));;
       set b (with_prev (Hd h));;
       head_h ← get (Hd h); set head_h.(next) (with_prev b);;
       set (Hd h) (with_next b);; k) pid w =
  run k pid (on_cache (push_front h b) w).
Proof. done. Qed.

(** The second loop takes the first slot of the pool that nobody holds: in
    place when it is in the home bucket, and moved to the front of the home
    bucket otherwise.  The locks of the donor buckets it looks into are free. *)
Lemma run_bget_scan n dev0 blockno0 h j pid w :
  (forall g, g <> h -> spin (cache w) (Bucket g) = None) ->
  length (bcache_lock (cache w)) = NBUCKET ->
  run (bget_scan n dev0 blockno0 h j) pid w =
  match find (is_unused (cache w)) (seq j n) with
  | None =>
    Panicked "bget: no buffers"
             (on_cache (set_spin (Bucket h) None) (on_cache (set_spin Master None) w))
  | Some i =>
    if Nat.eqb (home (cache w) i) h then
      run (Acquiresleep (Bf i) (Ret (Bf i))) pid
          (on_cache (set_spin (Bucket h) None)
             (on_cache (set_spin Master None)
                (on_cache (claimed dev0 blockno0 (Bf i)) w)))
    else
      run (Acquiresleep (Bf i) (Ret (Bf i))) pid
          (on_cache (set_spin Master None)
             (on_cache (set_spin (Bucket h) None)
                (on_cache (set_spin (Bucket (home (cache w) i)) None)
                   (on_cache (push_front h (Bf i))
                      (on_cache (unlink (Bf i))
                         (on_cache (claimed dev0 blockno0 (Bf i))
                            (on_cache (set_spin (Bucket (home (cache w) i)) (Some pid))
                               w)))))))
  end.
Proof.
  intros Hfree Hlen. revert j. induction n as [|n IH]; intros j; [done|].
  cbn [seq find]. unfold is_unused at 1. cbn [bget_scan].
  rewrite run_get. cbv beta zeta. fold (home (cache w) j).
  destruct (Nat.eqb_spec (home (cache w) j) h) as [Eh|Eh].
  - destruct (refcnt (deref (cache w) (Bf j)) =? 0) eqn:Er; [|apply IH].
    rewrite run_claim_code. rewrite (proj2 (Nat.eqb_eq _ _) Eh).
    rewrite !run_release, run_acquiresleep. reflexivity.
  - assert (Hg : spin (cache w) (Bucket (home (cache w) j)) = None) by by apply Hfree.
    assert (Hgr : lock_in_range (cache w) (Bucket (home (cache w) j))).
    { simpl. rewrite Hlen. apply HASH_lt. }
    rewrite run_acquire by done. rewrite run_get. cbv beta.
    change (cache (on_cache ?f w)) with (f (cache w)). rewrite deref_set_spin.
    destruct (refcnt (deref (cache w) (Bf j)) =? 0) eqn:Er.
    + rewrite run_claim_code, run_unlink_code, run_push_front_code.
      rewrite (proj2 (Nat.eqb_neq _ _) Eh).
      rewrite !run_release, run_acquiresleep. reflexivity.
    + rewrite run_release. rewrite on_cache_on_cache, on_cache_id; [apply IH|].
      rewrite set_spin_set_spin. rewrite <- Hg. by apply set_spin_id.
Qed.
(** ** Caches that differ in their spinlocks only *)

Lemma same_mem_refl c : same_mem c c.
Proof. done. Qed.

Lemma same_mem_sym c c' : same_mem c c' -> same_mem c' c.
Proof. intros [? ?]. split; done. Qed.

Lemma same_mem_trans c1 c2 c3 : same_mem c1 c2 -> same_mem c2 c3 -> same_mem c1 c3.
Proof. intros [? ?] [? ?]. split; congruence. Qed.

Lemma same_mem_set_spin l v c : same_mem (set_spin l v c) c.
Proof. by destruct l. Qed.

Lemma same_mem_deref c c' p : same_mem c c' -> deref c p = deref c' p.
Proof. intros [Hb Hh]. destruct p; unfold deref; by rewrite ?Hb, ?Hh. Qed.

Lemma same_mem_assign c c' p f : same_mem c c' -> same_mem (assign p f c) (assign p f c').
Proof. intros [Hb Hh]. destruct p; unfold assign; split; simpl; congruence. Qed.

Lemma same_mem_claimed c c' d n b :
  same_mem c c' -> same_mem (claimed d n b c) (claimed d n b c').
Proof. intros H. unfold claimed. by do 4 apply same_mem_assign. Qed.

Lemma same_mem_unlink c c' b : same_mem c c' -> same_mem (unlink b c) (unlink b c').
Proof.
  intros H. rewrite !unlink_eq. rewrite (same_mem_deref c c') by done.
  by do 2 apply same_mem_assign.
Qed.

Lemma same_mem_push_front c c' h b :
  same_mem c c' -> same_mem (push_front h b c) (push_front h b c').
Proof.
  intros H. unfold push_front. cbv zeta.
  apply same_mem_assign.
  assert (H2 : same_mem (assign b (with_prev (Hd h)) (assign b (with_next (next (deref c (Hd h)))) c))
     (assign b (with_prev (Hd h)) (assign b (with_next (next (deref c' (Hd h)))) c'))).
  { rewrite (same_mem_deref c c') by done. by do 2 apply same_mem_assign. }
  rewrite (same_mem_deref _ _ (Hd h) H2). by apply same_mem_assign.
Qed.

Lemma same_mem_home c c' j : same_mem c c' -> home c j = home c' j.
Proof. intros H. unfold home. by rewrite (same_mem_deref c c'). Qed.

Lemma same_mem_recycle c c' d n j :
  same_mem c c' -> same_mem (recycle d n j c) (recycle d n j c').
Proof.
  intros H. unfold recycle. cbv zeta. rewrite (same_mem_home c c') by done.
  destruct (decide _).
  - by apply same_mem_claimed.
  - by apply same_mem_push_front, same_mem_unlink, same_mem_claimed.
Qed.

Lemma same_mem_bucket c c' h : same_mem c c' -> bucket c h = bucket c' h.
Proof.
  intros H. unfold bucket. rewrite (same_mem_deref c c') by done.
  destruct H as [Hb Hh]. rewrite Hb.
  apply walk_same_next. intros q. rewrite (same_mem_deref c c'); done.
Qed.
(** ** What holds when a spinlock is released *)

Lemma releases_cons R e w tr :
  releases R ((e, w) :: tr) <-> at_release R (e, w) /\ releases R tr.
Proof. apply Forall_cons. Qed.

Section ReleaseSteps.
Context {B : Type} (R : lockid -> bcache -> Prop) (pid : nat).

Lemma releases_get b (kb : buf -> prog B) w :
  releases R (trace (kb (deref (cache w) b)) pid w) ->
  releases R (trace (mbind kb (get b)) pid w).
Proof. intros H. rewrite trace_get. apply releases_cons. by split. Qed.

Lemma releases_set b f (ku : unit -> prog B) w :
  releases R (trace (ku tt) pid (on_cache (assign b f) w)) ->
  releases R (trace (mbind ku (set b f)) pid w).
Proof. intros H. rewrite trace_set. apply releases_cons. by split. Qed.

Lemma releases_release l (ku : unit -> prog B) w :
  R l (cache w) ->
  releases R (trace (ku tt) pid (on_cache (set_spin l None) w)) ->
  releases R (trace (mbind ku (release l)) pid w).
Proof. intros H1 H2. rewrite trace_release. apply releases_cons. by split. Qed.

Lemma releases_acquire l (ku : unit -> prog B) w :
  releases R (trace (ku tt) pid (on_cache (set_spin l (Some pid)) w)) ->
  releases R (trace (mbind ku (acquire l)) pid w).
Proof.
  intros H. change (trace (mbind ku (acquire l)) pid w) with
    (if spin_free w l
     then (EvAcquire l, w) :: trace (ku tt) pid (on_cache (set_spin l (Some pid)) w)
     else []).
  destruct (spin_free w l); [|constructor]. apply releases_cons. by split.
Qed.

Lemma releases_acquiresleep_ret b (ku : unit -> prog B) r w :
  ku tt = Ret r ->
  releases R (trace (mbind ku (acquiresleep b)) pid w).
Proof.
  intros E. rewrite trace_acquiresleep, E. simpl.
  destruct (sleep_free w b); repeat constructor.
Qed.

Lemma releases_claim_code dev0 blockno0 b (k : prog B) w :
  releases R (trace k pid (on_cache (claimed dev0 blockno0 b) w)) ->
  releases R (trace (set b (with_dev dev0);; set b (with_blockno blockno0);;
                     set b (with_valid false);; set b (with_refcnt 1);; k) pid w).
Proof. intros H. do 4 apply releases_set. exact H. Qed.

Lemma releases_unlink_code b (k : prog B) w :
  releases R (trace k pid (on_cache (unlink b) w)) ->
  releases R (trace (bb ← get b; set bb.(prev) (with_next bb.(next));;
                     bb ← get b; set bb.(next) (with_prev bb.(prev));; k) pid w).
Proof.
  intros H. apply releases_get, releases_set, releases_get, releases_set. exact H.
Qed.

Lemma releases_push_front_code h b (k : prog B) w :
  releases R (trace k pid (on_cache (push_front h b) w)) ->
  releases R (trace (head_h ← get (Hd h); set b (with_next head_h.(next));;
                     set b (with_prev (Hd h));;
                     head_h ← get (Hd h); set head_h.(next) (with_prev b);;
                     set (Hd h) (with_next b);; k) pid w).
Proof.
  intros H. apply releases_get, releases_set, releases_set, releases_get, releases_set,
    releases_set. exact H.
Qed.

End ReleaseSteps.

(** In the second loop a donor lock is released with the memory as it was,
    when the slot looked at is in use, and every lock released after a slot
    has been taken is released with the slot already in its place. *)
Lemma releases_bget_scan R n dev0 blockno0 j pid w :
  let h := HASH blockno0 in
  (forall g, g <> h -> spin (cache w) (Bucket g) = None) ->
  length (bcache_lock (cache w)) = NBUCKET ->
  (forall l c c', same_mem c c' -> R l c -> R l c') ->
  (forall g, g <> h -> R (Bucket g) (cache w)) ->
  match find (is_unused (cache w)) (seq j n) with
  | None => R Master (cache w) /\ R (Bucket h) (cache w)
  | Some i => forall l, R l (recycle dev0 blockno0 i (cache w))
  end ->
  releases R (trace (bget_scan n dev0 blockno0 h j) pid w).
Proof.
  intros h Hfree Hlen Hresp Hdonor. revert j. induction n as [|n IH]; intros j.
  - cbn [seq find bget_scan]. intros [H1 H2]. apply releases_release; [done|].
    apply releases_release; [|constructor].
    eapply Hresp; [|exact H2]. apply same_mem_sym, same_mem_set_spin.
  - cbn [seq find]. unfold is_unused at 1. cbn [bget_scan].
    intros HR. apply releases_get. cbv beta zeta. fold (home (cache w) j).
    destruct (Nat.eqb_spec (home (cache w) j) h) as [Eh|Eh].
    + destruct (refcnt (deref (cache w) (Bf j)) =? 0) eqn:Er; [|by apply IH].
      assert (HR' : forall l, R l (claimed dev0 blockno0 (Bf j) (cache w))).
      { intros l. specialize (HR l). unfold recycle in HR.
        by rewrite decide_True in HR. }
      apply releases_claim_code, releases_release; [apply HR'|].
      apply releases_release; [|by eapply releases_acquiresleep_ret].
      eapply Hresp; [|apply HR']. apply same_mem_sym, same_mem_set_spin.
    + apply releases_acquire, releases_get. cbv beta.
      change (cache (on_cache ?f w)) with (f (cache w)). rewrite deref_set_spin.
      destruct (refcnt (deref (cache w) (Bf j)) =? 0) eqn:Er.
      * assert (HR' : forall l, R l (push_front h (Bf j) (unlink (Bf j)
                                      (claimed dev0 blockno0 (Bf j) (cache w))))).
        { intros l. specialize (HR l). unfold recycle in HR.
          by rewrite decide_False in HR. }
        set (g := home (cache w) j) in *.
        assert (Hsm : same_mem
                        (push_front h (Bf j) (unlink (Bf j)
                           (claimed dev0 blockno0 (Bf j) (cache w))))
                        (push_front h (Bf j) (unlink (Bf j)
                           (claimed dev0 blockno0 (Bf j)
                              (set_spin (Bucket g) (Some pid) (cache w)))))).
        { apply same_mem_push_front, same_mem_unlink, same_mem_claimed.
          apply same_mem_sym, same_mem_set_spin. }
        apply releases_claim_code, releases_unlink_code, releases_push_front_code.
        apply releases_release; [eapply Hresp; [exact Hsm|apply HR']|].
        apply releases_release.
        { eapply Hresp; [|apply HR']. eapply same_mem_trans; [exact Hsm|].
          apply same_mem_sym, same_mem_set_spin. }
        apply releases_release; [|by eapply releases_acquiresleep_ret].
        eapply Hresp; [|apply HR']. eapply same_mem_trans; [exact Hsm|].
        eapply same_mem_trans; apply same_mem_sym, same_mem_set_spin.
      * apply releases_release.
        { eapply Hresp; [|by apply Hdonor]. apply same_mem_sym, same_mem_set_spin. }
        rewrite on_cache_on_cache, on_cache_id; [by apply IH|].
        assert (Hg : spin (cache w) (Bucket (home (cache w) j)) = None) by by apply Hfree.
        rewrite set_spin_set_spin. rewrite <- Hg. apply set_spin_id.
        simpl. rewrite Hlen. apply HASH_lt.
Qed.
(** ** Quiet caches *)

Lemma quiet_spin c l : quiet c -> spin c l = None.
Proof.
  intros [Hm Hl]. destruct l as [|i]; unfold spin; [done|]. rewrite Hl.
  destruct (decide (i < NBUCKET)%nat) as [Hi|Hi].
  - by rewrite lookup_replicate_2.
  - rewrite lookup_ge_None_2; [done|]. rewrite length_replicate. lia.
Qed.

Lemma quiet_length c : quiet c -> length (bcache_lock c) = NBUCKET.
Proof. intros [_ ->]. apply length_replicate. Qed.

Lemma quiet_intro c :
  length (bcache_lock c) = NBUCKET -> (forall l, spin c l = None) -> quiet c.
Proof.
  intros Hlen Hs. split; [apply (Hs Master)|].
  apply list_eq. intros i. destruct (decide (i < NBUCKET)%nat) as [Hi|Hi].
  - rewrite lookup_replicate_2 by done. specialize (Hs (Bucket i)). unfold spin in Hs.
    destruct (lookup_lt_is_Some_2 (bcache_lock c) i) as [x Hx]; [lia|].
    rewrite Hx in Hs |- *. simpl in Hs. by subst.
  - rewrite !lookup_ge_None_2; [done| |]; rewrite ?length_replicate; lia.
Qed.

Lemma quiet_same_mem_eq c c' : quiet c -> quiet c' -> same_mem c c' -> c = c'.
Proof.
  destruct c, c'. intros [H1 H2] [H3 H4] [H5 H6]. simpl in *. congruence.
Qed.

Lemma spin_same_locks c c' l :
  bcache_lock c = bcache_lock c' -> bcache_master c = bcache_master c' ->
  spin c l = spin c' l.
Proof. intros H1 H2. destruct l; unfold spin; congruence. Qed.

Lemma claimed_lock d n b c : bcache_lock (claimed d n b c) = bcache_lock c.
Proof. unfold claimed. by rewrite !assign_lock. Qed.

Lemma claimed_master d n b c : bcache_master (claimed d n b c) = bcache_master c.
Proof. unfold claimed. by rewrite !assign_master. Qed.

Lemma recycle_lock d n j c : bcache_lock (recycle d n j c) = bcache_lock c.
Proof.
  unfold recycle. cbv zeta. destruct (decide _);
    by rewrite ?push_front_lock, ?unlink_lock, claimed_lock.
Qed.

Lemma recycle_master d n j c : bcache_master (recycle d n j c) = bcache_master c.
Proof.
  unfold recycle. cbv zeta. destruct (decide _);
    by rewrite ?push_front_master, ?unlink_master, claimed_master.
Qed.

Lemma set_spin_lock_length l v c :
  length (bcache_lock (set_spin l v c)) = length (bcache_lock c).
Proof. destruct l; unfold set_spin; simpl; [done|]. by rewrite length_insert. Qed.

Lemma quiet_assign c p f : quiet c -> quiet (assign p f c).
Proof. intros [? ?]. split; by rewrite ?assign_master, ?assign_lock. Qed.

Lemma quiet_recycle c d n j : quiet c -> quiet (recycle d n j c).
Proof. intros [? ?]. split; by rewrite ?recycle_master, ?recycle_lock. Qed.

(** The spinlocks a call took and gave back leave a quiet cache quiet. *)
Lemma spin_cases c l l' v :
  lock_in_range c l ->
  spin (set_spin l v c) l' = if decide (l = l') then v else spin c l'.
Proof.
  intros Hr. destruct (decide (l = l')) as [<-|Hne].
  - by apply spin_set_spin_eq.
  - by apply spin_set_spin_ne.
Qed.
(** ** Well-formed caches *)

Lemma links_ok_shape NBUF c :
  links_ok NBUF c -> shape (fun j => (j < NBUF)%nat) c (bucket c) (home c).
Proof.
  intros (Hb & Hh & Hch & Hin & Hall). split; [done|]. split; [done|]. split.
  - intros h j Hlt Hj. by apply Hin.
  - intros j Hj. rewrite Hb. split; [done|]. split; [apply HASH_lt|]. by apply Hall.
Qed.

Lemma shape_links_ok NBUF c L :
  length (bcache_buf c) = NBUF ->
  shape (fun j => (j < NBUF)%nat) c L (home c) -> links_ok NBUF c.
Proof.
  intros Hb Hsh. pose proof Hsh as (Hh & Hch & Hin & Hall).
  split; [done|]. split; [done|]. split; [|split].
  - intros h Hlt. rewrite (shape_bucket _ _ _ _ _ Hsh Hlt). by apply Hch.
  - intros h j Hlt. rewrite (shape_bucket _ _ _ _ _ Hsh Hlt). by apply Hin.
  - intros j Hj. destruct (Hall j Hj) as (_ & Hlt & HjL). fold (home c j).
    by rewrite (shape_bucket _ _ _ _ _ Hsh Hlt).
Qed.

Lemma links_ok_same_mem NBUF c c' : same_mem c c' -> links_ok NBUF c -> links_ok NBUF c'.
Proof.
  intros Hsm (Hb & Hh & Hch & Hin & Hall). pose proof Hsm as [Eb Eh].
  assert (Hd : forall p, deref c' p = deref c p).
  { intros p. symmetry. by apply same_mem_deref. }
  assert (Hbk : forall h, bucket c' h = bucket c h).
  { intros h. symmetry. by apply same_mem_bucket. }
  unfold links_ok. rewrite <- Eb, <- Eh.
  split; [done|]. split; [done|]. split; [|split].
  - intros h Hlt. rewrite Hbk. destruct (Hch h Hlt) as [Hc Hnd]. split; [|done].
    eapply chain_same_links; [| |exact Hc]; intros p; by rewrite Hd.
  - intros h j Hlt. rewrite Hbk, Hd. by apply Hin.
  - intros j Hj. rewrite Hbk, Hd. by apply Hall.
Qed.

(** The cache after a hit, and after a miss that takes slot [j]. *)
Lemma links_ok_keep NBUF c p f :
  (forall b, next (f b) = next b) -> (forall b, prev (f b) = prev b) ->
  (forall b, blockno (f b) = blockno b) ->
  links_ok NBUF c -> links_ok NBUF (assign p f c).
Proof.
  intros Hn Hp Hk Hok. pose proof Hok as (Hb & _).
  apply links_ok_shape in Hok.
  apply (shape_links_ok _ _ (bucket c)); [by rewrite assign_length_buf|].
  apply (shape_ext (fun j => (j < NBUF)%nat) _ _ (bucket c) _ (home c)).
  - done.
  - done.
  - intros j _. unfold home. by rewrite (deref_assign_keep _ blockno).
  - eapply shape_same_links; [| | | |exact Hok].
    + apply assign_length_buf.
    + apply assign_length_head.
    + intros q. by apply (deref_assign_keep _ next).
    + intros q. by apply (deref_assign_keep _ prev).
Qed.
(** ** The cache after a miss *)

Lemma recycle_keep {X : Type} (g : buf -> X) d n j c q :
  (forall v x, g (with_next v x) = g x) -> (forall v x, g (with_prev v x) = g x) ->
  g (deref (recycle d n j c) q) = g (deref (assign (Bf j) (claim d n) c) q).
Proof.
  intros H1 H2. unfold recycle. cbv zeta. destruct (decide _).
  - by rewrite claimed_eq.
  - rewrite push_front_keep, unlink_keep by done. by rewrite claimed_eq.
Qed.

Lemma recycle_length_buf d n j c :
  length (bcache_buf (recycle d n j c)) = length (bcache_buf c).
Proof.
  unfold recycle. cbv zeta. destruct (decide _);
    rewrite ?push_front_length_buf, ?unlink_length_buf, claimed_eq;
    apply assign_length_buf.
Qed.

Lemma home_recycle d n j c x :
  in_range c (Bf j) ->
  home (recycle d n j c) x = if decide (x = j) then HASH n else home c x.
Proof.
  intros Hr. unfold home. rewrite (recycle_keep blockno) by done.
  destruct (decide (x = j)) as [->|Hne].
  - by rewrite deref_assign_eq.
  - rewrite deref_assign_ne; [done|congruence].
Qed.

Lemma recycle_shape NBUF c d n j :
  links_ok NBUF c -> (j < NBUF)%nat ->
  shape (fun x => (x < NBUF)%nat) (recycle d n j c) (recycled_bucket c n j)
        (home (recycle d n j c)).
Proof.
  intros Hok Hj. pose proof Hok as (Hb & _). apply links_ok_shape in Hok.
  assert (Hr : in_range c (Bf j)) by (simpl; lia).
  assert (H1 : shape (fun x => (x < NBUF)%nat) (claimed d n (Bf j) c) (bucket c) (home c)).
  { rewrite claimed_eq. eapply shape_same_links; [| | | |exact Hok].
    - apply assign_length_buf.
    - apply assign_length_head.
    - intros q. by apply (deref_assign_keep _ next).
    - intros q. by apply (deref_assign_keep _ prev). }
  unfold recycled_bucket.
  destruct (decide (home c j = HASH n)) as [E|E].
  - apply (shape_ext (fun x => (x < NBUF)%nat) _ _ (bucket c) _ (home c)); [done|done| |].
    + intros x _. rewrite home_recycle by done.
      destruct (decide (x = j)) as [->|?]; done.
    + unfold recycle. cbv zeta. by rewrite decide_True.
  - apply (shape_move _ _ _ _ (HASH n) j) in H1; [|done|apply HASH_lt|done].
    eapply shape_ext; [| | |].
    4:{ unfold recycle. cbv zeta. rewrite decide_False by done. exact H1. }
    + done.
    + intros g Hg. simpl. destruct (decide (g = HASH n)) as [->|?]; done.
    + intros x _. simpl. by rewrite home_recycle.
Qed.

Lemma recycle_links_ok NBUF c d n j :
  links_ok NBUF c -> (j < NBUF)%nat -> links_ok NBUF (recycle d n j c).
Proof.
  intros Hok Hj. eapply shape_links_ok; [|by apply recycle_shape].
  rewrite recycle_length_buf. by destruct Hok.
Qed.

Lemma bucket_recycle NBUF c d n j g :
  links_ok NBUF c -> (j < NBUF)%nat -> (g < NBUCKET)%nat ->
  bucket (recycle d n j c) g = recycled_bucket c n j g.
Proof.
  intros Hok Hj Hg. eapply shape_bucket; [|done]. by apply recycle_shape.
Qed.
(** ** The spinlocks after a call *)

Lemma bcache_lock_set_spin_bucket i v c :
  bcache_lock (set_spin (Bucket i) v c) = <[i := v]> (bcache_lock c).
Proof. done. Qed.

Lemma bcache_lock_set_spin_master v c : bcache_lock (set_spin Master v c) = bcache_lock c.
Proof. done. Qed.

Lemma bcache_master_set_spin_bucket i v c :
  bcache_master (set_spin (Bucket i) v c) = bcache_master c.
Proof. done. Qed.

Lemma bcache_master_set_spin_master v c : bcache_master (set_spin Master v c) = v.
Proof. done. Qed.

Create Rewrite HintDb locks.

#[export] Hint Rewrite bcache_lock_set_spin_bucket bcache_lock_set_spin_master
  bcache_master_set_spin_bucket bcache_master_set_spin_master
  assign_lock assign_master unlink_lock unlink_master push_front_lock push_front_master
  claimed_lock claimed_master : locks.

Lemma insert_replicate_same {X : Type} (x : X) n i : <[i := x]> (replicate n x) = replicate n x.
Proof.
  apply list_eq. intros k. destruct (decide (i = k)) as [->|Hne].
  - destruct (decide (k < n)%nat).
    + rewrite list_lookup_insert_eq by (by rewrite length_replicate).
      by rewrite lookup_replicate_2.
    + rewrite !lookup_ge_None_2; [done| |]; rewrite ?length_insert, length_replicate; lia.
  - by rewrite list_lookup_insert_ne.
Qed.

(** A hit: the home lock taken and released. *)
Lemma unlocked_hit c h pid p f :
  quiet c ->
  set_spin (Bucket h) None (assign p f (set_spin (Bucket h) (Some pid) c)) = assign p f c.
Proof.
  intros Hq. apply quiet_same_mem_eq.
  - destruct Hq as [Hm Hl]. split; autorewrite with locks; [done|].
    rewrite Hl, list_insert_insert_eq. apply insert_replicate_same.
  - by apply quiet_assign.
  - eapply same_mem_trans; [apply same_mem_set_spin|].
    apply same_mem_assign, same_mem_set_spin.
Qed.

(** A miss with no free slot. *)
Lemma unlocked_exhausted c h pid :
  quiet c ->
  set_spin (Bucket h) None
    (set_spin Master None
       (set_spin Master (Some pid) (set_spin (Bucket h) (Some pid) c))) = c.
Proof.
  intros Hq. apply quiet_same_mem_eq; [|done|].
  - destruct Hq as [Hm Hl]. split; autorewrite with locks; [done|].
    rewrite Hl, list_insert_insert_eq. apply insert_replicate_same.
  - do 4 (eapply same_mem_trans; [apply same_mem_set_spin|]). done.
Qed.

(** A miss that takes a slot of the home bucket. *)
Lemma unlocked_claim c h pid d n b :
  quiet c ->
  set_spin (Bucket h) None
    (set_spin Master None
       (claimed d n b
          (set_spin Master (Some pid) (set_spin (Bucket h) (Some pid) c)))) =
  claimed d n b c.
Proof.
  intros Hq. apply quiet_same_mem_eq.
  - destruct Hq as [Hm Hl]. split; autorewrite with locks; [done|].
    rewrite Hl, list_insert_insert_eq. apply insert_replicate_same.
  - destruct Hq as [Hm Hl]. split; by autorewrite with locks.
  - do 2 (eapply same_mem_trans; [apply same_mem_set_spin|]).
    apply same_mem_claimed.
    do 2 (eapply same_mem_trans; [apply same_mem_set_spin|]). done.
Qed.

(** A miss that takes a slot of a donor bucket. *)
Lemma unlocked_steal c h g pid d n b :
  quiet c -> g <> h ->
  set_spin Master None
    (set_spin (Bucket h) None
       (set_spin (Bucket g) None
          (push_front h b
             (unlink b
                (claimed d n b
                   (set_spin (Bucket g) (Some pid)
                      (set_spin Master (Some pid)
                         (set_spin (Bucket h) (Some pid) c)))))))) =
  push_front h b (unlink b (claimed d n b c)).
Proof.
  intros Hq Hne. apply quiet_same_mem_eq.
  - destruct Hq as [Hm Hl]. split; autorewrite with locks; [done|].
    rewrite Hl, list_insert_insert_eq.
    rewrite (list_insert_insert_ne _ g h) by done.
    rewrite list_insert_insert_eq. by rewrite !insert_replicate_same.
  - destruct Hq as [Hm Hl]. split; by autorewrite with locks.
  - do 3 (eapply same_mem_trans; [apply same_mem_set_spin|]).
    apply same_mem_push_front, same_mem_unlink, same_mem_claimed.
    do 3 (eapply same_mem_trans; [apply same_mem_set_spin|]). done.
Qed.
(** ** [bget] on a well-formed, quiet cache *)

Lemma find_ext {X : Type} (f g : X -> bool) l :
  (forall x, f x = g x) -> find f l = find g l.
Proof. intros H. induction l as [|x l IH]; simpl; [done|]. by rewrite H, IH. Qed.

Lemma on_cache_ext f g w : f (cache w) = g (cache w) -> on_cache f w = on_cache g w.
Proof. unfold on_cache. by intros ->. Qed.

Lemma has_key_same_mem c c' d n j : same_mem c c' -> has_key c d n j = has_key c' d n j.
Proof. intros H. unfold has_key. by rewrite (same_mem_deref c c'). Qed.

Lemma is_unused_same_mem c c' j : same_mem c c' -> is_unused c j = is_unused c' j.
Proof. intros H. unfold is_unused. by rewrite (same_mem_deref c c'). Qed.

Lemma links_ok_bucket_length NBUF c h :
  links_ok NBUF c -> (h < NBUCKET)%nat -> (length (bucket c h) <= NBUF)%nat.
Proof.
  intros Hok Hh. pose proof Hok as (Hb & _). rewrite <- Hb.
  apply links_ok_shape in Hok. by eapply shape_length.
Qed.

Lemma run_bget NBUF dev0 blockno0 pid w :
  links_ok NBUF (cache w) -> quiet (cache w) ->
  run (bget NBUF dev0 blockno0) pid w =
  match bget_slot (cache w) dev0 blockno0 with
  | Some j =>
    run (Acquiresleep (Bf j) (Ret (Bf j))) pid
        (on_cache (fun _ => bget_cache (cache w) dev0 blockno0) w)
  | None => Panicked "bget: no buffers" w
  end.
Proof.
  intros Hok Hq. unfold bget. cbv zeta. set (h := HASH blockno0).
  assert (Hh : (h < NBUCKET)%nat) by apply HASH_lt.
  rewrite run_acquire by (by apply quiet_spin). rewrite run_get. cbv beta.
  set (w1 := on_cache (set_spin (Bucket h) (Some pid)) w).
  assert (Hsm1 : same_mem (cache w1) (cache w)) by apply same_mem_set_spin.
  rewrite (run_bget_cached NBUF dev0 blockno0 h (Hd h) (bucket (cache w) h)).
  2:{ destruct Hok as (_ & _ & Hch & _). destruct (Hch h Hh) as [Hc _].
      eapply chain_same_links; [| |exact Hc]; intros p;
        by rewrite (same_mem_deref _ _ _ Hsm1). }
  2:{ by eapply links_ok_bucket_length. }
  rewrite (find_ext _ (has_key (cache w) dev0 blockno0))
    by (intros x; by apply has_key_same_mem).
  unfold bget_slot, bget_cache. fold h. unfold cached. fold h.
  destruct (find (has_key (cache w) dev0 blockno0) (bucket (cache w) h)) as [j|] eqn:Ec.
  - f_equal. unfold w1. rewrite on_cache_on_cache. apply on_cache_ext.
    by apply unlocked_hit.
  - rewrite run_acquire by (unfold w1; simpl; by autorewrite with locks; destruct Hq).
    set (w2 := on_cache (set_spin Master (Some pid)) w1).
    assert (Hsm2 : same_mem (cache w2) (cache w)).
    { eapply same_mem_trans; [apply same_mem_set_spin|done]. }
    rewrite run_bget_scan.
    2:{ intros g Hg. unfold w2, w1. simpl.
        rewrite !spin_set_spin_ne by congruence. by apply quiet_spin. }
    2:{ unfold w2, w1. simpl. rewrite ?length_insert. by apply quiet_length. }
    rewrite (find_ext _ (is_unused (cache w))) by (intros x; by apply is_unused_same_mem).
    unfold first_free. destruct Hok as (Hb & _). rewrite Hb.
    destruct (find (is_unused (cache w)) (seq 0 NBUF)) as [i|] eqn:Ef.
    + rewrite (same_mem_home _ _ i Hsm2). unfold recycle. cbv zeta. fold h.
      destruct (Nat.eqb_spec (home (cache w) i) h) as [Eh|Eh].
      * rewrite decide_True by done. f_equal. unfold w2, w1.
        rewrite !on_cache_on_cache. apply on_cache_ext. by apply unlocked_claim.
      * rewrite decide_False by done. f_equal. unfold w2, w1.
        rewrite !on_cache_on_cache. apply on_cache_ext. by apply unlocked_steal.
    + f_equal. unfold w2, w1. rewrite !on_cache_on_cache. apply on_cache_id.
      by apply unlocked_exhausted.
Qed.
(** Every spinlock [bget] releases, it releases with the memory either
    untouched (a donor bucket whose slot was in use) or as the call leaves
    it. *)
Lemma releases_bget R NBUF dev0 blockno0 pid w :
  links_ok NBUF (cache w) -> quiet (cache w) ->
  (forall l c c', same_mem c c' -> R l c -> R l c') ->
  (forall g, g <> HASH blockno0 -> R (Bucket g) (cache w)) ->
  (forall l, R l (bget_cache (cache w) dev0 blockno0)) ->
  releases R (trace (bget NBUF dev0 blockno0) pid w).
Proof.
  intros Hok Hq Hresp Hdonor Hfin. unfold bget. cbv zeta. set (h := HASH blockno0) in *.
  assert (Hh : (h < NBUCKET)%nat) by apply HASH_lt.
  apply releases_acquire, releases_get. cbv beta.
  set (w1 := on_cache (set_spin (Bucket h) (Some pid)) w).
  assert (Hsm1 : same_mem (cache w1) (cache w)) by apply same_mem_set_spin.
  apply (releases_bget_cached R NBUF dev0 blockno0 h (Hd h) (bucket (cache w) h)).
  { destruct Hok as (_ & _ & Hch & _). destruct (Hch h Hh) as [Hc _].
    eapply chain_same_links; [| |exact Hc]; intros p;
      by rewrite (same_mem_deref _ _ _ Hsm1). }
  { by eapply links_ok_bucket_length. }
  rewrite (find_ext _ (has_key (cache w) dev0 blockno0))
    by (intros x; by apply has_key_same_mem).
  unfold bget_cache in Hfin. unfold cached in Hfin. fold h in Hfin.
  destruct (find (has_key (cache w) dev0 blockno0) (bucket (cache w) h)) as [j|] eqn:Ec.
  - eapply Hresp; [|apply (Hfin (Bucket h))].
    apply same_mem_assign, same_mem_sym, same_mem_set_spin.
  - apply releases_acquire.
    set (w2 := on_cache (set_spin Master (Some pid)) w1).
    assert (Hsm2 : same_mem (cache w2) (cache w)).
    { eapply same_mem_trans; [apply same_mem_set_spin|done]. }
    apply releases_bget_scan.
    + intros g Hg. fold h in Hg. unfold w2, w1. simpl.
      rewrite !spin_set_spin_ne by congruence. by apply quiet_spin.
    + unfold w2, w1. simpl. rewrite ?length_insert. by apply quiet_length.
    + done.
    + intros g Hg. eapply Hresp; [apply same_mem_sym, Hsm2|]. by apply Hdonor.
    + rewrite (find_ext _ (is_unused (cache w)))
        by (intros x; by apply is_unused_same_mem).
      unfold first_free in Hfin. destruct Hok as (Hb & _). rewrite Hb in Hfin.
      destruct (find (is_unused (cache w)) (seq 0 NBUF)) as [i|] eqn:Ef.
      * intros l. eapply Hresp; [|apply (Hfin l)].
        apply same_mem_recycle, same_mem_sym, Hsm2.
      * split; (eapply Hresp; [apply same_mem_sym, Hsm2|apply Hfin]).
Qed.
(** ** [binit] *)

Lemma assign_ext c p f g : (forall x, f x = g x) -> assign p f c = assign p g c.
Proof.
  intros H. destruct p; unfold assign; f_equal; apply list_alter_ext; auto.
Qed.

Lemma cache_on_cache f w : cache (on_cache f w) = f (cache w).
Proof. done. Qed.

Lemma disk_on_cache f w : disk (on_cache f w) = disk w.
Proof. done. Qed.

Lemma set_spin_head l v c : bcache_head (set_spin l v c) = bcache_head c.
Proof. by destruct l. Qed.

Lemma set_spin_buf l v c : bcache_buf (set_spin l v c) = bcache_buf c.
Proof. by destruct l. Qed.

Lemma run_initlock {B : Type} l (ku : unit -> prog B) pid w :
  run (mbind ku (initlock l)) pid w = run (ku tt) pid (on_cache (set_spin l None) w).
Proof. done. Qed.

Lemma run_initsleeplock {B : Type} b (ku : unit -> prog B) pid w :
  run (mbind ku (initsleeplock b)) pid w =
  run (ku tt) pid (on_cache (assign b (with_lock None)) w).
Proof. done. Qed.

(** Sequencing: the second command runs from where the first one returns. *)
Lemma run_bind {A B : Type} (p : prog A) (k : A -> prog B) pid w :
  run (mbind k p) pid w =
  match run p pid w with
  | Done a w' => run (k a) pid w'
  | Panicked msg w' => Panicked msg w'
  | Sleeping b p' w' => Sleeping b (mbind k p') w'
  | Spinning l w' => Spinning l w'
  | Diverged w' => Diverged w'
  end.
Proof.
  revert w. induction p as [a|msg| |l p IH|b p IH|l p IH|l p IH|b p IH|b p IH|b kk IH
                            |b kk IH|b f p IH|b wr p IH]; intros w; simpl; try done.
  - destruct (spin_free w l); [apply IH|done].
  - destruct (sleep_free w b); [apply IH|done].
Qed.

Lemma fresh_buf_keep BSIZE f b :
  valid (f b) = valid b -> dev (f b) = dev b -> blockno (f b) = blockno b ->
  lock (f b) = lock b -> refcnt (f b) = refcnt b -> data (f b) = data b ->
  fresh_buf BSIZE b -> fresh_buf BSIZE (f b).
Proof. unfold fresh_buf. intros -> -> -> -> -> ->. done. Qed.

(** The first loop makes every bucket an empty list. *)
Lemma run_binit_heads n i pid w :
  (i + n = NBUCKET)%nat ->
  length (bcache_head (cache w)) = NBUCKET ->
  bcache_lock (cache w) = replicate NBUCKET None ->
  exists w',
    run (binit_heads n i) pid w = Done tt w' /\
    disk w' = disk w /\
    bcache_buf (cache w') = bcache_buf (cache w) /\
    bcache_master (cache w') = bcache_master (cache w) /\
    bcache_lock (cache w') = replicate NBUCKET None /\
    length (bcache_head (cache w')) = NBUCKET /\
    (forall h, (h < i)%nat -> deref (cache w') (Hd h) = deref (cache w) (Hd h)) /\
    (forall h, (i <= h < NBUCKET)%nat ->
       (deref (cache w') (Hd h)).(next) = Hd h /\ (deref (cache w') (Hd h)).(prev) = Hd h).
Proof.
  revert i w. induction n as [|n IH]; intros i w Hin Hlen Hlk.
  - exists w. simpl. repeat split; try done; lia.
  - cbn [binit_heads]. rewrite run_initlock, !run_set. cbv beta.
    set (w1 := on_cache (assign (Hd i) (with_next (Hd i)))
                 (on_cache (assign (Hd i) (with_prev (Hd i)))
                    (on_cache (set_spin (Bucket i) None) w))).
    destruct (IH (S i) w1) as (w' & Hrun & Hdk & Hb & Hm & Hl & Hh & Hlow & Hhigh).
    + lia.
    + unfold w1. rewrite !cache_on_cache.
      by rewrite !assign_length_head, set_spin_head.
    + unfold w1. rewrite !cache_on_cache.
      autorewrite with locks. rewrite Hlk. apply insert_replicate_same.
    + exists w'. split; [exact Hrun|]. split; [by rewrite Hdk|].
      split; [by rewrite Hb|]. split; [by rewrite Hm|]. split; [done|]. split; [done|].
      assert (Hri : in_range (cache w) (Hd i)) by (simpl; lia).
      split.
      * intros h Hlt. rewrite Hlow by lia. unfold w1. rewrite !cache_on_cache.
        rewrite !deref_assign_ne by (intros [= ->]; lia). by rewrite deref_set_spin.
      * intros h Hr. destruct (decide (h = i)) as [->|Hne]; [|apply Hhigh; lia].
        rewrite Hlow by lia. unfold w1. rewrite !cache_on_cache.
        rewrite deref_assign_eq by (by rewrite in_range_assign).
        rewrite deref_assign_eq by done. done.
Qed.
Lemma quiet_push_front c h b : quiet c -> quiet (push_front h b c).
Proof. intros [? ?]. split; by rewrite ?push_front_master, ?push_front_lock. Qed.

Lemma fresh_buf_push_front BSIZE c h b q :
  fresh_buf BSIZE (deref (push_front h b c) q) <-> fresh_buf BSIZE (deref c q).
Proof.
  unfold fresh_buf.
  rewrite (push_front_keep valid), (push_front_keep dev), (push_front_keep blockno),
    (push_front_keep lock), (push_front_keep refcnt), (push_front_keep data) by done.
  done.
Qed.

(** One turn of the second loop of [binit] puts slot [k] at the front of
    bucket 0. *)
Lemma binit_link_eq c k :
  assign (Hd 0) (with_next (Bf k))
    (assign (next (deref (assign (Bf k) (with_lock None)
                            (assign (Bf k) (with_prev (Hd 0))
                               (assign (Bf k) (with_next (next (deref c (Hd 0)))) c)))
                         (Hd 0)))
       (with_prev (Bf k))
       (assign (Bf k) (with_lock None)
          (assign (Bf k) (with_prev (Hd 0))
             (assign (Bf k) (with_next (next (deref c (Hd 0)))) c)))) =
  push_front 0 (Bf k) (assign (Bf k) (with_lock None) c).
Proof.
  rewrite push_front_eq. rewrite !deref_assign_ne by done.
  do 2 f_equal. rewrite !assign_assign. by apply assign_ext.
Qed.

Lemma binit_inv_step NBUF BSIZE k c :
  (k < NBUF)%nat -> binit_inv NBUF BSIZE k c ->
  binit_inv NBUF BSIZE (S k) (push_front 0 (Bf k) (assign (Bf k) (with_lock None) c)).
Proof.
  intros Hk (Hb & Hq & Hfresh & Hsh).
  split; [by rewrite push_front_length_buf, assign_length_buf|].
  split; [by apply quiet_push_front, quiet_assign|]. split.
  - intros j Hj. apply fresh_buf_push_front.
    destruct (decide (j = k)) as [->|Hne].
    + rewrite deref_assign_eq by (simpl; lia).
      destruct (Hfresh k Hk) as (? & ? & ? & ? & ? & ?). by repeat split.
    + rewrite deref_assign_ne by congruence. by apply Hfresh.
  - assert (H1 : shape (fun j => (j < k)%nat) (assign (Bf k) (with_lock None) c)
                   (fun h => if decide (h = 0%nat) then reverse (seq 0 k) else [])
                   (fun _ => 0%nat)).
    { eapply shape_same_links; [| | | |exact Hsh].
      - apply assign_length_buf.
      - apply assign_length_head.
      - intros q. by apply (deref_assign_keep _ next).
      - intros q. by apply (deref_assign_keep _ prev). }
    apply (shape_push _ _ _ _ 0%nat k) in H1.
    + eapply shape_ext; [| | |exact H1].
      * intros j. simpl. lia.
      * intros h Hh. cbv beta. destruct (decide (h = 0%nat)) as [->|?]; [|done].
        rewrite seq_S. change (0 + k)%nat with k. by rewrite reverse_snoc.
      * intros j _. simpl. by destruct (decide (j = k)).
    + lia.
    + rewrite assign_length_buf. lia.
    + unfold NBUCKET. lia.
Qed.

Lemma run_binit_bufs NBUF BSIZE n k pid w :
  (k + n = NBUF)%nat -> binit_inv NBUF BSIZE k (cache w) ->
  exists w',
    run (binit_bufs n k) pid w = Done tt w' /\ disk w' = disk w /\
    binit_inv NBUF BSIZE NBUF (cache w').
Proof.
  revert k w. induction n as [|n IH]; intros k w Hkn Hinv.
  - exists w. assert (k = NBUF) as -> by lia. done.
  - cbn [binit_bufs]. cbv zeta.
    rewrite run_get, !run_set, run_initsleeplock, run_get, !run_set. cbv beta.
    rewrite !on_cache_on_cache. rewrite !cache_on_cache.
    rewrite (on_cache_ext _ (push_front 0 (Bf k) ∘ assign (Bf k) (with_lock None)))
      by apply binit_link_eq.
    destruct (IH (S k) (on_cache (push_front 0 (Bf k) ∘ assign (Bf k) (with_lock None)) w))
      as (w' & Hrun & Hdk & Hinv').
    + lia.
    + apply binit_inv_step; [lia|done].
    + exists w'. done.
Qed.
(** ** The cache after [binit] *)

Lemma boot_inv NBUF BSIZE d :
  binit_inv NBUF BSIZE NBUF (cache (boot NBUF BSIZE d)) /\ disk (boot NBUF BSIZE d) = d.
Proof.
  unfold boot, binit. rewrite run_initlock. cbv beta.
  set (w0 := on_cache (set_spin Master None) (mkworld (bcache_zero NBUF BSIZE) d)).
  rewrite run_bind.
  destruct (run_binit_heads NBUCKET 0 0 w0) as (w1 & Hrun & Hdk & Hb & Hm & Hl & Hh & _ & Hhd).
  { done. }
  { unfold w0, bcache_zero. rewrite cache_on_cache, set_spin_head. apply length_replicate. }
  { done. }
  rewrite Hrun.
  destruct (run_binit_bufs NBUF BSIZE NBUF 0 0 w1) as (w2 & Hrun2 & Hdk2 & Hinv).
  { done. }
  { split; [|split; [|split]].
    - rewrite Hb. unfold w0, bcache_zero. rewrite cache_on_cache, set_spin_buf.
      apply length_replicate.
    - split; [by rewrite Hm|done].
    - intros j Hj. unfold deref. rewrite Hb. unfold w0, bcache_zero.
      rewrite cache_on_cache, set_spin_buf. cbn [bcache_buf cache].
      rewrite lookup_replicate_2 by done. done.
    - split; [done|]. split; [|split].
      + intros h Hlt. destruct (Hhd h) as [H1 H2]; [lia|].
        replace (if decide (h = 0%nat) then reverse (seq 0 0) else []) with (@nil nat)
          by (by destruct (decide _)).
        split; [done|constructor].
      + intros h j Hlt Hj. exfalso.
        destruct (decide (h = 0%nat)); simpl in Hj; by apply elem_of_nil in Hj.
      + intros j Hj. lia. }
  rewrite Hrun2. simpl. split; [done|]. by rewrite Hdk2, Hdk.
Qed.

Lemma HASH_0 : HASH 0 = 0%nat.
Proof. done. Qed.

Lemma binit_inv_links_ok NBUF BSIZE c : binit_inv NBUF BSIZE NBUF c -> links_ok NBUF c.
Proof.
  intros (Hb & Hq & Hfresh & Hsh).
  eapply shape_links_ok; [done|].
  eapply shape_ext; [| | |exact Hsh]; [done|done|].
  intros j Hj. unfold home. destruct (Hfresh j Hj) as (_ & _ & -> & _). done.
Qed.

Lemma boot_links_ok NBUF BSIZE d : links_ok NBUF (cache (boot NBUF BSIZE d)).
Proof. eapply binit_inv_links_ok, boot_inv. Qed.

Lemma boot_quiet NBUF BSIZE d : quiet (cache (boot NBUF BSIZE d)).
Proof. by destruct (boot_inv NBUF BSIZE d) as [(_ & ? & _) _]. Qed.

Lemma boot_fresh NBUF BSIZE d j :
  (j < NBUF)%nat -> fresh_buf BSIZE (deref (cache (boot NBUF BSIZE d)) (Bf j)).
Proof. destruct (boot_inv NBUF BSIZE d) as [(_ & _ & H & _) _]. apply H. Qed.

Lemma boot_disk NBUF BSIZE d : disk (boot NBUF BSIZE d) = d.
Proof. by destruct (boot_inv NBUF BSIZE d). Qed.

Lemma boot_bucket NBUF BSIZE d h :
  (h < NBUCKET)%nat ->
  bucket (cache (boot NBUF BSIZE d)) h =
  if decide (h = 0%nat) then reverse (seq 0 NBUF) else [].
Proof.
  intros Hh. destruct (boot_inv NBUF BSIZE d) as [(_ & _ & _ & Hsh) _].
  by rewrite (shape_bucket _ _ _ _ h Hsh Hh).
Qed.

Lemma boot_state_ok NBUF BSIZE d : state_ok NBUF (cache (boot NBUF BSIZE d)).
Proof.
  split; [apply boot_links_ok|]. split; [apply boot_quiet|].
  intros j Hj. destruct (boot_fresh NBUF BSIZE d j Hj) as (_ & _ & _ & Hl & Hr & _).
  rewrite Hl, Hr. split; [lia|done].
Qed.
(** ** The slot a miss takes and the cache it leaves *)

Lemma find_seq_Some (f : nat -> bool) a n j :
  find f (seq a n) = Some j <->
  (a <= j < a + n)%nat /\ f j = true /\ forall i, (a <= i < j)%nat -> f i = false.
Proof.
  revert a. induction n as [|n IH]; intros a; simpl.
  - split; [done|]. lia.
  - destruct (f a) eqn:Ea.
    + split.
      * intros [= <-]. split; [lia|]. split; [done|]. lia.
      * intros (Hr & Hj & Hlow). f_equal.
        destruct (decide (a = j)) as [|Hne]; [done|].
        rewrite Hlow in Ea by lia. done.
    + rewrite IH. split.
      * intros (Hr & Hj & Hlow). split; [lia|]. split; [done|].
        intros i Hi. destruct (decide (i = a)) as [->|?]; [done|]. apply Hlow. lia.
      * intros (Hr & Hj & Hlow). assert (a <> j) by (intros ->; congruence).
        split; [lia|]. split; [done|]. intros i Hi. apply Hlow. lia.
Qed.

Lemma find_seq_None (f : nat -> bool) a n :
  find f (seq a n) = None <-> forall i, (a <= i < a + n)%nat -> f i = false.
Proof.
  revert a. induction n as [|n IH]; intros a; simpl.
  - split; [lia|done].
  - destruct (f a) eqn:Ea.
    + split; [done|]. intros H. rewrite H in Ea by lia. done.
    + rewrite IH. split.
      * intros H i Hi. destruct (decide (i = a)) as [->|?]; [done|]. apply H. lia.
      * intros H i Hi. apply H. lia.
Qed.

Lemma first_free_Some c j :
  first_free c = Some j <->
  (j < length (bcache_buf c))%nat /\ (deref c (Bf j)).(refcnt) = 0 /\
  forall i, (i < j)%nat -> (deref c (Bf i)).(refcnt) <> 0.
Proof.
  unfold first_free. rewrite find_seq_Some. unfold is_unused.
  rewrite Z.eqb_eq. split.
  - intros (Hr & Hj & Hlow). split; [lia|]. split; [done|].
    intros i Hi. apply Z.eqb_neq, Hlow. lia.
  - intros (Hr & Hj & Hlow). split; [lia|]. split; [done|].
    intros i Hi. apply Z.eqb_neq, Hlow. lia.
Qed.

Lemma first_free_None c :
  first_free c = None <->
  forall i, (i < length (bcache_buf c))%nat -> (deref c (Bf i)).(refcnt) <> 0.
Proof.
  unfold first_free. rewrite find_seq_None. unfold is_unused. split.
  - intros H i Hi. apply Z.eqb_neq, H. lia.
  - intros H i Hi. apply Z.eqb_neq, H. lia.
Qed.

Lemma has_key_true c d n j :
  has_key c d n j = true <-> (deref c (Bf j)).(dev) = d /\ (deref c (Bf j)).(blockno) = n.
Proof. unfold has_key. rewrite andb_true_iff, !Z.eqb_eq. done. Qed.

(** A slot with the key is in the home bucket of the key, so the first loop
    misses only when no slot of the pool has the key. *)
Lemma cached_None NBUF c d n :
  links_ok NBUF c ->
  cached c d n = None <-> forall j, (j < NBUF)%nat -> has_key c d n j = false.
Proof.
  intros (Hb & Hh & Hch & Hin & Hall). unfold cached. split.
  - intros Hf j Hj. destruct (has_key c d n j) eqn:E; [|done].
    pose proof (proj1 (has_key_true _ _ _ _) E) as [_ En].
    pose proof (Hall j Hj) as Hjb. rewrite En in Hjb.
    apply list_elem_of_In in Hjb.
    pose proof (find_none _ _ Hf j Hjb) as Hk. congruence.
  - intros Hno. destruct (find _ _) as [j|] eqn:Ef; [|done].
    apply find_some in Ef as [Hjb Hk]. apply list_elem_of_In in Hjb.
    destruct (Hin (HASH n) j (HASH_lt n) Hjb) as [Hj _]. rewrite Hno in Hk by done. done.
Qed.

Lemma cached_Some NBUF c d n j :
  links_ok NBUF c -> cached c d n = Some j ->
  (j < NBUF)%nat /\ j ∈ bucket c (HASH n) /\ has_key c d n j = true.
Proof.
  intros (Hb & Hh & Hch & Hin & Hall) Hf. unfold cached in Hf.
  apply find_some in Hf as [Hjb Hk]. apply list_elem_of_In in Hjb.
  destruct (Hin (HASH n) j (HASH_lt n) Hjb) as [Hj _]. done.
Qed.

(** The fields of the slots after a miss that takes slot [j]. *)
Lemma deref_recycle_taken c d n j :
  in_range c (Bf j) ->
  let b := deref c (Bf j) in
  let b' := deref (recycle d n j c) (Bf j) in
  dev b' = d /\ blockno b' = n /\ valid b' = false /\ refcnt b' = 1 /\
  lock b' = lock b /\ data b' = data b.
Proof.
  intros Hr. cbv zeta.
  rewrite (recycle_keep dev), (recycle_keep blockno), (recycle_keep valid),
    (recycle_keep refcnt), (recycle_keep lock), (recycle_keep data) by done.
  rewrite deref_assign_eq by done. done.
Qed.

Lemma deref_recycle_other c d n j i :
  i <> j ->
  let b := deref c (Bf i) in
  let b' := deref (recycle d n j c) (Bf i) in
  dev b' = dev b /\ blockno b' = blockno b /\ valid b' = valid b /\ refcnt b' = refcnt b /\
  lock b' = lock b /\ data b' = data b.
Proof.
  intros Hne. cbv zeta.
  rewrite (recycle_keep dev), (recycle_keep blockno), (recycle_keep valid),
    (recycle_keep refcnt), (recycle_keep lock), (recycle_keep data) by done.
  rewrite deref_assign_ne by congruence. done.
Qed.
(** * The claims *)

Lemma run_acquiresleep_free b pid w :
  sleep_free w b = true ->
  run (Acquiresleep b (Ret b)) pid w = Done b (on_cache (assign b (with_lock (Some pid))) w).
Proof. intros H. simpl. by rewrite H. Qed.

Lemma run_acquiresleep_busy {A : Type} b (k : prog A) pid w :
  sleep_free w b = false ->
  run (Acquiresleep b k) pid w = Sleeping b (Acquiresleep b k) w.
Proof. intros H. simpl. by rewrite H. Qed.

Lemma bget_slot_miss c dev0 blockno0 :
  cached c dev0 blockno0 = None -> bget_slot c dev0 blockno0 = first_free c.
Proof. unfold bget_slot. by intros ->. Qed.

Lemma bget_cache_miss c dev0 blockno0 j :
  cached c dev0 blockno0 = None -> first_free c = Some j ->
  bget_cache c dev0 blockno0 = recycle dev0 blockno0 j c.
Proof. unfold bget_cache. by intros -> ->. Qed.

Lemma boot_no_key NBUF BSIZE d dev0 blockno0 i :
  dev0 <> 0 -> (i < NBUF)%nat -> has_key (cache (boot NBUF BSIZE d)) dev0 blockno0 i = false.
Proof.
  intros Hd Hi. destruct (boot_fresh NBUF BSIZE d i Hi) as (_ & Hdev & _).
  unfold has_key. rewrite Hdev. apply andb_false_iff. left. apply Z.eqb_neq. congruence.
Qed.

(** ** Events of a command *)

Lemma trace_bind {A B : Type} (p : prog A) (k : A -> prog B) pid w :
  trace (mbind k p) pid w =
  trace p pid w ++
  match run p pid w with
  | Done a w' => trace (k a) pid w'
  | _ => []
  end.
Proof.
  revert w. induction p as [a|msg| |l p IH|b p IH|l p IH|l p IH|b p IH|b p IH|b kk IH
                            |b kk IH|b f p IH|b wr p IH]; intros w; simpl;
    try done; try (by rewrite IH).
  - destruct (spin_free w l); [by rewrite IH|done].
  - destruct (sleep_free w b); [by rewrite IH|done].
Qed.

Lemma uses_trace {A : Type} (Q : event -> Prop) (p : prog A) pid w :
  uses Q p -> Forall (fun x => Q x.1) (trace p pid w).
Proof.
  intros H. revert w. induction H; intros w; simpl; try constructor; auto.
  - destruct (spin_free w l); constructor; auto.
  - destruct (sleep_free w b); constructor; auto.
Qed.

Lemma uses_bind {A B : Type} (Q : event -> Prop) (p : prog A) (k : A -> prog B) :
  uses Q p -> (forall a, uses Q (k a)) -> uses Q (mbind k p).
Proof.
  intros H Hk. induction H; simpl; try (constructor; auto); auto.
Qed.

(** [bget] makes no disk transfer. *)
Lemma bget_cached_no_transfer fuel dev0 blockno0 h b miss :
  uses no_transfer miss -> uses no_transfer (bget_cached fuel dev0 blockno0 h b miss).
Proof.
  intros Hm. revert b. induction fuel as [|fuel IH]; intros b; simpl.
  - destruct (ptr_eqb b (Hd h)); [done|constructor].
  - destruct (ptr_eqb b (Hd h)); [done|]. constructor; [done|]. intros r.
    destruct (_ && _); [|apply IH]. repeat (constructor; try done).
Qed.

Lemma bget_scan_no_transfer n dev0 blockno0 h j :
  uses no_transfer (bget_scan n dev0 blockno0 h j).
Proof.
  revert j. induction n as [|n IH]; intros j; simpl.
  - repeat (constructor; try done).
  - constructor; [done|]. intros r. destruct (Nat.eqb _ _).
    + destruct (_ =? _); [|apply IH]. repeat (constructor; try done).
    + constructor; [done|]. constructor; [done|]. intros r'.
      destruct (_ =? _).
      * repeat (constructor; try done); intros; repeat (constructor; try done).
      * constructor; [done|]. apply IH.
Qed.

Lemma bget_no_transfer NBUF dev0 blockno0 : uses no_transfer (bget NBUF dev0 blockno0).
Proof.
  unfold bget. simpl. constructor; [done|]. constructor; [done|]. intros r.
  apply bget_cached_no_transfer. constructor; [done|]. apply bget_scan_no_transfer.
Qed.
(** The three meanings of a command agree: running it is taking one action
    after the other, and the trace records those actions. *)
Lemma run_step {A : Type} (p : prog A) pid w :
  run p pid w =
  match step pid p w with
  | Next _ k w' => run k pid w'
  | Over o => o
  end.
Proof.
  destruct p; simpl; try done.
  - by destruct (spin_free w l).
  - by destruct (sleep_free w b).
Qed.

Lemma trace_step {A : Type} (p : prog A) pid w :
  trace p pid w =
  match step pid p w with
  | Next e k w' => (e, w) :: trace k pid w'
  | Over _ => []
  end.
Proof.
  destruct p; simpl; try done.
  - by destruct (spin_free w l).
  - by destruct (sleep_free w b).
Qed.
Lemma bucket_assign_keep c p f h :
  (forall b, next (f b) = next b) -> bucket (assign p f c) h = bucket c h.
Proof.
  intros Hn. unfold bucket. rewrite assign_length_buf, (deref_assign_keep _ next) by done.
  apply walk_same_next. intros q. by apply (deref_assign_keep _ next).
Qed.

Lemma bget_slot_hit c dev0 blockno0 j :
  cached c dev0 blockno0 = Some j -> bget_slot c dev0 blockno0 = Some j.
Proof. unfold bget_slot. by intros ->. Qed.

Lemma bget_cache_hit c dev0 blockno0 j :
  cached c dev0 blockno0 = Some j ->
  bget_cache c dev0 blockno0 = assign (Bf j) (refcnt_add 1) c.
Proof. unfold bget_cache. by intros ->. Qed.

Lemma sleep_free_keep w p f b :
  (forall x, lock (f x) = lock x) -> sleep_free (on_cache (assign p f) w) b = sleep_free w b.
Proof.
  intros H. unfold sleep_free. rewrite cache_on_cache. by rewrite (deref_assign_keep _ lock).
Qed.

(** ** The slot found for a key *)

Lemma find_weaken {X : Type} (f f' : X -> bool) l i :
  find f l = Some i -> (forall x, f' x = true -> f x = true) -> f' i = true ->
  find f' l = Some i.
Proof.
  intros Hf Hle Hi. induction l as [|x l IH]; simpl in *; [done|].
  destruct (f x) eqn:Ex.
  - injection Hf as ->. by rewrite Hi.
  - destruct (f' x) eqn:Ex'; [|by apply IH]. apply Hle in Ex'. congruence.
Qed.

Lemma find_filter_ne (f : nat -> bool) j l :
  f j = false -> find f (filter (fun x => x ≠ j) l) = find f l.
Proof.
  intros Hj. induction l as [|x l IH]; [done|].
  destruct (decide (x = j)) as [->|Hne].
  - rewrite filter_cons_False by (intros ?; done). simpl. by rewrite Hj.
  - rewrite filter_cons_True by done. simpl. by rewrite IH.
Qed.

Lemma find_only (f : nat -> bool) j l :
  j ∈ l -> f j = true -> (forall x, x ∈ l -> f x = true -> x = j) -> find f l = Some j.
Proof.
  intros Hj Hf Hu. induction l as [|x l IH]; [by apply elem_of_nil in Hj|].
  simpl. destruct (f x) eqn:Ex.
  - f_equal. apply Hu; [by left|done].
  - apply IH.
    + apply elem_of_cons in Hj as [->|Hj]; [congruence|done].
    + intros y Hy. apply Hu. by right.
Qed.

Lemma cached_assign_keep c p f d n :
  (forall b, next (f b) = next b) -> (forall b, dev (f b) = dev b) ->
  (forall b, blockno (f b) = blockno b) ->
  cached (assign p f c) d n = cached c d n.
Proof.
  intros Hn Hd Hb. unfold cached. rewrite bucket_assign_keep by done.
  apply find_ext. intros x. unfold has_key.
  by rewrite (deref_assign_keep _ dev), (deref_assign_keep _ blockno).
Qed.

Lemma first_of_key_assign_keep c p f j :
  (forall b, next (f b) = next b) -> (forall b, dev (f b) = dev b) ->
  (forall b, blockno (f b) = blockno b) ->
  first_of_key (assign p f c) j <-> first_of_key c j.
Proof.
  intros Hn Hd Hb. unfold first_of_key.
  rewrite cached_assign_keep by done.
  by rewrite (deref_assign_keep _ dev), (deref_assign_keep _ blockno).
Qed.

(** After a miss the slot taken is the only one with the new key, and every
    other slot that was the first of its key still is. *)
Lemma has_key_recycle c d n j d' n' x :
  in_range c (Bf j) ->
  has_key (recycle d n j c) d' n' x =
  if decide (x = j) then (d =? d') && (n =? n') else has_key c d' n' x.
Proof.
  intros Hr. unfold has_key.
  destruct (decide (x = j)) as [->|Hne].
  - destruct (deref_recycle_taken c d n j Hr) as (-> & -> & _). done.
  - destruct (deref_recycle_other c d n j x Hne) as (-> & -> & _). done.
Qed.

Lemma first_of_key_recycle_taken NBUF c d n j :
  links_ok NBUF c -> (j < NBUF)%nat -> cached c d n = None ->
  first_of_key (recycle d n j c) j.
Proof.
  intros Hok Hj Hc. pose proof Hok as (Hb & _).
  assert (Hr : in_range c (Bf j)) by (simpl; lia).
  pose proof (recycle_links_ok NBUF c d n j Hok Hj) as Hok'.
  unfold first_of_key.
  destruct (deref_recycle_taken c d n j Hr) as (-> & -> & _).
  unfold cached. apply find_only.
  - destruct Hok' as (_ & _ & _ & _ & Hall). specialize (Hall j Hj).
    destruct (deref_recycle_taken c d n j Hr) as (_ & Hn & _). by rewrite Hn in Hall.
  - rewrite has_key_recycle by done. rewrite decide_True by done. by rewrite !Z.eqb_refl.
  - intros x Hx. rewrite has_key_recycle by done.
    destruct (decide (x = j)) as [->|Hne]; [done|]. intros Hk.
    destruct Hok' as (_ & _ & _ & Hin & _).
    destruct (Hin _ x (HASH_lt n) Hx) as [Hxr _].
    rewrite (proj1 (cached_None NBUF c d n Hok) Hc x Hxr) in Hk. done.
Qed.

Lemma first_of_key_recycle_other NBUF c d n j i :
  links_ok NBUF c -> (j < NBUF)%nat -> (i < NBUF)%nat -> i <> j ->
  cached c d n = None ->
  first_of_key c i -> first_of_key (recycle d n j c) i.
Proof.
  intros Hok Hj Hi Hne Hc Hfirst. pose proof Hok as (Hb & _).
  assert (Hr : in_range c (Bf j)) by (simpl; lia).
  unfold first_of_key in *.
  destruct (deref_recycle_other c d n j i Hne) as (-> & -> & _).
  set (di := dev (deref c (Bf i))) in *. set (ni := blockno (deref c (Bf i))) in *.
  assert (Hki : has_key c di ni i = true) by (apply has_key_true; done).
  assert (Hkey : (d =? di) && (n =? ni) = false).
  { destruct ((d =? di) && (n =? ni)) eqn:E; [|done].
    apply andb_true_iff in E as [E1 E2]. apply Z.eqb_eq in E1, E2. subst d n.
    rewrite (proj1 (cached_None NBUF c di ni Hok) Hc i Hi) in Hki. done. }
  unfold cached in *.
  rewrite (bucket_recycle NBUF) by (done || apply HASH_lt).
  assert (Hf' : forall l, find (has_key c di ni) l = Some i ->
                          find (has_key (recycle d n j c) di ni) l = Some i).
  { intros l Hl. eapply find_weaken; [exact Hl| |].
    - intros x. rewrite has_key_recycle by done.
      destruct (decide (x = j)); [by rewrite Hkey|done].
    - rewrite has_key_recycle by done. by rewrite decide_False. }
  assert (Hkj : has_key (recycle d n j c) di ni j = false).
  { rewrite has_key_recycle by done. by rewrite decide_True. }
  unfold recycled_bucket. destruct (decide _); [by apply Hf'|].
  destruct (decide _).
  - simpl. rewrite Hkj. by apply Hf'.
  - destruct (decide _); [|by apply Hf'].
    rewrite find_filter_ne by done. by apply Hf'.
Qed.
(** ** What each call does to a quiet cache *)

Lemma run_bpin b pid w :
  quiet (cache w) -> run (bpin b) pid w = Done tt (on_cache (assign b (refcnt_add 1)) w).
Proof.
  intros Hq. unfold bpin. rewrite run_get. cbv beta zeta.
  rewrite run_acquire by (by apply quiet_spin). rewrite run_set. cbv beta.
  simpl. f_equal. rewrite !on_cache_on_cache. apply on_cache_ext. by apply unlocked_hit.
Qed.

Lemma run_bunpin b pid w :
  quiet (cache w) -> run (bunpin b) pid w = Done tt (on_cache (assign b (refcnt_add (-1))) w).
Proof.
  intros Hq. unfold bunpin. rewrite run_get. cbv beta zeta.
  rewrite run_acquire by (by apply quiet_spin). rewrite run_set. cbv beta.
  simpl. f_equal. rewrite !on_cache_on_cache. apply on_cache_ext. by apply unlocked_hit.
Qed.

Lemma run_brelse b pid w :
  quiet (cache w) ->
  run (brelse b) pid w =
  if sleep_held pid w b
  then Done tt (on_cache (assign b (refcnt_add (-1))) (on_cache (assign b (with_lock None)) w))
  else Panicked "brelse" w.
Proof.
  intros Hq. unfold brelse.
  change (run (mbind ?k (holdingsleep b)) pid w) with (run (k (sleep_held pid w b)) pid w).
  cbv beta. destruct (sleep_held pid w b); [|done]. cbn [negb].
  change (run (mbind ?k (releasesleep b)) pid w)
    with (run (k tt) pid (on_cache (assign b (with_lock None)) w)).
  cbv beta. set (w1 := on_cache (assign b (with_lock None)) w).
  assert (Hq1 : quiet (cache w1)) by (by apply quiet_assign).
  rewrite run_get. cbv beta zeta.
  rewrite run_acquire by (by apply quiet_spin). rewrite run_set. cbv beta.
  simpl. f_equal. rewrite (on_cache_on_cache _ _ w1). rewrite (on_cache_on_cache _ _ w1).
  apply on_cache_ext. by apply unlocked_hit.
Qed.

Lemma run_bwrite b pid w :
  run (bwrite b) pid w =
  if sleep_held pid w b then Done tt (virtio_disk_rw b true w) else Panicked "bwrite" w.
Proof. unfold bwrite. simpl. by destruct (sleep_held pid w b). Qed.

Lemma run_bread_fill b pid w :
  run (bread_fill b) pid w =
  Done b (if valid (deref (cache w) b) then w
          else on_cache (assign b (with_valid true)) (virtio_disk_rw b false w)).
Proof. unfold bread_fill. simpl. by destruct (valid (deref (cache w) b)). Qed.

Lemma run_bread NBUF dev0 blockno0 pid w :
  links_ok NBUF (cache w) -> quiet (cache w) ->
  run (bread NBUF dev0 blockno0) pid w =
  match bget_slot (cache w) dev0 blockno0 with
  | None => Panicked "bget: no buffers" w
  | Some j =>
    let wf := on_cache (fun _ => bget_cache (cache w) dev0 blockno0) w in
    if sleep_free wf (Bf j)
    then run (bread_fill (Bf j)) pid (on_cache (assign (Bf j) (with_lock (Some pid))) wf)
    else Sleeping (Bf j) (Acquiresleep (Bf j) (bread_fill (Bf j))) wf
  end.
Proof.
  intros Hok Hq. unfold bread. rewrite run_bind, run_bget by done.
  destruct (bget_slot (cache w) dev0 blockno0) as [j|]; [|done].
  cbv zeta. simpl. by destruct (sleep_free _ _).
Qed.

Lemma virtio_disk_rw_in b w :
  virtio_disk_rw b false w =
  on_cache (assign b (with_data (disk w (deref (cache w) b).(dev) (deref (cache w) b).(blockno)))) w.
Proof. done. Qed.

(** ** The invariant is kept *)

Lemma cache_inv_assign_keep NBUF c p f :
  (forall b, next (f b) = next b) -> (forall b, prev (f b) = prev b) ->
  (forall b, dev (f b) = dev b) -> (forall b, blockno (f b) = blockno b) ->
  (forall b, valid (f b) = valid b) ->
  cache_inv NBUF c -> cache_inv NBUF (assign p f c).
Proof.
  intros Hn Hp Hd Hb Hv (Hok & Hq & Hfirst).
  split; [by apply links_ok_keep|]. split; [by apply quiet_assign|].
  intros j Hj. rewrite (deref_assign_keep _ valid) by done. intros Hvj.
  apply first_of_key_assign_keep; auto.
Qed.

Lemma cache_inv_assign_first NBUF c j f :
  (forall b, next (f b) = next b) -> (forall b, prev (f b) = prev b) ->
  (forall b, dev (f b) = dev b) -> (forall b, blockno (f b) = blockno b) ->
  first_of_key c j ->
  cache_inv NBUF c -> cache_inv NBUF (assign (Bf j) f c).
Proof.
  intros Hn Hp Hd Hb Hfj (Hok & Hq & Hfirst).
  split; [by apply links_ok_keep|]. split; [by apply quiet_assign|].
  intros i Hi Hvi. apply first_of_key_assign_keep; auto.
  destruct (decide (i = j)) as [->|Hne]; [done|].
  apply Hfirst; [done|]. by rewrite deref_assign_ne in Hvi by congruence.
Qed.

Lemma sleepers_assign_keep NBUF c p f l :
  (forall b, next (f b) = next b) -> (forall b, dev (f b) = dev b) ->
  (forall b, blockno (f b) = blockno b) ->
  Forall (sleeper_ok NBUF c) l -> Forall (sleeper_ok NBUF (assign p f c)) l.
Proof.
  intros Hn Hd Hb Hl. eapply Forall_impl; [exact Hl|]. intros x (j & Hj & Hk & Hf).
  exists j. split; [done|]. split; [done|]. by apply first_of_key_assign_keep.
Qed.

Lemma cache_inv_recycle NBUF c d n j :
  cache_inv NBUF c -> cached c d n = None -> first_free c = Some j ->
  cache_inv NBUF (recycle d n j c).
Proof.
  intros (Hok & Hq & Hfirst) Hc Hf. pose proof Hok as (Hb & _).
  pose proof (proj1 (first_free_Some _ _) Hf) as (Hj & _). rewrite Hb in Hj.
  split; [by apply recycle_links_ok|]. split; [by apply quiet_recycle|].
  intros i Hi Hvi. destruct (decide (i = j)) as [->|Hne].
  - by apply (first_of_key_recycle_taken NBUF).
  - apply (first_of_key_recycle_other NBUF); try done. apply Hfirst; [done|].
    destruct (deref_recycle_other c d n j i Hne) as (_ & _ & Hv & _). by rewrite <- Hv.
Qed.

Lemma sleepers_recycle NBUF c d n j l :
  links_ok NBUF c -> cached c d n = None -> first_free c = Some j ->
  Forall (sleeper_ok NBUF c) l -> Forall (sleeper_ok NBUF (recycle d n j c)) l.
Proof.
  intros Hok Hc Hf. pose proof Hok as (Hb & _).
  pose proof (proj1 (first_free_Some _ _) Hf) as (Hj & _). rewrite Hb in Hj.
  intros Hl. eapply Forall_impl; [exact Hl|]. intros x (i & Hi & Hk & Hfi).
  exists i. split; [done|]. split; [done|]. destruct (decide (i = j)) as [->|Hne].
  - by apply (first_of_key_recycle_taken NBUF).
  - by apply (first_of_key_recycle_other NBUF).
Qed.
(** Taking the sleep-lock of the slot [bget] gave and filling the slot. *)
Lemma fill_inv NBUF j pid wf l :
  cache_inv NBUF (cache wf) -> first_of_key (cache wf) j ->
  Forall (sleeper_ok NBUF (cache wf)) l ->
  exists w',
    run (bread_fill (Bf j)) pid (on_cache (assign (Bf j) (with_lock (Some pid))) wf) =
      Done (Bf j) w' /\
    cache_inv NBUF (cache w') /\
    Forall (sleeper_ok NBUF (cache w')) l /\
    forall i, (deref (cache w') (Bf i)).(refcnt) = (deref (cache wf) (Bf i)).(refcnt).
Proof.
  intros Hinv Hfirst Hl. rewrite run_bread_fill.
  set (w1 := on_cache (assign (Bf j) (with_lock (Some pid))) wf).
  assert (Hinv1 : cache_inv NBUF (cache w1)) by (by apply cache_inv_assign_keep).
  assert (Hfirst1 : first_of_key (cache w1) j) by (by apply first_of_key_assign_keep).
  assert (Hl1 : Forall (sleeper_ok NBUF (cache w1)) l) by (by apply sleepers_assign_keep).
  assert (Hr1 : forall i, (deref (cache w1) (Bf i)).(refcnt) = (deref (cache wf) (Bf i)).(refcnt)).
  { intros i. unfold w1. rewrite cache_on_cache. by rewrite (deref_assign_keep _ refcnt). }
  eexists. split; [reflexivity|].
  destruct (valid (deref (cache w1) (Bf j))); [done|].
  rewrite virtio_disk_rw_in.
  set (w2 := on_cache (assign (Bf j) (with_data _)) w1).
  assert (Hinv2 : cache_inv NBUF (cache w2)) by (by apply cache_inv_assign_keep).
  assert (Hfirst2 : first_of_key (cache w2) j) by (by apply first_of_key_assign_keep).
  assert (Hl2 : Forall (sleeper_ok NBUF (cache w2)) l) by (by apply sleepers_assign_keep).
  split; [|split].
  - by apply cache_inv_assign_first.
  - rewrite cache_on_cache. by apply sleepers_assign_keep.
  - intros i. rewrite cache_on_cache. rewrite (deref_assign_keep _ refcnt) by done.
    unfold w2. rewrite cache_on_cache. rewrite (deref_assign_keep _ refcnt) by done.
    apply Hr1.
Qed.

(** The cache when [bget] has released its spinlocks. *)
Lemma bget_cache_inv NBUF c dev0 blockno0 j l :
  cache_inv NBUF c -> Forall (sleeper_ok NBUF c) l ->
  bget_slot c dev0 blockno0 = Some j ->
  (j < NBUF)%nat /\
  cache_inv NBUF (bget_cache c dev0 blockno0) /\
  first_of_key (bget_cache c dev0 blockno0) j /\
  Forall (sleeper_ok NBUF (bget_cache c dev0 blockno0)) l /\
  forall i, (i < NBUF)%nat ->
    (deref (bget_cache c dev0 blockno0) (Bf i)).(refcnt) =
    (deref c (Bf i)).(refcnt) + if decide (i = j) then 1 else 0.
Proof.
  intros Hinv Hl. pose proof Hinv as (Hok & Hq & Hfirst). pose proof Hok as (Hb & _).
  unfold bget_slot, bget_cache.
  destruct (cached c dev0 blockno0) as [j'|] eqn:Ec.
  - intros [= ->]. destruct (cached_Some NBUF _ _ _ _ Hok Ec) as (Hj & Hjb & Hk).
    apply has_key_true in Hk as [Hd Hn].
    assert (Hfj : first_of_key c j) by (unfold first_of_key; by rewrite Hd, Hn).
    split; [done|]. split; [by apply cache_inv_assign_keep|].
    split; [by apply first_of_key_assign_keep|].
    split; [by apply sleepers_assign_keep|].
    intros i Hi. destruct (decide (i = j)) as [->|Hne].
    + rewrite deref_assign_eq by (simpl; lia). done.
    + rewrite deref_assign_ne by congruence. lia.
  - intros Hf. rewrite Hf.
    pose proof (proj1 (first_free_Some _ _) Hf) as (Hj & Hz & _). rewrite Hb in Hj.
    split; [done|]. split; [by apply cache_inv_recycle|].
    split; [by apply (first_of_key_recycle_taken NBUF)|].
    split; [by apply sleepers_recycle|].
    intros i Hi. destruct (decide (i = j)) as [->|Hne].
    + destruct (deref_recycle_taken c dev0 blockno0 j) as (_ & _ & _ & -> & _);
        [simpl; lia|]. rewrite Hz. done.
    + destruct (deref_recycle_other c dev0 blockno0 j i Hne) as (_ & _ & _ & -> & _). lia.
Qed.

Lemma sleeper_Some s pid k :
  sleeper s pid = Some k -> exists x, x ∈ sys_sleepers s /\ x.2 = k.
Proof.
  unfold sleeper. destruct (find _ _) as [x|] eqn:E; [|done]. intros [= <-].
  apply find_some in E as [Hin _]. exists x. split; [by apply list_elem_of_In|done].
Qed.

Lemma Forall_unsleep (P : nat * prog ptr -> Prop) pid l :
  Forall P l -> Forall P (unsleep pid l).
Proof.
  intros H. apply Forall_forall. intros x Hx. unfold unsleep in Hx.
  apply list_elem_of_filter in Hx as [_ Hx]. by apply (proj1 (Forall_forall _ _) H).
Qed.

Lemma hold_delta_read i j :
  hold_delta (Bf i) (Lread (Bf j)) = if decide (i = j) then 1 else 0.
Proof.
  simpl. destruct (Nat.eqb_spec j i) as [->|Hne].
  - by rewrite decide_True.
  - by rewrite decide_False by congruence.
Qed.

Lemma refcnt_assign_add c b d i :
  (i < length (bcache_buf c))%nat ->
  (deref (assign b (refcnt_add d) c) (Bf i)).(refcnt) =
  (deref c (Bf i)).(refcnt) + if ptr_eqb b (Bf i) then d else 0.
Proof.
  intros Hi. destruct (ptr_eqb b (Bf i)) eqn:E.
  - apply ptr_eqb_eq in E as ->. rewrite deref_assign_eq by done. done.
  - apply ptr_eqb_neq in E. rewrite deref_assign_ne by done. lia.
Qed.
(** ** One turn of the system *)

Lemma sys_step_effect NBUF s t lb s' :
  sys_inv NBUF s -> sys_step NBUF s t = Some (lb, s') ->
  sys_inv NBUF s' /\
  forall i, (i < NBUF)%nat ->
    (deref (cache (sys_world s')) (Bf i)).(refcnt) =
    (deref (cache (sys_world s)) (Bf i)).(refcnt) + hold_delta (Bf i) lb.
Proof.
  intros [Hinv Hsl] Hstep. pose proof Hinv as (Hok & Hq & Hfirst).
  pose proof Hok as (Hb & _).
  destruct s as [w l]. simpl in Hinv, Hsl, Hok, Hq, Hfirst, Hb |- *.
  destruct t as [pid c|pid]; unfold sys_step, finish in Hstep;
    cbn [sys_world sys_sleepers] in Hstep.
  - destruct (sleeper _ pid) as [k|]; [done|].
    destruct c as [dev0 blockno0|b|b|b|b].
    + rewrite run_bread in Hstep by done.
      destruct (bget_slot (cache w) dev0 blockno0) as [j|] eqn:Es; [|done].
      destruct (bget_cache_inv NBUF _ _ _ j l Hinv Hsl Es) as (Hj & Hinvf & Hff & Hslf & Hrf).
      cbv zeta in Hstep.
      set (wf := on_cache (fun _ => bget_cache (cache w) dev0 blockno0) w) in *.
      destruct (sleep_free wf (Bf j)).
      * destruct (fill_inv NBUF j pid wf l Hinvf Hff Hslf) as (w' & Hrun & Hinv' & Hsl' & Hr').
        rewrite Hrun in Hstep. injection Hstep as <- <-. cbn [sys_world sys_sleepers].
        split; [by split|]. intros i Hi. rewrite Hr', hold_delta_read.
        unfold wf. rewrite cache_on_cache. by apply Hrf.
      * injection Hstep as <- <-. cbn [sys_world sys_sleepers]. split.
        -- split; [done|]. apply Forall_cons. split; [|done]. by exists j.
        -- intros i Hi. rewrite hold_delta_read. by apply Hrf.
    + rewrite run_bwrite in Hstep. destruct (sleep_held pid w b); [|done].
      injection Hstep as <- <-. cbn [sys_world sys_sleepers]. split; [by split|]. intros i Hi. simpl. lia.
    + rewrite run_brelse in Hstep by done. destruct (sleep_held pid w b); [|done].
      injection Hstep as <- <-. cbn [sys_world sys_sleepers]. rewrite !cache_on_cache. split.
      * split.
        -- apply cache_inv_assign_keep; try done. by apply cache_inv_assign_keep.
        -- apply sleepers_assign_keep; try done. by apply sleepers_assign_keep.
      * intros i Hi. rewrite refcnt_assign_add by (rewrite assign_length_buf; lia).
        by rewrite (deref_assign_keep _ refcnt).
    + rewrite run_bpin in Hstep by done. injection Hstep as <- <-. cbn [sys_world sys_sleepers].
      rewrite !cache_on_cache. split.
      * split; [by apply cache_inv_assign_keep|by apply sleepers_assign_keep].
      * intros i Hi. by rewrite refcnt_assign_add by lia.
    + rewrite run_bunpin in Hstep by done. injection Hstep as <- <-. cbn [sys_world sys_sleepers].
      rewrite !cache_on_cache. split.
      * split; [by apply cache_inv_assign_keep|by apply sleepers_assign_keep].
      * intros i Hi. by rewrite refcnt_assign_add by lia.
  - destruct (sleeper _ pid) as [k|] eqn:Ek; [|done].
    apply sleeper_Some in Ek as (x & Hx & <-). simpl in Hx.
    destruct (proj1 (Forall_forall _ _) Hsl x Hx) as (j & Hj & Hk & Hfj).
    rewrite Hk in Hstep. cbn [run] in Hstep.
    destruct (sleep_free w (Bf j)); [|done].
    destruct (fill_inv NBUF j pid w l Hinv Hfj Hsl) as (w' & Hrun & Hinv' & Hsl' & Hr').
    rewrite Hrun in Hstep. injection Hstep as <- <-. cbn [sys_world sys_sleepers]. split.
    + split; [done|]. by apply Forall_unsleep.
    + intros i Hi. rewrite Hr'. cbn [hold_delta]. lia.
Qed.
(** ** Sequences of turns *)

Lemma sys_run_effect NBUF s ts lbs s' :
  sys_inv NBUF s -> sys_run NBUF s ts = Some (lbs, s') ->
  sys_inv NBUF s' /\
  forall i, (i < NBUF)%nat ->
    (deref (cache (sys_world s')) (Bf i)).(refcnt) =
    (deref (cache (sys_world s)) (Bf i)).(refcnt) + outstanding (Bf i) lbs.
Proof.
  revert s lbs s'. induction ts as [|t ts IH]; intros s lbs s' Hinv Hrun; simpl in Hrun.
  - injection Hrun as <- <-. split; [done|]. intros i Hi. simpl. lia.
  - destruct (sys_step NBUF s t) as [[lb s1]|] eqn:Est; [|done].
    destruct (sys_run NBUF s1 ts) as [[lbs1 s2]|] eqn:Er; [|done].
    injection Hrun as <- <-.
    destruct (sys_step_effect NBUF s t lb s1 Hinv Est) as [Hinv1 Hr1].
    destruct (IH s1 lbs1 s2 Hinv1 Er) as [Hinv2 Hr2].
    split; [done|]. intros i Hi. rewrite Hr2, Hr1 by done. simpl. lia.
Qed.

Lemma sys_boot_inv NBUF BSIZE d : sys_inv NBUF (sys_boot NBUF BSIZE d).
Proof.
  split; [|constructor]. simpl.
  split; [apply boot_links_ok|]. split; [apply boot_quiet|].
  intros j Hj Hv. destruct (boot_fresh NBUF BSIZE d j Hj) as (Hv' & _). congruence.
Qed.

Lemma sys_reach_inv NBUF BSIZE d ts lbs s :
  sys_run NBUF (sys_boot NBUF BSIZE d) ts = Some (lbs, s) ->
  sys_inv NBUF s /\
  forall i, (i < NBUF)%nat ->
    (deref (cache (sys_world s)) (Bf i)).(refcnt) = outstanding (Bf i) lbs.
Proof.
  intros Hrun.
  destruct (sys_run_effect NBUF _ ts lbs s (sys_boot_inv NBUF BSIZE d) Hrun) as [Hinv Hr].
  split; [done|]. intros i Hi. rewrite Hr by done.
  destruct (boot_fresh NBUF BSIZE d i Hi) as (_ & _ & _ & _ & Hz & _).
  simpl. rewrite Hz. lia.
Qed.

Lemma links_ok_consistent NBUF c : links_ok NBUF c -> consistent NBUF c.
Proof.
  intros (Hb & Hh & Hch & Hin & Hall) h Hlt. split; [by apply Hch|]. split; [by apply Hch|].
  intros j. split.
  - by apply Hin.
  - intros [Hj <-]. by apply Hall.
Qed.

Lemma releases_impl (R R' : lockid -> bcache -> Prop) tr :
  (forall l c, R l c -> R' l c) -> releases R tr -> releases R' tr.
Proof.
  intros Himp H. eapply Forall_impl; [exact H|].
  intros [e w]. unfold at_release. simpl. destruct e; auto.
Qed.

Lemma releases_of_uses {A : Type} R (p : prog A) pid w :
  uses no_release p -> releases R (trace p pid w).
Proof.
  intros H. eapply Forall_impl; [by apply uses_trace|].
  intros [e w']. unfold at_release. simpl. by destruct e.
Qed.

Lemma releases_app R tr1 tr2 : releases R tr1 -> releases R tr2 -> releases R (tr1 ++ tr2).
Proof. intros H1 H2. apply Forall_app. by split. Qed.

Lemma bread_fill_no_release b : uses no_release (bread_fill b).
Proof.
  unfold bread_fill. simpl. constructor; [done|]. intros r.
  destruct (negb (valid r)); repeat (constructor; try done).
Qed.

(** The spinlocks a public operation releases, it releases with the lists
    well-formed. *)
Lemma releases_call NBUF c pid w :
  links_ok NBUF (cache w) -> quiet (cache w) ->
  releases (fun _ c' => links_ok NBUF c') (call_trace NBUF c pid w).
Proof.
  intros Hok Hq. pose proof Hok as (Hb & _).
  destruct c as [dev0 blockno0|b|b|b|b]; unfold call_trace.
  - unfold bread. rewrite trace_bind. apply releases_app.
    + apply releases_bget; try done.
      * intros _ c1 c2. apply links_ok_same_mem.
      * unfold bget_cache. intros _.
        destruct (cached (cache w) dev0 blockno0) as [j|] eqn:Ec.
        -- by apply links_ok_keep.
        -- destruct (first_free (cache w)) as [j|] eqn:Ef; [|done].
           apply recycle_links_ok; [done|].
           pose proof (proj1 (first_free_Some _ _) Ef) as (Hj & _). by rewrite Hb in Hj.
    + destruct (run _ _ _) as [a w0| | | |]; [|by constructor..].
      apply releases_of_uses, bread_fill_no_release.
  - apply releases_of_uses. unfold bwrite. simpl. constructor; [done|]. intros r.
    destruct (negb r); repeat (constructor; try done).
  - unfold brelse.
    change (trace (mbind ?k (holdingsleep b)) pid w)
      with ((EvHoldingsleep b, w) :: trace (k (sleep_held pid w b)) pid w).
    apply releases_cons. split; [done|]. cbv beta.
    destruct (sleep_held pid w b); [|constructor]. cbn [negb].
    change (trace (mbind ?k (releasesleep b)) pid w)
      with ((EvReleasesleep b, w) :: trace (k tt) pid (on_cache (assign b (with_lock None)) w)).
    apply releases_cons. split; [done|]. cbv beta.
    apply releases_get. cbv beta zeta. apply releases_acquire, releases_set. cbv beta.
    apply releases_cons. split; [|constructor]. unfold at_release. simpl.
    rewrite <- set_spin_assign. eapply links_ok_same_mem; [apply same_mem_sym, same_mem_set_spin|].
    apply links_ok_keep; try done. by apply links_ok_keep.
  - unfold bpin. apply releases_get. cbv beta zeta.
    apply releases_acquire, releases_set. cbv beta.
    apply releases_cons. split; [|constructor]. unfold at_release. simpl.
    rewrite <- set_spin_assign. eapply links_ok_same_mem; [apply same_mem_sym, same_mem_set_spin|].
    by apply links_ok_keep.
  - unfold bunpin. apply releases_get. cbv beta zeta.
    apply releases_acquire, releases_set. cbv beta.
    apply releases_cons. split; [|constructor]. unfold at_release. simpl.
    rewrite <- set_spin_assign. eapply links_ok_same_mem; [apply same_mem_sym, same_mem_set_spin|].
    by apply links_ok_keep.
Qed.
(** ** The example states are reachable *)

Lemma turns1_run : exists s, sys_run 2 (sys_boot 2 1 disk0) turns1 = Some (labels1, s).
Proof. eexists. vm_compute. reflexivity. Qed.

Lemma world_after_state_ok NBUF BSIZE d ts :
  is_Some (sys_run NBUF (sys_boot NBUF BSIZE d) ts) ->
  forallb (counted (cache (world_after NBUF BSIZE d ts))) (seq 0 NBUF) = true ->
  state_ok NBUF (cache (world_after NBUF BSIZE d ts)).
Proof.
  unfold world_after. intros [[lbs s] Hrun]. rewrite Hrun. intros Hall.
  destruct (sys_reach_inv NBUF BSIZE d ts lbs s Hrun) as [[(Hok & Hq & _) _] _].
  split; [done|]. split; [done|]. intros j Hj.
  rewrite forallb_forall in Hall.
  assert (Hc : counted (cache (sys_world s)) j = true).
  { apply Hall. apply in_seq. lia. }
  unfold counted in Hc. apply andb_prop in Hc as [H0 H1]. split; [lia|].
  destruct (lock (deref (cache (sys_world s)) (Bf j))); [lia|done].
Qed.

Lemma world3_state_ok : state_ok 3 (cache world3).
Proof.
  apply world_after_state_ok; [|vm_compute; reflexivity].
  assert (is_Some_b : match sys_run 3 (sys_boot 3 1 disk0) [Call 9 (Bread 1 0)] with
                      | Some _ => true | None => false end = true) by (vm_compute; reflexivity).
  destruct (sys_run 3 _ _); [by eexists|discriminate].
Qed.

Lemma world4_state_ok : state_ok 2 (cache world4).
Proof.
  apply world_after_state_ok; [|vm_compute; reflexivity].
  assert (is_Some_b : match sys_run 2 (sys_boot 2 1 disk0)
                              [Call 9 (Bread 1 0); Call 9 (Bread 1 2)] with
                      | Some _ => true | None => false end = true) by (vm_compute; reflexivity).
  destruct (sys_run 2 _ _); [by eexists|discriminate].
Qed.

(** C3: on a miss with a free slot in the pool, [bget] takes the first slot
    in index order whose reference count is zero: it gives it the requested
    device and block number, clears [valid], sets the count to one and
    returns it; the slots whose count is not zero keep their identity, their
    flag and their count. *)
Theorem bget_claims_first_free NBUF dev0 blockno0 pid w :
  state_ok NBUF (cache w) ->
  (forall i, (i < NBUF)%nat -> has_key (cache w) dev0 blockno0 i = false) ->
  (exists i, (i < NBUF)%nat /\ (deref (cache w) (Bf i)).(refcnt) = 0) ->
  exists j w',
    run (bget NBUF dev0 blockno0) pid w = Done (Bf j) w' /\
    first_free (cache w) = Some j /\
    (j < NBUF)%nat /\
    (deref (cache w) (Bf j)).(refcnt) = 0 /\
    (forall i, (i < j)%nat -> (deref (cache w) (Bf i)).(refcnt) <> 0) /\
    (deref (cache w') (Bf j)).(dev) = dev0 /\
    (deref (cache w') (Bf j)).(blockno) = blockno0 /\
    (deref (cache w') (Bf j)).(valid) = false /\
    (deref (cache w') (Bf j)).(refcnt) = 1 /\
    (forall i, (i < NBUF)%nat -> (deref (cache w) (Bf i)).(refcnt) <> 0 ->
       (deref (cache w') (Bf i)).(dev) = (deref (cache w) (Bf i)).(dev) /\
       (deref (cache w') (Bf i)).(blockno) = (deref (cache w) (Bf i)).(blockno) /\
       (deref (cache w') (Bf i)).(valid) = (deref (cache w) (Bf i)).(valid) /\
       (deref (cache w') (Bf i)).(refcnt) = (deref (cache w) (Bf i)).(refcnt)).
Proof.
  intros (Hok & Hq & Hcnt) Hmiss (i0 & Hi0 & Hfree0).
  pose proof Hok as (Hb & _).
  assert (Hc : cached (cache w) dev0 blockno0 = None) by by apply (cached_None NBUF).
  destruct (first_free (cache w)) as [j|] eqn:Ef.
  2:{ exfalso. rewrite first_free_None in Ef. apply (Ef i0); [lia|done]. }
  pose proof (proj1 (first_free_Some _ _) Ef) as (Hj & Hfree & Hlow). rewrite Hb in Hj.
  assert (Hr : in_range (cache w) (Bf j)) by (simpl; lia).
  set (c' := recycle dev0 blockno0 j (cache w)).
  assert (Hlk : sleep_free (on_cache (fun _ => c') w) (Bf j) = true).
  { unfold sleep_free. rewrite cache_on_cache. unfold c'.
    destruct (deref_recycle_taken (cache w) dev0 blockno0 j Hr) as (_ & _ & _ & _ & -> & _).
    destruct (Hcnt j Hj) as [_ Hl].
    destruct (lock (deref (cache w) (Bf j))); [|done]. exfalso.
    assert (1 <= 0); [|lia]. rewrite <- Hfree. by apply Hl. }
  exists j, (on_cache (assign (Bf j) (with_lock (Some pid))) (on_cache (fun _ => c') w)).
  split.
  { rewrite run_bget by done. rewrite bget_slot_miss, Ef by done.
    rewrite (bget_cache_miss _ _ _ j) by done. by apply run_acquiresleep_free. }
  split; [done|]. split; [done|]. split; [done|]. split; [done|].
  rewrite !cache_on_cache.
  assert (Hr' : in_range c' (Bf j)).
  { unfold c'. simpl. rewrite recycle_length_buf. simpl in Hr. done. }
  destruct (deref_recycle_taken (cache w) dev0 blockno0 j Hr) as (Hd & Hn & Hv & Hrc & _).
  rewrite deref_assign_eq by done. fold c' in Hd, Hn, Hv, Hrc.
  split; [done|]. split; [done|]. split; [done|]. split; [done|].
  intros i Hi Hbusy. assert (i <> j) by (intros ->; done).
  rewrite deref_assign_ne by congruence.
  destruct (deref_recycle_other (cache w) dev0 blockno0 j i) as (? & ? & ? & ? & _); done.
Qed.

Lemma bget_claims_first_free_witness :
  exists j w',
    run (bget 3 1 5) pid7 world3 = Done (Bf j) w' /\
    first_free (cache world3) = Some j /\
    (j < 3)%nat /\
    (deref (cache world3) (Bf j)).(refcnt) = 0 /\
    (forall i, (i < j)%nat -> (deref (cache world3) (Bf i)).(refcnt) <> 0) /\
    (deref (cache w') (Bf j)).(dev) = 1 /\
    (deref (cache w') (Bf j)).(blockno) = 5 /\
    (deref (cache w') (Bf j)).(valid) = false /\
    (deref (cache w') (Bf j)).(refcnt) = 1 /\
    (forall i, (i < 3)%nat -> (deref (cache world3) (Bf i)).(refcnt) <> 0 ->
       (deref (cache w') (Bf i)).(dev) = (deref (cache world3) (Bf i)).(dev) /\
       (deref (cache w') (Bf i)).(blockno) = (deref (cache world3) (Bf i)).(blockno) /\
       (deref (cache w') (Bf i)).(valid) = (deref (cache world3) (Bf i)).(valid) /\
       (deref (cache w') (Bf i)).(refcnt) = (deref (cache world3) (Bf i)).(refcnt)).
Proof.
  apply (bget_claims_first_free 3 1 5 pid7 world3).
  - exact world3_state_ok.
  - intros i Hi. destruct i as [|[|[|i]]]; [vm_compute; reflexivity..|lia].
  - exists 1%nat. split; [lia|]. vm_compute. reflexivity.
Defined.

(** C4: when every slot of the pool is held and none has the requested key,
    [bget] returns no buffer: it panics with "bget: no buffers"; and a panic
    of [bget] is this one and happens in that case only. *)
Theorem bget_no_buffers NBUF dev0 blockno0 pid w :
  state_ok NBUF (cache w) ->
  ((forall i, (i < NBUF)%nat -> 0 < (deref (cache w) (Bf i)).(refcnt)) ->
   (forall i, (i < NBUF)%nat -> has_key (cache w) dev0 blockno0 i = false) ->
   run (bget NBUF dev0 blockno0) pid w = Panicked "bget: no buffers" w) /\
  (forall msg w',
     run (bget NBUF dev0 blockno0) pid w = Panicked msg w' ->
     msg = "bget: no buffers"%string /\ w' = w /\
     (forall i, (i < NBUF)%nat -> 0 < (deref (cache w) (Bf i)).(refcnt)) /\
     (forall i, (i < NBUF)%nat -> has_key (cache w) dev0 blockno0 i = false)).
Proof.
  intros (Hok & Hq & Hcnt). pose proof Hok as (Hb & _). split.
  - intros Hheld Hmiss. rewrite run_bget by done.
    assert (Hc : cached (cache w) dev0 blockno0 = None) by by apply (cached_None NBUF).
    rewrite bget_slot_miss by done.
    assert (Hf : first_free (cache w) = None).
    { apply first_free_None. intros i Hi. rewrite Hb in Hi. specialize (Hheld i Hi). lia. }
    by rewrite Hf.
  - intros msg w'. rewrite run_bget by done. unfold bget_slot.
    destruct (cached (cache w) dev0 blockno0) as [j|] eqn:Ec.
    { simpl. destruct (sleep_free _ _); discriminate. }
    destruct (first_free (cache w)) as [j|] eqn:Ef.
    { simpl. destruct (sleep_free _ _); discriminate. }
    intros [= <- <-]. split; [done|]. split; [done|]. split.
    + intros i Hi. rewrite first_free_None in Ef.
      destruct (Hcnt i Hi) as [Hge _]. assert (Hi' := Hi). rewrite <- Hb in Hi'.
      specialize (Ef i Hi'). lia.
    + by apply (cached_None NBUF).
Qed.

Lemma bget_no_buffers_witness :
  run (bget 2 1 5) pid7 world4 = Panicked "bget: no buffers" world4 /\
  (forall msg w',
     run (bget 2 1 5) pid7 world4 = Panicked msg w' ->
     msg = "bget: no buffers"%string /\ w' = world4 /\
     (forall i, (i < 2)%nat -> 0 < (deref (cache world4) (Bf i)).(refcnt)) /\
     (forall i, (i < 2)%nat -> has_key (cache world4) 1 5 i = false)).
Proof.
  destruct (bget_no_buffers 2 1 5 pid7 world4 world4_state_ok) as [H1 H2].
  split; [apply H1|exact H2].
  - intros i Hi. destruct i as [|[|i]]; [vm_compute; reflexivity..|lia].
  - intros i Hi. destruct i as [|[|i]]; [vm_compute; reflexivity..|lia].
Defined.

(** C10: [bwrite] on a buffer whose sleep-lock the caller holds leaves the
    cache as it is, every field of every slot, every list and every lock: all
    it does is one transfer of the payload to the disk. *)
Theorem bwrite_frame b pid w :
  sleep_held pid w b = true ->
  exists w',
    run (bwrite b) pid w = Done tt w' /\
    cache w' = cache w /\
    trace (bwrite b) pid w = [(EvHoldingsleep b, w); (EvDisk_rw b true, w)] /\
    w' = virtio_disk_rw b true w /\
    disk w' (deref (cache w) b).(dev) (deref (cache w) b).(blockno) = (deref (cache w) b).(data).
Proof.
  intros Hheld. exists (virtio_disk_rw b true w).
  unfold bwrite. simpl. rewrite Hheld. simpl.
  split; [done|]. split; [done|]. split; [done|]. split; [done|].
  by rewrite !Z.eqb_refl.
Qed.

Lemma bwrite_frame_witness :
  exists w',
    run (bwrite (Bf 0)) pid7 world1 = Done tt w' /\
    cache w' = cache world1 /\
    trace (bwrite (Bf 0)) pid7 world1 =
      [(EvHoldingsleep (Bf 0), world1); (EvDisk_rw (Bf 0) true, world1)] /\
    w' = virtio_disk_rw (Bf 0) true world1 /\
    disk w' (deref (cache world1) (Bf 0)).(dev) (deref (cache world1) (Bf 0)).(blockno) =
      (deref (cache world1) (Bf 0)).(data).
Proof. apply (bwrite_frame (Bf 0) pid7 world1). vm_compute. reflexivity. Defined.
(** C6: [bwrite] and [brelse] panic exactly when the caller does not hold the
    sleep-lock of the buffer.  When it does, [bwrite] transfers the payload
    out, and [brelse] gives the sleep-lock back and then, holding the lock of
    the bucket of the buffer, decrements the reference count. *)
Theorem bwrite_brelse_need_sleeplock b pid w :
  ((exists msg w', run (bwrite b) pid w = Panicked msg w') <-> sleep_held pid w b = false) /\
  ((exists msg w', run (brelse b) pid w = Panicked msg w') <-> sleep_held pid w b = false) /\
  (sleep_held pid w b = true ->
   run (bwrite b) pid w = Done tt (virtio_disk_rw b true w) /\
   trace (bwrite b) pid w = [(EvHoldingsleep b, w); (EvDisk_rw b true, w)]) /\
  (sleep_held pid w b = true -> quiet (cache w) ->
   let w1 := on_cache (assign b (with_lock None)) w in
   let h := HASH (deref (cache w1) b).(blockno) in
   let w2 := on_cache (set_spin (Bucket h) (Some pid)) w1 in
   let w3 := on_cache (assign b (refcnt_add (-1))) w2 in
   trace (brelse b) pid w =
     [(EvHoldingsleep b, w); (EvReleasesleep b, w); (EvDeref b, w1);
      (EvAcquire (Bucket h), w1); (EvAssign b, w2); (EvRelease (Bucket h), w3)] /\
   spin (cache w2) (Bucket h) = Some pid /\
   spin (cache w3) (Bucket h) = Some pid /\
   run (brelse b) pid w = Done tt (on_cache (set_spin (Bucket h) None) w3) /\
   on_cache (set_spin (Bucket h) None) w3 =
     on_cache (assign b (refcnt_add (-1))) (on_cache (assign b (with_lock None)) w)).
Proof.
  split; [|split; [|split]].
  - unfold bwrite. simpl. destruct (sleep_held pid w b); simpl; split.
    + intros (msg & w' & [=]).
    + done.
    + done.
    + intros _. by eexists _, _.
  - unfold brelse. simpl. destruct (sleep_held pid w b); simpl; split.
    + intros (msg & w' & H). by destruct (spin_free _ _).
    + done.
    + done.
    + intros _. by eexists _, _.
  - intros Hheld. unfold bwrite. simpl. by rewrite Hheld.
  - intros Hheld Hq w1 h w2 w3.
    assert (Hfree : spin (cache w1) (Bucket h) = None).
    { unfold w1. rewrite cache_on_cache, spin_assign. by apply quiet_spin. }
    assert (Hr : lock_in_range (cache w1) (Bucket h)).
    { unfold w1. rewrite cache_on_cache. simpl. rewrite assign_lock, (quiet_length _ Hq).
      apply HASH_lt. }
    assert (Hsf : spin_free w1 (Bucket h) = true) by (unfold spin_free; by rewrite Hfree).
    split; [|split; [|split; [|split]]].
    + unfold brelse. simpl. rewrite Hheld. simpl. fold w1.
      change (HASH (blockno (deref (assign b (with_lock None) (cache w)) b))) with h.
      rewrite Hsf. done.
    + unfold w2. rewrite cache_on_cache. by apply spin_set_spin_eq.
    + unfold w3, w2. rewrite !cache_on_cache, spin_assign. by apply spin_set_spin_eq.
    + unfold brelse. simpl. rewrite Hheld. simpl. fold w1.
      change (HASH (blockno (deref (assign b (with_lock None) (cache w)) b))) with h.
      rewrite Hsf. done.
    + unfold w3, w2. fold w1. rewrite (on_cache_on_cache _ _ w1).
      rewrite (on_cache_on_cache _ _ w1). apply on_cache_ext.
      apply unlocked_hit. unfold w1. rewrite cache_on_cache.
      by apply quiet_assign.
Qed.

Lemma bwrite_brelse_need_sleeplock_witness :
  sleep_held pid7 world1 (Bf 0) = true /\
  sleep_held 8 world1 (Bf 0) = false /\
  run (bwrite (Bf 0)) pid7 world1 = Done tt (virtio_disk_rw (Bf 0) true world1) /\
  run (brelse (Bf 0)) pid7 world1 =
    Done tt (on_cache (assign (Bf 0) (refcnt_add (-1)))
               (on_cache (assign (Bf 0) (with_lock None)) world1)) /\
  (exists msg w', run (bwrite (Bf 0)) 8 world1 = Panicked msg w') /\
  (exists msg w', run (brelse (Bf 0)) 8 world1 = Panicked msg w').
Proof.
  assert (Hheld : sleep_held pid7 world1 (Bf 0) = true) by (vm_compute; reflexivity).
  assert (Hnot : sleep_held 8 world1 (Bf 0) = false) by (vm_compute; reflexivity).
  assert (Hq : quiet (cache world1)) by (split; vm_compute; reflexivity).
  destruct (bwrite_brelse_need_sleeplock (Bf 0) pid7 world1) as (_ & _ & Hw & Hr).
  destruct (bwrite_brelse_need_sleeplock (Bf 0) 8 world1) as (Hpw & Hpr & _).
  destruct (Hw Hheld) as [Hwrun _].
  destruct (Hr Hheld Hq) as (_ & _ & _ & Hrun & Heq).
  split; [exact Hheld|]. split; [exact Hnot|]. split; [exact Hwrun|].
  split; [rewrite <- Heq; exact Hrun|].
  split; [apply Hpw; exact Hnot|apply Hpr; exact Hnot].
Defined.
(** C5, as the code has it: when the home bucket holds a slot with the
    requested key, [bread] takes the first such slot of the list.  Its
    reference count goes up by one; if its sleep-lock is free the caller gets
    it and the slot is returned, without a disk transfer when the slot is
    valid and after a transfer in when it is not; if the sleep-lock is held
    the caller sleeps with the count already incremented.  The device, block
    number, payload and valid flag of the slot, every list and every other
    slot are as before when [bget] returns. *)
Theorem bread_hit NBUF dev0 blockno0 pid w j :
  links_ok NBUF (cache w) -> quiet (cache w) ->
  cached (cache w) dev0 blockno0 = Some j ->
  let b := deref (cache w) (Bf j) in
  let w1 := on_cache (assign (Bf j) (refcnt_add 1)) w in
  let w2 := on_cache (assign (Bf j) (with_lock (Some pid))) w1 in
  (j ∈ bucket (cache w) (HASH blockno0) /\ dev b = dev0 /\ blockno b = blockno0) /\
  (sleep_free w (Bf j) = true ->
   run (bget NBUF dev0 blockno0) pid w = Done (Bf j) w2 /\
   (valid b = true ->
    run (bread NBUF dev0 blockno0) pid w = Done (Bf j) w2 /\
    Forall (fun x => no_transfer x.1) (trace (bread NBUF dev0 blockno0) pid w)) /\
   (valid b = false ->
    run (bread NBUF dev0 blockno0) pid w =
    Done (Bf j) (on_cache (assign (Bf j) (with_valid true)) (virtio_disk_rw (Bf j) false w2)))) /\
  (sleep_free w (Bf j) = false ->
   run (bread NBUF dev0 blockno0) pid w =
   Sleeping (Bf j) (Acquiresleep (Bf j) (bread_fill (Bf j))) w1) /\
  (deref (cache w2) (Bf j)).(refcnt) = b.(refcnt) + 1 /\
  (deref (cache w2) (Bf j)).(dev) = b.(dev) /\
  (deref (cache w2) (Bf j)).(blockno) = b.(blockno) /\
  (deref (cache w2) (Bf j)).(valid) = b.(valid) /\
  (deref (cache w2) (Bf j)).(data) = b.(data) /\
  (forall h, bucket (cache w2) h = bucket (cache w) h) /\
  (forall p, p <> Bf j -> deref (cache w2) p = deref (cache w) p) /\
  disk w2 = disk w.
Proof.
  intros Hok Hq Hc b w1 w2.
  destruct (cached_Some NBUF _ _ _ _ Hok Hc) as (Hj & Hjb & Hk).
  apply has_key_true in Hk as [Hd Hn]. pose proof Hok as (Hb & _).
  assert (Hr : in_range (cache w) (Bf j)) by (simpl; lia).
  assert (Hget : run (bget NBUF dev0 blockno0) pid w =
                 run (Acquiresleep (Bf j) (Ret (Bf j))) pid w1).
  { rewrite run_bget by done. rewrite (bget_slot_hit _ _ _ j) by done.
    rewrite (bget_cache_hit _ _ _ j) by done. done. }
  assert (Hsf : sleep_free w1 (Bf j) = sleep_free w (Bf j)) by by apply sleep_free_keep.
  assert (Hb2 : deref (cache w2) (Bf j) = with_lock (Some pid) (refcnt_add 1 b)).
  { unfold w2, w1. rewrite !cache_on_cache.
    rewrite deref_assign_eq by (by rewrite in_range_assign). by rewrite deref_assign_eq. }
  split; [done|]. split; [|split].
  - intros Hfree. rewrite <- Hsf in Hfree.
    assert (Hget' : run (bget NBUF dev0 blockno0) pid w = Done (Bf j) w2).
    { rewrite Hget. by apply run_acquiresleep_free. }
    split; [done|]. split.
    + intros Hv. unfold bread. rewrite run_bind, trace_bind, Hget'.
      unfold bread_fill. rewrite run_get, trace_get. cbv beta.
      rewrite Hb2. change (valid (with_lock (Some pid) (refcnt_add 1 b))) with (valid b).
      rewrite Hv. split; [done|].
      apply Forall_app. split.
      * apply uses_trace, bget_no_transfer.
      * by repeat constructor.
    + intros Hv. unfold bread. rewrite run_bind, Hget'.
      unfold bread_fill. rewrite run_get. cbv beta.
      rewrite Hb2. change (valid (with_lock (Some pid) (refcnt_add 1 b))) with (valid b).
      rewrite Hv. done.
  - intros Hbusy. rewrite <- Hsf in Hbusy. unfold bread. rewrite run_bind, Hget.
    rewrite run_acquiresleep_busy by done. done.
  - rewrite Hb2. simpl. fold b.
    split; [done|]. split; [done|]. split; [done|]. split; [done|]. split; [done|].
    split; [|split; [|done]].
    + intros h. unfold w2, w1. rewrite ?cache_on_cache. by rewrite !bucket_assign_keep.
    + intros p Hp. unfold w2, w1. rewrite ?cache_on_cache. by rewrite !deref_assign_ne.
Qed.

Lemma bread_hit_witness :
  run (bread 2 0 0) pid7 (boot 2 1 disk0) =
  Done (Bf 1)
       (on_cache (assign (Bf 1) (with_valid true))
          (virtio_disk_rw (Bf 1) false
             (on_cache (assign (Bf 1) (with_lock (Some pid7)))
                (on_cache (assign (Bf 1) (refcnt_add 1)) (boot 2 1 disk0))))).
Proof.
  assert (Hc : cached (cache (boot 2 1 disk0)) 0 0 = Some 1%nat) by (vm_compute; reflexivity).
  destruct (bread_hit 2 0 0 pid7 (boot 2 1 disk0) 1 (boot_links_ok 2 1 disk0)
              (boot_quiet 2 1 disk0) Hc) as (_ & H & _).
  assert (Hfree : sleep_free (boot 2 1 disk0) (Bf 1) = true) by (vm_compute; reflexivity).
  destruct (H Hfree) as (_ & _ & Hv). apply Hv. vm_compute. reflexivity.
Defined.

(** C5 as stated fails on the cache [binit] leaves: every slot has the key
    (0, 0) and is in the list of bucket 0, slot 0 among them, yet
    [bread(0, 0)] returns slot 1, the first of the list. *)
Lemma bread_hit_not_any_slot :
  has_key (cache (boot 2 1 disk0)) 0 0 0 = true /\
  0%nat ∈ bucket (cache (boot 2 1 disk0)) (HASH 0) /\
  exists b w', run (bread 2 0 0) pid7 (boot 2 1 disk0) = Done b w' /\ b <> Bf 0.
Proof.
  split; [vm_compute; reflexivity|]. split.
  - replace (bucket (cache (boot 2 1 disk0)) (HASH 0)) with [1%nat; 0%nat]
      by (vm_compute; reflexivity).
    set_solver.
  - eexists (Bf 1), _. split; [vm_compute; reflexivity|]. discriminate.
Qed.
(** ** Releases that do occur *)

Section OccurSteps.
Context {B : Type} (l : lockid) (Q : bcache -> Prop) (pid : nat).









End OccurSteps.







(** C1: in every state the cache reaches from [binit] by turns of callers,
    each a public operation or the wake-up of a sleeper, at most one slot is
    valid for a given device and block number. *)
Theorem valid_slot_unique NBUF BSIZE d ts lbs s :
  sys_run NBUF (sys_boot NBUF BSIZE d) ts = Some (lbs, s) ->
  forall i j, (i < NBUF)%nat -> (j < NBUF)%nat ->
    let bi := deref s.(sys_world).(cache) (Bf i) in
    let bj := deref s.(sys_world).(cache) (Bf j) in
    bi.(valid) = true -> bj.(valid) = true ->
    bi.(dev) = bj.(dev) -> bi.(blockno) = bj.(blockno) ->
    i = j.
Proof.
  intros Hrun i j Hi Hj bi bj Hvi Hvj Hd Hn.
  destruct (sys_reach_inv NBUF BSIZE d ts lbs s Hrun) as [[(_ & _ & Hfirst) _] _].
  pose proof (Hfirst i Hi Hvi) as Hfi. pose proof (Hfirst j Hj Hvj) as Hfj.
  unfold first_of_key in Hfi, Hfj. fold bi in Hfi. fold bj in Hfj.
  rewrite Hd, Hn in Hfi. congruence.
Qed.

Lemma valid_slot_unique_witness :
  exists s,
    sys_run 2 (sys_boot 2 1 disk0) turns1 = Some (labels1, s) /\
    forall i j, (i < 2)%nat -> (j < 2)%nat ->
      let bi := deref s.(sys_world).(cache) (Bf i) in
      let bj := deref s.(sys_world).(cache) (Bf j) in
      bi.(valid) = true -> bj.(valid) = true ->
      bi.(dev) = bj.(dev) -> bi.(blockno) = bj.(blockno) ->
      i = j.
Proof.
  destruct turns1_run as [s Hs]. exists s. split; [exact Hs|].
  exact (valid_slot_unique 2 1 disk0 turns1 labels1 s Hs).
Defined.
Lemma count_label_cons f lb lbs :
  count_label f (lb :: lbs) = ((if f lb then 1 else 0) + count_label f lbs)%nat.
Proof.
  unfold count_label. rewrite filter_cons.
  destruct (f lb); case_decide; simpl; congruence.
Qed.

Lemma outstanding_counts b lbs :
  outstanding b lbs =
  (Z.of_nat (count_label (is_read b) lbs) - Z.of_nat (count_label (is_release b) lbs)) +
  (Z.of_nat (count_label (is_pin b) lbs) - Z.of_nat (count_label (is_unpin b) lbs)).
Proof.
  induction lbs as [|lb lbs IH]; [done|].
  rewrite !count_label_cons. cbn [outstanding]. rewrite IH.
  destruct lb as [b'|b'|b'|b'|b'|b']; cbn [hold_delta is_read is_release is_pin is_unpin];
    destruct (ptr_eqb b' b); lia.
Qed.

(** C8: along every sequence of calls and wake-ups from [binit] in which no
    release comes before its read and no unpin before its pin, the count of
    every slot is the number of reads of it not yet released plus the number
    of pins of it not yet undone, and it is never negative. *)
Theorem refcnt_counts_holds NBUF BSIZE d ts lbs s :
  sys_run NBUF (sys_boot NBUF BSIZE d) ts = Some (lbs, s) ->
  paired lbs ->
  forall j, (j < NBUF)%nat ->
    let held := (count_label (is_read (Bf j)) lbs - count_label (is_release (Bf j)) lbs)%nat in
    let pinned := (count_label (is_pin (Bf j)) lbs - count_label (is_unpin (Bf j)) lbs)%nat in
    (deref s.(sys_world).(cache) (Bf j)).(refcnt) = Z.of_nat (held + pinned) /\
    (deref s.(sys_world).(cache) (Bf j)).(refcnt) = outstanding (Bf j) lbs /\
    0 <= (deref s.(sys_world).(cache) (Bf j)).(refcnt).
Proof.
  intros Hrun Hp j Hj held pinned.
  destruct (sys_reach_inv NBUF BSIZE d ts lbs s Hrun) as [_ Hcnt].
  specialize (Hcnt j Hj). rewrite Hcnt, outstanding_counts.
  destruct (Hp (length lbs) (Bf j)) as [H1 H2]. rewrite firstn_all in H1, H2.
  subst held pinned. lia.
Qed.

Lemma paired_labels1 : paired labels1.
Proof.
  intros n b. unfold labels1.
  do 9 (destruct n as [|n]; [unfold count_label; cbn [take]; rewrite ?filter_cons, ?filter_nil;
    cbn [is_read is_release is_pin is_unpin]; destruct (ptr_eqb (Bf 0) b);
    repeat case_decide; try congruence; cbn [length]; lia|]).
  cbn [take]. unfold count_label; rewrite ?filter_cons, ?filter_nil;
    cbn [is_read is_release is_pin is_unpin]; destruct (ptr_eqb (Bf 0) b);
    repeat case_decide; try congruence; cbn [length]; lia.
Qed.

Lemma refcnt_counts_holds_witness :
  exists s,
    sys_run 2 (sys_boot 2 1 disk0) turns1 = Some (labels1, s) /\
    paired labels1 /\
    (deref s.(sys_world).(cache) (Bf 0)).(refcnt) = 1 /\
    0 <= (deref s.(sys_world).(cache) (Bf 0)).(refcnt).
Proof.
  destruct turns1_run as [s Hs]. exists s. split; [exact Hs|]. split; [exact paired_labels1|].
  destruct (refcnt_counts_holds 2 1 disk0 turns1 labels1 s Hs paired_labels1 0%nat) as (H1 & _ & H3).
  - lia.
  - split; [exact H1|exact H3].
Defined.
(** C2: after [binit] and after every turn of a caller, every bucket list is
    well formed and every slot of the pool is in exactly one of them, the one
    its current block number hashes to; and in every call made from such a
    state this already holds each time the call releases a spinlock, so a
    slot that [bget] re-keys is in its new bucket before the first release. *)
Theorem bucket_membership_consistent NBUF BSIZE d ts lbs s :
  sys_run NBUF (sys_boot NBUF BSIZE d) ts = Some (lbs, s) ->
  consistent NBUF s.(sys_world).(cache) /\
  forall pid c,
    releases (fun _ c' => consistent NBUF c') (call_trace NBUF c pid s.(sys_world)).
Proof.
  intros Hrun.
  destruct (sys_reach_inv NBUF BSIZE d ts lbs s Hrun) as [[(Hok & Hq & _) _] _].
  split; [by apply links_ok_consistent|].
  intros pid c. eapply releases_impl; [|by apply releases_call].
  intros l c'. apply links_ok_consistent.
Qed.

Lemma bucket_membership_consistent_witness :
  exists s,
    sys_run 2 (sys_boot 2 1 disk0) turns1 = Some (labels1, s) /\
    consistent 2 s.(sys_world).(cache) /\
    releases (fun _ c' => consistent 2 c') (call_trace 2 (Bread 1 6) pid7 s.(sys_world)).
Proof.
  destruct turns1_run as [s Hs]. exists s. split; [exact Hs|].
  destruct (bucket_membership_consistent 2 1 disk0 turns1 labels1 s Hs) as [H1 H2].
  split; [exact H1|exact (H2 pid7 (Bread 1 6))].
Defined.
Lemma step_spinning {A : Type} t (p : prog A) w l w' :
  step t p w = Over (Spinning l w') -> w' = w.
Proof.
  destruct p; simpl; try discriminate.
  - destruct (spin_free w l0); [discriminate|]. congruence.
  - destruct (sleep_free w b); discriminate.
Qed.

Lemma blocked_on_waits {A : Type} (ts : list (prog A)) w t l holder :
  blocked_on ts w t = Some (l, holder) -> waits_for ts w t l holder.
Proof.
  unfold blocked_on, waits_for. intros H.
  destruct (ts !! t) as [p|]; [|discriminate]. exists p. split; [done|].
  destruct (step t p w) as [| [| | |l' w'|]] eqn:Hst; try discriminate.
  apply step_spinning in Hst as Hw. subst w'.
  destruct (spin (cache w) l') as [holder'|] eqn:Hsp; [|discriminate].
  case_decide as Hd; [|discriminate]. injection H as -> ->.
  by destruct Hd.
Qed.

(** In a deadlock no caller of the pool can take a step, whatever the
    schedule. *)
Lemma deadlocked_stuck {A : Type} (ts : list (prog A)) w t :
  deadlocked ts w -> sched_step ts w t = None.
Proof.
  intros Hdead. unfold sched_step.
  destruct (ts !! t) as [p|] eqn:Hp; [|done].
  assert (Ht : (t < length ts)%nat) by by eapply lookup_lt_Some.
  destruct (Hdead t Ht) as (l & holder & p' & Hp' & Hst & _).
  rewrite Hp in Hp'. injection Hp' as <-. by rewrite Hst.
Qed.

(** C9: [bget] can deadlock.  In a reachable state of a pool of two slots,
    where slot 0 is held in bucket 0 and slot 1 is free in bucket 2, a miss
    for block 1 and a miss for block 13 must both take slot 1 from bucket 2,
    and each returns it when it runs alone; interleaved, caller 0 holds the
    lock of bucket 1 and the master lock and waits for the lock of bucket 0 to
    look at slot 0, while caller 1 holds the lock of bucket 0 and waits for
    the master lock, and no caller can take another step. *)
Theorem bget_deadlock :
  (exists lbs s, sys_run 2 (sys_boot 2 1 disk0) turns9 = Some (lbs, s) /\
                 s.(sys_world) = world9 /\ s.(sys_sleepers) = []) /\
  (cached world9.(cache) 1 1 = None /\ cached world9.(cache) 1 13 = None /\
   first_free world9.(cache) = Some 1%nat /\ home world9.(cache) 1 = 2%nat) /\
  (exists w, run (bget 2 1 1) 0 world9 = Done (Bf 1) w) /\
  (exists w, run (bget 2 1 13) 1 world9 = Done (Bf 1) w) /\
  exists ts w,
    sched pool9 world9 order9 = Some (ts, w) /\
    deadlocked ts w /\
    waits_for ts w 0 (Bucket 0) 1 /\ waits_for ts w 1 Master 0 /\
    forall t, sched_step ts w t = None.
Proof.
  split.
  { assert (match sys_run 2 (sys_boot 2 1 disk0) turns9 with
            | Some (_, s) => match s.(sys_sleepers) with [] => true | _ => false end
            | None => false
            end = true) as H by (vm_compute; reflexivity).
    unfold world9, world_after.
    destruct (sys_run 2 (sys_boot 2 1 disk0) turns9) as [[lbs s]|]; [|discriminate].
    exists lbs, s. split; [done|]. split; [done|]. by destruct (sys_sleepers s). }
  split; [repeat split; vm_compute; reflexivity|].
  split; [eexists; vm_compute; reflexivity|].
  split; [eexists; vm_compute; reflexivity|].
  assert (match sched pool9 world9 order9 with
          | Some (ts, w) =>
            (length ts =? 2)%nat &&
            bool_decide (blocked_on ts w 0 = Some (Bucket 0, 1%nat)) &&
            bool_decide (blocked_on ts w 1 = Some (Master, 0%nat))
          | None => false
          end = true) as H by (vm_compute; reflexivity).
  destruct (sched pool9 world9 order9) as [[ts w]|]; [|discriminate].
  apply andb_prop in H as [H H1]. apply andb_prop in H as [Hlen H0].
  apply Nat.eqb_eq in Hlen. apply bool_decide_eq_true in H0, H1.
  apply blocked_on_waits in H0, H1.
  assert (Hdead : deadlocked ts w).
  { intros t Ht. rewrite Hlen in Ht.
    destruct t as [|[|t]]; [by eexists _, _..|lia]. }
  exists ts, w. split; [done|]. split; [done|]. split; [done|]. split; [done|].
  intros t. by apply deadlocked_stuck.
Qed.
(** * More properties of the code *)

(** [binit] returns, whoever runs it. *)
Lemma run_binit NBUF BSIZE d pid :
  exists w,
    run (binit NBUF) pid (mkworld (bcache_zero NBUF BSIZE) d) = Done tt w /\
    binit_inv NBUF BSIZE NBUF (cache w) /\ disk w = d.
Proof.
  unfold binit. rewrite run_initlock. cbv beta.
  set (w0 := on_cache (set_spin Master None) (mkworld (bcache_zero NBUF BSIZE) d)).
  rewrite run_bind.
  destruct (run_binit_heads NBUCKET 0 pid w0) as (w1 & Hrun & Hdk & Hb & Hm & Hl & Hh & _ & Hhd).
  { done. }
  { unfold w0, bcache_zero. rewrite cache_on_cache, set_spin_head. apply length_replicate. }
  { done. }
  rewrite Hrun.
  destruct (run_binit_bufs NBUF BSIZE NBUF 0 pid w1) as (w2 & Hrun2 & Hdk2 & Hinv).
  { done. }
  { split; [|split; [|split]].
    - rewrite Hb. unfold w0, bcache_zero. rewrite cache_on_cache, set_spin_buf.
      apply length_replicate.
    - split; [by rewrite Hm|done].
    - intros j Hj. unfold deref. rewrite Hb. unfold w0, bcache_zero.
      rewrite cache_on_cache, set_spin_buf. cbn [bcache_buf cache].
      rewrite lookup_replicate_2 by done. done.
    - split; [done|]. split; [|split].
      + intros h Hlt. destruct (Hhd h) as [H1 H2]; [lia|].
        replace (if decide (h = 0%nat) then reverse (seq 0 0) else []) with (@nil nat)
          by (by destruct (decide _)).
        split; [done|constructor].
      + intros h j Hlt Hj. exfalso.
        destruct (decide (h = 0%nat)); simpl in Hj; by apply elem_of_nil in Hj.
      + intros j Hj. lia. }
  exists w2. rewrite Hrun2. split; [done|]. split; [done|]. by rewrite Hdk2, Hdk.
Qed.

(** X1: [binit], run on the zeroed static storage, returns and leaves a
    cache that every later call can start from: no lock is held, every slot
    of the pool is unused, unlocked and linked in the list of bucket 0, the
    last slot of the array at the front, every other bucket list is empty, and
    the disk has not been touched. *)
Theorem binit_establishes NBUF BSIZE d pid :
  exists w,
    run (binit NBUF) pid (mkworld (bcache_zero NBUF BSIZE) d) = Done tt w /\
    disk w = d /\
    state_ok NBUF (cache w) /\
    bucket (cache w) 0 = reverse (seq 0 NBUF) /\
    (forall h, (0 < h < NBUCKET)%nat -> bucket (cache w) h = []) /\
    (forall j, (j < NBUF)%nat -> fresh_buf BSIZE (deref (cache w) (Bf j))).
Proof.
  destruct (run_binit NBUF BSIZE d pid) as (w & Hrun & Hinv & Hd).
  exists w. split; [done|]. split; [done|].
  pose proof Hinv as (Hb & Hq & Hfresh & Hsh).
  split.
  { split; [by eapply binit_inv_links_ok|]. split; [done|].
    intros j Hj. destruct (Hfresh j Hj) as (_ & _ & _ & Hl & Hr & _).
    rewrite Hl, Hr. split; [lia|done]. }
  split.
  { rewrite (shape_bucket _ _ _ _ 0%nat Hsh) by (unfold NBUCKET; lia). done. }
  split.
  { intros h [Hh0 Hh]. rewrite (shape_bucket _ _ _ _ h Hsh Hh).
    destruct (decide (h = 0%nat)); [lia|done]. }
  done.
Qed.
(** ** The slot [bget] hands out *)

Lemma bget_slot_lt NBUF c dev0 blockno0 j :
  links_ok NBUF c -> bget_slot c dev0 blockno0 = Some j -> (j < NBUF)%nat.
Proof.
  intros Hok. pose proof Hok as (Hb & _). unfold bget_slot.
  destruct (cached c dev0 blockno0) as [i|] eqn:Ec.
  - intros [= <-]. by destruct (cached_Some NBUF c dev0 blockno0 i Hok Ec).
  - intros Hf. apply first_free_Some in Hf as (Hj & _). by rewrite <- Hb.
Qed.

(** The slot handed out has the requested key; on a hit nothing else of it
    changes but the count, on a miss it is invalid with a count of one. *)
Lemma bget_cache_slot NBUF c dev0 blockno0 j :
  links_ok NBUF c -> bget_slot c dev0 blockno0 = Some j ->
  let b := deref c (Bf j) in
  let b' := deref (bget_cache c dev0 blockno0) (Bf j) in
  dev b' = dev0 /\ blockno b' = blockno0 /\ lock b' = lock b /\ data b' = data b /\
  (cached c dev0 blockno0 = Some j ->
   valid b' = valid b /\ refcnt b' = refcnt b + 1) /\
  (cached c dev0 blockno0 = None ->
   valid b' = false /\ refcnt b' = 1 /\ refcnt b = 0).
Proof.
  intros Hok Hs b b'. pose proof Hok as (Hb & _).
  pose proof (bget_slot_lt NBUF c dev0 blockno0 j Hok Hs) as Hj.
  assert (Hr : in_range c (Bf j)) by (simpl; lia).
  unfold bget_slot in Hs. subst b'. unfold bget_cache.
  destruct (cached c dev0 blockno0) as [i|] eqn:Ec.
  - injection Hs as ->.
    destruct (cached_Some NBUF c dev0 blockno0 j Hok Ec) as (_ & _ & Hk).
    apply has_key_true in Hk as [Hd Hn].
    rewrite deref_assign_eq by done. fold b. simpl.
    split; [done|]. split; [done|]. split; [done|]. split; [done|].
    split; [done|]. intros [=].
  - rewrite Hs.
    destruct (deref_recycle_taken c dev0 blockno0 j Hr) as (Hd & Hn & Hv & Hrc & Hl & Hdt).
    split; [done|]. split; [done|]. split; [done|]. split; [done|].
    split; [intros [=]|]. intros _. split; [done|]. split; [done|].
    by apply first_free_Some in Hs as (_ & ? & _).
Qed.

(** The other slots keep everything. *)
Lemma bget_cache_other c dev0 blockno0 j i :
  bget_slot c dev0 blockno0 = Some j -> i <> j ->
  let b := deref c (Bf i) in
  let b' := deref (bget_cache c dev0 blockno0) (Bf i) in
  dev b' = dev b /\ blockno b' = blockno b /\ valid b' = valid b /\ refcnt b' = refcnt b /\
  lock b' = lock b /\ data b' = data b.
Proof.
  intros Hs Hne b b'. subst b b'. unfold bget_slot in Hs. unfold bget_cache.
  destruct (cached c dev0 blockno0) as [x|] eqn:Ec.
  - injection Hs as ->. rewrite deref_assign_ne by congruence. done.
  - rewrite Hs. by apply deref_recycle_other.
Qed.

(** When [bread] returns, [bget] has handed out a slot whose sleep-lock was
    free, the caller has taken it, and the slot has been filled from the disk
    if it was not valid. *)
Lemma bread_done NBUF dev0 blockno0 pid w b w' :
  links_ok NBUF (cache w) -> quiet (cache w) ->
  run (bread NBUF dev0 blockno0) pid w = Done b w' ->
  exists j,
    b = Bf j /\ (j < NBUF)%nat /\ bget_slot (cache w) dev0 blockno0 = Some j /\
    let wf := on_cache (fun _ => bget_cache (cache w) dev0 blockno0) w in
    let wl := on_cache (assign (Bf j) (with_lock (Some pid))) wf in
    sleep_free wf (Bf j) = true /\
    w' = if valid (deref (cache wl) (Bf j)) then wl
         else on_cache (assign (Bf j) (with_valid true)) (virtio_disk_rw (Bf j) false wl).
Proof.
  intros Hok Hq. rewrite run_bread by done.
  destruct (bget_slot (cache w) dev0 blockno0) as [j|] eqn:Hs; [|discriminate].
  cbv zeta. destruct (sleep_free _ (Bf j)) eqn:Hfree; [|discriminate].
  rewrite run_bread_fill. intros [= <- <-].
  exists j. split; [done|]. split; [by eapply bget_slot_lt|]. by split; [|split].
Qed.
Lemma bget_cache_length_buf NBUF c dev0 blockno0 j :
  links_ok NBUF c -> bget_slot c dev0 blockno0 = Some j ->
  length (bcache_buf (bget_cache c dev0 blockno0)) = length (bcache_buf c).
Proof.
  intros Hok Hs. unfold bget_slot in Hs. unfold bget_cache.
  destruct (cached c dev0 blockno0) as [x|].
  - apply assign_length_buf.
  - rewrite Hs. apply recycle_length_buf.
Qed.

(** The buffer [bread] returns, field by field, and what it leaves alone. *)
Lemma bread_done_fields NBUF dev0 blockno0 pid w b w' :
  links_ok NBUF (cache w) -> quiet (cache w) ->
  run (bread NBUF dev0 blockno0) pid w = Done b w' ->
  exists j,
    b = Bf j /\ (j < NBUF)%nat /\ bget_slot (cache w) dev0 blockno0 = Some j /\
    let c1 := bget_cache (cache w) dev0 blockno0 in
    let old := deref (cache w) (Bf j) in
    let new := deref (cache w') (Bf j) in
    lock old = None /\
    dev new = dev0 /\ blockno new = blockno0 /\ valid new = true /\ lock new = Some pid /\
    refcnt new = refcnt (deref c1 (Bf j)) /\
    data new = (if valid (deref c1 (Bf j)) then data old else disk w dev0 blockno0) /\
    disk w' = disk w /\
    (forall p, p <> Bf j -> deref (cache w') p = deref c1 p) /\
    (forall h, bucket (cache w') h = bucket c1 h) /\
    bcache_lock (cache w') = bcache_lock c1 /\ bcache_master (cache w') = bcache_master c1.
Proof.
  intros Hok Hq Hrun. pose proof Hok as (Hb & _).
  destruct (bread_done NBUF dev0 blockno0 pid w b w' Hok Hq Hrun)
    as (j & -> & Hj & Hs & Hfree & Hw').
  exists j. split; [done|]. split; [done|]. split; [done|]. intros c1 old new.
  destruct (bget_cache_slot NBUF (cache w) dev0 blockno0 j Hok Hs)
    as (Hd & Hn & Hl & Hdt & _).
  fold c1 in Hd, Hn, Hl, Hdt. fold old in Hl, Hdt.
  assert (Hr1 : in_range c1 (Bf j)).
  { simpl. unfold c1. rewrite (bget_cache_length_buf NBUF _ _ _ j) by done. lia. }
  unfold sleep_free in Hfree. rewrite cache_on_cache in Hfree. fold c1 in Hfree.
  rewrite Hl in Hfree.
  assert (Hlo : lock old = None) by (by destruct (lock old)).
  rewrite !cache_on_cache in Hw'. fold c1 in Hw'.
  rewrite deref_assign_eq in Hw' by done. cbn [valid with_lock] in Hw'.
  split; [done|].
  destruct (valid (deref c1 (Bf j))) eqn:Hv.
  - subst w'. subst new. rewrite !cache_on_cache. fold c1.
    rewrite deref_assign_eq by done. cbn [dev blockno valid lock refcnt data with_lock].
    split; [done|]. split; [done|]. split; [done|]. split; [done|]. split; [done|].
    split; [done|]. split; [by rewrite !disk_on_cache|].
    split; [intros p Hp; by rewrite deref_assign_ne by congruence|].
    split; [intros h; by apply bucket_assign_keep|].
    by rewrite assign_lock, assign_master.
  - subst w'. subst new. rewrite virtio_disk_rw_in.
    rewrite !cache_on_cache. fold c1. rewrite !disk_on_cache.
    assert (Hr2 : in_range (assign (Bf j) (with_lock (Some pid)) c1) (Bf j))
      by by apply in_range_assign.
    repeat (rewrite deref_assign_eq by (by rewrite ?in_range_assign)).
    cbn [dev blockno valid lock refcnt data with_lock with_data with_valid].
    rewrite Hd, Hn.
    split; [done|]. split; [done|]. split; [done|]. split; [done|]. split; [done|].
    split; [done|]. split; [done|].
    split; [intros p Hp; by rewrite !deref_assign_ne by congruence|].
    split; [intros h; by rewrite !bucket_assign_keep|].
    by rewrite !assign_lock, !assign_master.
Qed.
(** X2: [bread] returns the block asked for.  When it returns from a
    well-formed cache whose valid slots hold what the disk has, the buffer is
    a slot of the pool with the requested device and block number, valid,
    sleep-locked by the caller, and its payload is the content of that block
    on the disk; the disk is as before and the valid slots still hold what the
    disk has. *)
Theorem bread_returns_block NBUF dev0 blockno0 pid w b w' :
  links_ok NBUF (cache w) -> quiet (cache w) -> coherent NBUF w ->
  run (bread NBUF dev0 blockno0) pid w = Done b w' ->
  (exists j, b = Bf j /\ (j < NBUF)%nat) /\
  (deref (cache w') b).(dev) = dev0 /\
  (deref (cache w') b).(blockno) = blockno0 /\
  (deref (cache w') b).(valid) = true /\
  (deref (cache w') b).(lock) = Some pid /\
  (deref (cache w') b).(data) = disk w dev0 blockno0 /\
  disk w' = disk w /\
  coherent NBUF w'.
Proof.
  intros Hok Hq Hco Hrun.
  destruct (bread_done_fields NBUF dev0 blockno0 pid w b w' Hok Hq Hrun)
    as (j & -> & Hj & Hs & _ & Hd & Hn & Hv & Hl & _ & Hdt & Hdk & Hoth & _).
  assert (Hdata : data (deref (cache w') (Bf j)) = disk w dev0 blockno0).
  { rewrite Hdt.
    destruct (valid (deref (bget_cache (cache w) dev0 blockno0) (Bf j))) eqn:Hv1; [|done].
    destruct (bget_cache_slot NBUF (cache w) dev0 blockno0 j Hok Hs)
      as (_ & _ & _ & _ & Hhit & Hmiss).
    unfold bget_slot in Hs.
    destruct (cached (cache w) dev0 blockno0) as [x|] eqn:Ec.
    - injection Hs as ->. destruct (Hhit eq_refl) as [Hvo _].
      destruct (cached_Some NBUF _ _ _ _ Hok Ec) as (_ & _ & Hk).
      apply has_key_true in Hk as [Hdo Hno].
      rewrite (Hco j Hj) by congruence. by rewrite Hdo, Hno.
    - destruct (Hmiss eq_refl) as [Hvo _]. congruence. }
  split; [by exists j|]. split; [done|]. split; [done|]. split; [done|]. split; [done|].
  split; [done|]. split; [done|].
  intros i Hi Hvi. rewrite Hdk. destruct (decide (i = j)) as [->|Hne].
  - by rewrite Hdata, Hd, Hn.
  - rewrite Hoth in * by congruence.
    destruct (bget_cache_other (cache w) dev0 blockno0 j i Hs Hne)
      as (Hdi & Hni & Hvi' & _ & _ & Hdti).
    rewrite Hdi, Hni, Hdti. apply Hco; [done|]. congruence.
Qed.

Lemma boot_coherent NBUF BSIZE d : coherent NBUF (boot NBUF BSIZE d).
Proof.
  intros j Hj Hv. destruct (boot_fresh NBUF BSIZE d j Hj) as (Hf & _). congruence.
Qed.

Lemma bread_returns_block_witness :
  exists b w',
    run (bread 2 1 5) pid7 (boot 2 1 disk5) = Done b w' /\
    (deref (cache w') b).(dev) = 1 /\
    (deref (cache w') b).(blockno) = 5 /\
    (deref (cache w') b).(valid) = true /\
    (deref (cache w') b).(lock) = Some pid7 /\
    (deref (cache w') b).(data) = disk5 1 5 /\
    coherent 2 w'.
Proof.
  assert (exists b w', run (bread 2 1 5) pid7 (boot 2 1 disk5) = Done b w') as (b & w' & Hrun).
  { eexists _, _. vm_compute. reflexivity. }
  exists b, w'. split; [exact Hrun|].
  destruct (bread_returns_block 2 1 5 pid7 (boot 2 1 disk5) b w'
              (boot_links_ok 2 1 disk5) (boot_quiet 2 1 disk5) (boot_coherent 2 1 disk5) Hrun)
    as (_ & H1 & H2 & H3 & H4 & H5 & H6 & H7).
  rewrite boot_disk in H5.
  split; [exact H1|]. split; [exact H2|]. split; [exact H3|]. split; [exact H4|].
  split; [exact H5|exact H7].
Defined.
(** A hit on a valid slot whose sleep-lock is free returns it at once, and no
    transfer takes place. *)
Lemma bread_hit_valid NBUF dev0 blockno0 pid w j :
  links_ok NBUF (cache w) -> quiet (cache w) ->
  cached (cache w) dev0 blockno0 = Some j ->
  (deref (cache w) (Bf j)).(lock) = None ->
  (deref (cache w) (Bf j)).(valid) = true ->
  run (bread NBUF dev0 blockno0) pid w =
    Done (Bf j) (on_cache (assign (Bf j) (with_lock (Some pid)))
                   (on_cache (assign (Bf j) (refcnt_add 1)) w)) /\
  Forall (fun x => no_transfer x.1) (trace (bread NBUF dev0 blockno0) pid w).
Proof.
  intros Hok Hq Hc Hl Hv. pose proof Hok as (Hb & _).
  destruct (cached_Some NBUF _ _ _ _ Hok Hc) as (Hj & _).
  assert (Hr : in_range (cache w) (Bf j)) by (simpl; lia).
  set (w1 := on_cache (assign (Bf j) (refcnt_add 1)) w).
  set (w2 := on_cache (assign (Bf j) (with_lock (Some pid))) w1).
  assert (Hsf : sleep_free w1 (Bf j) = true).
  { unfold w1. rewrite sleep_free_keep by done. unfold sleep_free. by rewrite Hl. }
  assert (Hget : run (bget NBUF dev0 blockno0) pid w = Done (Bf j) w2).
  { rewrite run_bget by done. rewrite (bget_slot_hit _ _ _ j) by done.
    rewrite (bget_cache_hit _ _ _ j) by done. by apply run_acquiresleep_free. }
  assert (Hv2 : valid (deref (cache w2) (Bf j)) = true).
  { unfold w2, w1. rewrite !cache_on_cache.
    rewrite deref_assign_eq by (by rewrite in_range_assign).
    by rewrite deref_assign_eq. }
  unfold bread. rewrite run_bind, trace_bind, Hget.
  unfold bread_fill. rewrite run_get, trace_get. cbv beta. rewrite Hv2.
  split; [done|]. apply Forall_app. split.
  - apply uses_trace, bget_no_transfer.
  - by repeat constructor.
Qed.

(** X3: a block that was read and released is still in the cache.  When
    [bread] has returned a buffer, [brelse] of it by the same caller returns,
    and the next [bread] of the same block, by any caller, returns the same
    buffer with the same payload without any disk transfer. *)
Theorem bread_again_hits NBUF dev0 blockno0 pid w b w1 :
  cache_inv NBUF (cache w) ->
  run (bread NBUF dev0 blockno0) pid w = Done b w1 ->
  exists w2,
    run (brelse b) pid w1 = Done tt w2 /\
    forall pid', exists w3,
      run (bread NBUF dev0 blockno0) pid' w2 = Done b w3 /\
      Forall (fun x => no_transfer x.1) (trace (bread NBUF dev0 blockno0) pid' w2) /\
      (deref (cache w3) b).(data) = (deref (cache w1) b).(data) /\
      (deref (cache w3) b).(valid) = true /\
      (deref (cache w3) b).(lock) = Some pid' /\
      disk w3 = disk w1.
Proof.
  intros Hinv Hrun. pose proof Hinv as (Hok & Hq & _). pose proof Hok as (Hb & _).
  destruct (bread_done_fields NBUF dev0 blockno0 pid w b w1 Hok Hq Hrun)
    as (j & -> & Hj & Hs & _ & Hd & Hn & Hv & Hl & _).
  (* the invariant after the first [bread] *)
  assert (Hinv1 : cache_inv NBUF (cache w1)).
  { assert (Hstep : sys_step NBUF (mksystem w []) (Call pid (Bread dev0 blockno0)) =
                    Some (Lread (Bf j), mksystem w1 [])).
    { unfold sys_step, sleeper. cbn [sys_sleepers sys_world find fmap option_fmap option_map].
      by rewrite Hrun. }
    assert (Hsys : sys_inv NBUF (mksystem w [])) by (split; [done|constructor]).
    destruct (sys_step_effect NBUF _ _ _ _ Hsys Hstep) as [[H _] _].
    exact H. }
  pose proof Hinv1 as (Hok1 & Hq1 & Hfirst1). pose proof Hok1 as (Hb1 & _).
  assert (Hr1 : in_range (cache w1) (Bf j)) by (simpl; lia).
  pose proof (Hfirst1 j Hj Hv) as Hf1.
  set (w2 := on_cache (assign (Bf j) (refcnt_add (-1)))
               (on_cache (assign (Bf j) (with_lock None)) w1)).
  exists w2. split.
  { rewrite run_brelse by done. unfold sleep_held. rewrite Hl. simpl.
    by rewrite Nat.eqb_refl. }
  assert (Hc2 : cache w2 = assign (Bf j) (refcnt_add (-1))
                             (assign (Bf j) (with_lock None) (cache w1)))
    by (unfold w2; by rewrite !cache_on_cache).
  assert (Hb2 : deref (cache w2) (Bf j) =
                refcnt_add (-1) (with_lock None (deref (cache w1) (Bf j)))).
  { rewrite Hc2. rewrite deref_assign_eq by (by rewrite in_range_assign).
    by rewrite deref_assign_eq. }
  assert (Hok2 : links_ok NBUF (cache w2)).
  { rewrite Hc2. by do 2 (apply links_ok_keep; try done). }
  assert (Hq2 : quiet (cache w2)).
  { rewrite Hc2. by do 2 apply quiet_assign. }
  assert (Hcached : cached (cache w2) dev0 blockno0 = Some j).
  { rewrite Hc2. rewrite !cached_assign_keep by done.
    unfold first_of_key in Hf1. by rewrite Hd, Hn in Hf1. }
  intros pid'.
  destruct (bread_hit_valid NBUF dev0 blockno0 pid' w2 j Hok2 Hq2 Hcached) as [Hrun2 Htr].
  { by rewrite Hb2. }
  { rewrite Hb2. simpl. exact Hv. }
  eexists. split; [exact Hrun2|]. split; [exact Htr|].
  rewrite ?cache_on_cache.
  assert (Hr2 : in_range (cache w2) (Bf j)).
  { rewrite Hc2. by rewrite !in_range_assign. }
  rewrite deref_assign_eq by (by rewrite in_range_assign).
  rewrite deref_assign_eq by done. rewrite Hb2. simpl.
  split; [done|]. split; [done|]. split; [done|].
  unfold w2. by rewrite ?disk_on_cache.
Qed.

Lemma boot_cache_inv NBUF BSIZE d : cache_inv NBUF (cache (boot NBUF BSIZE d)).
Proof. by destruct (sys_boot_inv NBUF BSIZE d) as [H _]. Qed.

Lemma bread_again_hits_witness :
  exists b w1 w2,
    run (bread 2 1 5) pid7 (boot 2 1 disk5) = Done b w1 /\
    run (brelse b) pid7 w1 = Done tt w2 /\
    exists w3,
      run (bread 2 1 5) 8 w2 = Done b w3 /\
      Forall (fun x => no_transfer x.1) (trace (bread 2 1 5) 8 w2) /\
      (deref (cache w3) b).(data) = (deref (cache w1) b).(data) /\
      (deref (cache w3) b).(valid) = true /\
      (deref (cache w3) b).(lock) = Some 8%nat /\
      disk w3 = disk w1.
Proof.
  assert (exists b w1, run (bread 2 1 5) pid7 (boot 2 1 disk5) = Done b w1) as (b & w1 & Hrun).
  { eexists _, _. vm_compute. reflexivity. }
  destruct (bread_again_hits 2 1 5 pid7 (boot 2 1 disk5) b w1 (boot_cache_inv 2 1 disk5) Hrun)
    as (w2 & Hrel & Hagain).
  exists b, w1, w2. split; [exact Hrun|]. split; [exact Hrel|]. exact (Hagain 8%nat).
Defined.
Lemma assign_id c p f : (forall x, f x = x) -> assign p f c = c.
Proof.
  intros Hf. destruct c as [lk bufs m heads], p as [i|j]; unfold assign; cbn.
  - f_equal. by apply list_alter_id.
  - f_equal. by apply list_alter_id.
Qed.

Lemma refcnt_add_add d e x : refcnt_add d (refcnt_add e x) = refcnt_add (e + d) x.
Proof. destruct x. unfold refcnt_add, with_refcnt. cbn. f_equal. lia. Qed.

Lemma refcnt_add_0 x : refcnt_add 0 x = x.
Proof. destruct x. unfold refcnt_add, with_refcnt. cbn. f_equal. lia. Qed.

Lemma assign_refcnt_back c p d e :
  e + d = 0 -> assign p (refcnt_add d) (assign p (refcnt_add e) c) = c.
Proof.
  intros H. rewrite assign_assign. apply assign_id. intros x. cbn.
  by rewrite refcnt_add_add, H, refcnt_add_0.
Qed.

(** X4: [bpin] and [bunpin] undo each other.  With no spinlock held, [bpin]
    followed by [bunpin] of the same buffer, by any callers, leaves the cache
    and the disk exactly as they were, and so does [bunpin] followed by
    [bpin].  In between the count of the buffer is one more when it was below
    the largest [uint], and one less when it was not zero. *)
Theorem bpin_bunpin_round_trip b pid pid' w :
  quiet (cache w) ->
  (exists w1,
     run (bpin b) pid w = Done tt w1 /\
     (in_range (cache w) b -> 0 <= (deref (cache w) b).(refcnt) < 2 ^ 32 - 1 ->
      (deref (cache w1) b).(refcnt) = (deref (cache w) b).(refcnt) + 1) /\
     run (bunpin b) pid' w1 = Done tt w) /\
  (exists w1,
     run (bunpin b) pid w = Done tt w1 /\
     (in_range (cache w) b -> 0 < (deref (cache w) b).(refcnt) < 2 ^ 32 ->
      (deref (cache w1) b).(refcnt) = (deref (cache w) b).(refcnt) - 1) /\
     run (bpin b) pid' w1 = Done tt w).
Proof.
  intros Hq. split.
  - exists (on_cache (assign b (refcnt_add 1)) w).
    split; [by apply run_bpin|]. split.
    + intros Hr _. rewrite cache_on_cache. by rewrite deref_assign_eq.
    + rewrite run_bunpin by (rewrite cache_on_cache; by apply quiet_assign).
      f_equal. rewrite on_cache_on_cache. apply on_cache_id.
      apply assign_refcnt_back. lia.
  - exists (on_cache (assign b (refcnt_add (-1))) w).
    split; [by apply run_bunpin|]. split.
    + intros Hr _. rewrite cache_on_cache. rewrite deref_assign_eq by done. cbn. lia.
    + rewrite run_bpin by (rewrite cache_on_cache; by apply quiet_assign).
      f_equal. rewrite on_cache_on_cache. apply on_cache_id.
      apply assign_refcnt_back. lia.
Qed.

Lemma world1_quiet : quiet (cache world1).
Proof. split; vm_compute; reflexivity. Qed.

Lemma bpin_bunpin_round_trip_witness :
  (exists w1,
     run (bpin (Bf 0)) pid7 world1 = Done tt w1 /\
     (deref (cache w1) (Bf 0)).(refcnt) = 2 /\
     run (bunpin (Bf 0)) 8 w1 = Done tt world1) /\
  (exists w1,
     run (bunpin (Bf 0)) pid7 world1 = Done tt w1 /\
     (deref (cache w1) (Bf 0)).(refcnt) = 0 /\
     run (bpin (Bf 0)) 8 w1 = Done tt world1).
Proof.
  assert (Hr : in_range (cache world1) (Bf 0)) by (vm_compute; lia).
  assert (Hc : (deref (cache world1) (Bf 0)).(refcnt) = 1) by (vm_compute; reflexivity).
  destruct (bpin_bunpin_round_trip (Bf 0) pid7 8 world1 world1_quiet)
    as [(w1 & Hpin & Hcnt & Hunpin) (w2 & Hunpin2 & Hcnt2 & Hpin2)].
  split.
  - exists w1. split; [exact Hpin|]. split; [|exact Hunpin].
    rewrite Hcnt; [rewrite Hc; reflexivity|exact Hr|rewrite Hc; lia].
  - exists w2. split; [exact Hunpin2|]. split; [|exact Hpin2].
    rewrite Hcnt2; [rewrite Hc; reflexivity|exact Hr|rewrite Hc; lia].
Defined.
Lemma bget_cache_links_ok NBUF c dev0 blockno0 j :
  links_ok NBUF c -> bget_slot c dev0 blockno0 = Some j ->
  links_ok NBUF (bget_cache c dev0 blockno0).
Proof.
  intros Hok Hs. pose proof (bget_slot_lt NBUF c dev0 blockno0 j Hok Hs) as Hj.
  unfold bget_slot in Hs. unfold bget_cache.
  destruct (cached c dev0 blockno0) as [x|].
  - by apply links_ok_keep.
  - rewrite Hs. by apply recycle_links_ok.
Qed.

Lemma bget_cache_quiet c dev0 blockno0 : quiet c -> quiet (bget_cache c dev0 blockno0).
Proof.
  intros Hq. unfold bget_cache. destruct (cached c dev0 blockno0) as [x|].
  - by apply quiet_assign.
  - destruct (first_free c); [by apply quiet_recycle|done].
Qed.

(** The cache a call can start from: well-formed lists and no spinlock held. *)
Lemma bget_ends NBUF dev0 blockno0 pid w :
  links_ok NBUF (cache w) -> quiet (cache w) ->
  let o := run (bget NBUF dev0 blockno0) pid w in
  settled o /\ links_ok NBUF (cache (final o)) /\ quiet (cache (final o)).
Proof.
  intros Hok Hq o. subst o. rewrite run_bget by done.
  destruct (bget_slot (cache w) dev0 blockno0) as [j|] eqn:Hs; [|done].
  cbn [run]. destruct (sleep_free _ (Bf j)); cbn [settled final run]; rewrite ?cache_on_cache.
  - split; [done|]. split.
    + apply links_ok_keep; try done. by eapply bget_cache_links_ok.
    + by apply quiet_assign, bget_cache_quiet.
  - split; [done|]. split; [by eapply bget_cache_links_ok|by apply bget_cache_quiet].
Qed.

Lemma bread_ends NBUF dev0 blockno0 pid w :
  links_ok NBUF (cache w) -> quiet (cache w) ->
  let o := run (bread NBUF dev0 blockno0) pid w in
  settled o /\ links_ok NBUF (cache (final o)) /\ quiet (cache (final o)).
Proof.
  intros Hok Hq o. subst o. rewrite run_bread by done.
  destruct (bget_slot (cache w) dev0 blockno0) as [j|] eqn:Hs; [|done].
  cbv zeta. destruct (sleep_free _ (Bf j)); cbn [settled final].
  - rewrite run_bread_fill. cbn [settled final].
    assert (Hok1 : links_ok NBUF (assign (Bf j) (with_lock (Some pid))
                                    (bget_cache (cache w) dev0 blockno0))).
    { apply links_ok_keep; try done. by eapply bget_cache_links_ok. }
    assert (Hq1 : quiet (assign (Bf j) (with_lock (Some pid))
                           (bget_cache (cache w) dev0 blockno0))).
    { by apply quiet_assign, bget_cache_quiet. }
    split; [done|]. destruct (valid _).
    + rewrite !cache_on_cache. by split.
    + rewrite virtio_disk_rw_in, !cache_on_cache. split.
      * by do 2 (apply links_ok_keep; try done).
      * by do 2 apply quiet_assign.
  - rewrite cache_on_cache.
    split; [done|]. split; [by eapply bget_cache_links_ok|by apply bget_cache_quiet].
Qed.

(** X5: a call that runs alone in a well-formed cache with no spinlock held
    never spins on a spinlock and never walks a list for ever: it returns,
    panics, or ([bget], [bread]) sleeps on the buffer it found.  However it
    ends, a panic included, it leaves the lists well formed and no spinlock
    held, so the next call can start. *)
Theorem calls_settle NBUF pid w :
  links_ok NBUF (cache w) -> quiet (cache w) ->
  (forall dev0 blockno0,
     let o := run (bget NBUF dev0 blockno0) pid w in
     settled o /\ links_ok NBUF (cache (final o)) /\ quiet (cache (final o))) /\
  (forall dev0 blockno0,
     let o := run (bread NBUF dev0 blockno0) pid w in
     settled o /\ links_ok NBUF (cache (final o)) /\ quiet (cache (final o))) /\
  (forall b,
     let o := run (bwrite b) pid w in
     settled o /\ links_ok NBUF (cache (final o)) /\ quiet (cache (final o))) /\
  (forall b,
     let o := run (brelse b) pid w in
     settled o /\ links_ok NBUF (cache (final o)) /\ quiet (cache (final o))) /\
  (forall b,
     let o := run (bpin b) pid w in
     settled o /\ links_ok NBUF (cache (final o)) /\ quiet (cache (final o))) /\
  (forall b,
     let o := run (bunpin b) pid w in
     settled o /\ links_ok NBUF (cache (final o)) /\ quiet (cache (final o))).
Proof.
  intros Hok Hq.
  split; [intros; by apply bget_ends|].
  split; [intros; by apply bread_ends|].
  split; [|split; [|split]].
  - intros b o. subst o. rewrite run_bwrite. destruct (sleep_held pid w b); by cbn.
  - intros b o. subst o. rewrite run_brelse by done.
    destruct (sleep_held pid w b); cbn [settled final]; [|done].
    rewrite !cache_on_cache. split; [done|]. split.
    + by do 2 (apply links_ok_keep; try done).
    + by do 2 apply quiet_assign.
  - intros b o. subst o. rewrite run_bpin by done. cbn [settled final].
    rewrite cache_on_cache. split; [done|]. split.
    + by apply links_ok_keep.
    + by apply quiet_assign.
  - intros b o. subst o. rewrite run_bunpin by done. cbn [settled final].
    rewrite cache_on_cache. split; [done|]. split.
    + by apply links_ok_keep.
    + by apply quiet_assign.
Qed.

Lemma world4_links_ok : links_ok 2 (cache world4).
Proof. by destruct world4_state_ok as (H & _). Qed.

Lemma world4_quiet : quiet (cache world4).
Proof. by destruct world4_state_ok as (_ & H & _). Qed.

Lemma calls_settle_witness :
  settled (run (bread 2 1 5) pid7 world4) /\
  links_ok 2 (cache (final (run (bread 2 1 5) pid7 world4))) /\
  quiet (cache (final (run (bread 2 1 5) pid7 world4))) /\
  settled (run (bread 2 1 0) pid7 world4) /\
  quiet (cache (final (run (bread 2 1 0) pid7 world4))) /\
  settled (run (brelse (Bf 0)) pid7 world4) /\
  quiet (cache (final (run (brelse (Bf 0)) pid7 world4))).
Proof.
  destruct (calls_settle 2 pid7 world4 world4_links_ok world4_quiet)
    as (_ & Hread & _ & Hrel & _).
  destruct (Hread 1 5) as (H1 & H2 & H3). destruct (Hread 1 0) as (H4 & _ & H5).
  destruct (Hrel (Bf 0)) as (H6 & _ & H7).
  split; [exact H1|]. split; [exact H2|]. split; [exact H3|]. split; [exact H4|].
  split; [exact H5|]. split; [exact H6|exact H7].
Defined.
(** X6: what a miss leaves alone.  When [bget] misses and takes the free slot
    [j], every bucket list but the one of the requested block is as before
    with [j] taken out: the donor keeps its other slots in their order and
    every other list is untouched.  No other slot changes its device, block
    number, valid flag, count, sleep-lock or payload, and the disk is as
    before. *)
Theorem bget_miss_frame NBUF dev0 blockno0 pid w j :
  links_ok NBUF (cache w) -> quiet (cache w) ->
  cached (cache w) dev0 blockno0 = None -> first_free (cache w) = Some j ->
  let h := HASH blockno0 in
  let w' := final (run (bget NBUF dev0 blockno0) pid w) in
  (forall g, (g < NBUCKET)%nat -> g <> h ->
     bucket (cache w') g = filter (fun x => x ≠ j) (bucket (cache w) g) /\
     (g <> home (cache w) j -> bucket (cache w') g = bucket (cache w) g)) /\
  (forall i, i <> j ->
     let b := deref (cache w) (Bf i) in
     let b' := deref (cache w') (Bf i) in
     dev b' = dev b /\ blockno b' = blockno b /\ valid b' = valid b /\
     refcnt b' = refcnt b /\ lock b' = lock b /\ data b' = data b) /\
  disk w' = disk w.
Proof.
  intros Hok Hq Hc Hf h w'. pose proof Hok as (Hb & _ & _ & Hin & _).
  pose proof (proj1 (first_free_Some _ _) Hf) as (Hj & _). rewrite Hb in Hj.
  set (c1 := recycle dev0 blockno0 j (cache w)).
  assert (Hw' : w' = (if sleep_free (on_cache (fun _ => c1) w) (Bf j)
                      then on_cache (assign (Bf j) (with_lock (Some pid)))
                             (on_cache (fun _ => c1) w)
                      else on_cache (fun _ => c1) w)).
  { unfold w'. rewrite run_bget by done. rewrite bget_slot_miss, Hf by done.
    rewrite (bget_cache_miss _ _ _ j) by done. fold c1. cbn [run].
    by destruct (sleep_free _ _). }
  assert (Hbk : forall g, bucket (cache w') g = bucket c1 g).
  { intros g. rewrite Hw'. destruct (sleep_free _ _); rewrite ?cache_on_cache; [|done].
    by apply bucket_assign_keep. }
  assert (Hnotin : forall g, (g < NBUCKET)%nat -> g <> home (cache w) j ->
                             j ∉ bucket (cache w) g).
  { intros g Hg Hne Hel. destruct (Hin g j Hg Hel) as [_ Heq]. by apply Hne. }
  split; [|split].
  - intros g Hg Hne. rewrite Hbk. unfold c1.
    rewrite (bucket_recycle NBUF) by done. unfold recycled_bucket. fold h.
    destruct (decide (home (cache w) j = h)) as [Eh|Eh].
    + split; [|done]. rewrite filter_ne_notin; [done|]. apply Hnotin; [done|]. congruence.
    + rewrite decide_False by done.
      destruct (decide (g = home (cache w) j)) as [Eg|Eg]; [by split|].
      split; [|done]. rewrite filter_ne_notin; [done|]. by apply Hnotin.
  - intros i Hne b b'. subst b b'.
    assert (Hd : deref (cache w') (Bf i) = deref c1 (Bf i)).
    { rewrite Hw'. destruct (sleep_free _ _); rewrite ?cache_on_cache; [|done].
      rewrite deref_assign_ne; [done|congruence]. }
    rewrite Hd. by apply deref_recycle_other.
  - rewrite Hw'. destruct (sleep_free _ _); by rewrite ?disk_on_cache.
Qed.

Lemma bget_miss_frame_witness :
  bucket (cache (boot 3 1 disk0)) 0 = [2; 1; 0]%nat /\
  bucket (cache (final (run (bget 3 1 1) pid7 (boot 3 1 disk0)))) 0 = [2; 1]%nat /\
  bucket (cache (final (run (bget 3 1 1) pid7 (boot 3 1 disk0)))) 2 = [] /\
  disk (final (run (bget 3 1 1) pid7 (boot 3 1 disk0))) = disk (boot 3 1 disk0).
Proof.
  assert (Hc : cached (cache (boot 3 1 disk0)) 1 1 = None) by (vm_compute; reflexivity).
  assert (Hf : first_free (cache (boot 3 1 disk0)) = Some 0%nat) by (vm_compute; reflexivity).
  destruct (bget_miss_frame 3 1 1 pid7 (boot 3 1 disk0) 0 (boot_links_ok 3 1 disk0)
              (boot_quiet 3 1 disk0) Hc Hf) as (Hlists & _ & Hdisk).
  assert (H0 : bucket (cache (boot 3 1 disk0)) 0 = [2; 1; 0]%nat) by (vm_compute; reflexivity).
  assert (H2 : bucket (cache (boot 3 1 disk0)) 2 = []) by (vm_compute; reflexivity).
  split; [exact H0|]. split; [|split; [|exact Hdisk]].
  - destruct (Hlists 0%nat) as [Hl _]; [unfold NBUCKET; lia|vm_compute; lia|].
    rewrite Hl, H0. reflexivity.
  - destruct (Hlists 2%nat) as [Hl _]; [unfold NBUCKET; lia|vm_compute; lia|].
    rewrite Hl, H2. reflexivity.
Defined.
(** ** Who writes to the disk *)

Lemma uses_impl {A : Type} (Q Q' : event -> Prop) (p : prog A) :
  (forall e, Q e -> Q' e) -> uses Q p -> uses Q' p.
Proof. intros Himp H. induction H; constructor; auto. Qed.

(** A command without a transfer out leaves the disk as it is, however it
    ends. *)
Lemma uses_disk {A : Type} (p : prog A) pid w :
  uses no_write p -> disk (final (run p pid w)) = disk w.
Proof.
  intros H. revert w.
  induction H as [| | |l k HQ H IH|b k HQ H IH|l k HQ H IH|l k HQ H IH
    |b k HQ H IH|b k HQ H IH|b k HQ H IH|b k HQ H IH|b f k HQ H IH|b wr k HQ H IH];
    intros w; cbn [run]; try done;
    try (destruct (spin_free w l)); try (destruct (sleep_free w b)); try done;
    rewrite IH; try done.
  all: destruct wr; [destruct HQ|]; by rewrite virtio_disk_rw_in, disk_on_cache.
Qed.

Lemma binit_heads_no_write n i : uses no_write (binit_heads n i).
Proof.
  revert i. induction n as [|n IH]; intros i; simpl; repeat (constructor; try done).
Qed.

Lemma binit_bufs_no_write n j : uses no_write (binit_bufs n j).
Proof.
  revert j. induction n as [|n IH]; intros j; simpl; repeat (constructor; try done).
Qed.

Lemma binit_no_write NBUF : uses no_write (binit NBUF).
Proof.
  unfold binit. apply uses_bind; [repeat (constructor; try done)|]. intros _.
  apply uses_bind; [apply binit_heads_no_write|]. intros _. apply binit_bufs_no_write.
Qed.

Lemma bread_no_write NBUF dev0 blockno0 : uses no_write (bread NBUF dev0 blockno0).
Proof.
  unfold bread. apply uses_bind.
  - eapply uses_impl; [|apply bget_no_transfer]. by intros [].
  - intros b. unfold bread_fill. simpl. constructor; [done|]. intros r.
    destruct (negb (valid r)); repeat (constructor; try done).
Qed.

Lemma brelse_no_write b : uses no_write (brelse b).
Proof.
  unfold brelse. simpl. constructor; [done|]. intros r.
  destruct (negb r); repeat (constructor; try done).
Qed.

Lemma bpin_no_write b : uses no_write (bpin b).
Proof.
  unfold bpin. simpl. constructor; [done|]. intros r. repeat (constructor; try done).
Qed.

Lemma bunpin_no_write b : uses no_write (bunpin b).
Proof.
  unfold bunpin. simpl. constructor; [done|]. intros r. repeat (constructor; try done).
Qed.

(** X8: only [bwrite] writes to the disk.  From any state whatever, [binit],
    [bread], [brelse], [bpin] and [bunpin] leave every block of the disk as
    it is, however they end; [bwrite] changes at most the block its buffer
    names, and nothing at all when it panics. *)
Theorem only_bwrite_writes NBUF pid w :
  disk (final (run (binit NBUF) pid w)) = disk w /\
  (forall dev0 blockno0, disk (final (run (bread NBUF dev0 blockno0) pid w)) = disk w) /\
  (forall b, disk (final (run (brelse b) pid w)) = disk w) /\
  (forall b, disk (final (run (bpin b) pid w)) = disk w) /\
  (forall b, disk (final (run (bunpin b) pid w)) = disk w) /\
  (forall b d n,
     (d, n) <> ((deref (cache w) b).(dev), (deref (cache w) b).(blockno)) ->
     disk (final (run (bwrite b) pid w)) d n = disk w d n) /\
  (forall b, sleep_held pid w b = false -> final (run (bwrite b) pid w) = w).
Proof.
  split; [apply uses_disk, binit_no_write|].
  split; [intros; apply uses_disk, bread_no_write|].
  split; [intros; apply uses_disk, brelse_no_write|].
  split; [intros; apply uses_disk, bpin_no_write|].
  split; [intros; apply uses_disk, bunpin_no_write|].
  split.
  - intros b d n Hne. rewrite run_bwrite.
    destruct (sleep_held pid w b); cbn [final]; [|done].
    unfold virtio_disk_rw. cbn [disk].
    destruct (d =? dev (deref (cache w) b)) eqn:Ed; [|done].
    destruct (n =? blockno (deref (cache w) b)) eqn:En; [|done].
    exfalso. apply Hne. f_equal; lia.
  - intros b Hh. rewrite run_bwrite, Hh. done.
Qed.
Lemma same_but_count_refl b w : same_but_count b w w.
Proof. by repeat split. Qed.

Lemma same_but_count_assign b f w :
  (forall x, dev (f x) = dev x) -> (forall x, blockno (f x) = blockno x) ->
  (forall x, valid (f x) = valid x) -> (forall x, data (f x) = data x) ->
  (forall x, prev (f x) = prev x) -> (forall x, next (f x) = next x) ->
  same_but_count b w (on_cache (assign b f) w).
Proof.
  intros Hd Hn Hv Hdt Hp Hnx. unfold same_but_count. rewrite cache_on_cache, disk_on_cache.
  split; [intros h; by apply bucket_assign_keep|].
  split; [intros p Hne; by apply deref_assign_ne|].
  split; [by apply (deref_assign_keep _ dev)|].
  split; [by apply (deref_assign_keep _ blockno)|].
  split; [by apply (deref_assign_keep _ valid)|].
  split; [by apply (deref_assign_keep _ data)|].
  split; [by apply (deref_assign_keep _ prev)|].
  split; [by apply (deref_assign_keep _ next)|].
  by rewrite assign_lock, assign_master.
Qed.

(** X9: [brelse], [bpin] and [bunpin] change the count of their buffer, and
    [brelse] its sleep-lock, and nothing else.  With no spinlock held, after
    any of them every bucket list is as before (the buffer is not moved in
    its list), every other buffer and list head is as before, the buffer has
    the device, block number, valid flag, payload and links it had, no
    spinlock is held and the disk is as before; [bpin] and [bunpin] leave the
    sleep-lock as it is too. *)
Theorem count_calls_frame b pid w :
  quiet (cache w) ->
  same_but_count b w (final (run (brelse b) pid w)) /\
  same_but_count b w (final (run (bpin b) pid w)) /\
  same_but_count b w (final (run (bunpin b) pid w)) /\
  (deref (cache (final (run (bpin b) pid w))) b).(lock) = (deref (cache w) b).(lock) /\
  (deref (cache (final (run (bunpin b) pid w))) b).(lock) = (deref (cache w) b).(lock).
Proof.
  intros Hq. split; [|split; [|split; [|split]]].
  - rewrite run_brelse by done. destruct (sleep_held pid w b); cbn [final].
    + rewrite on_cache_on_cache.
      rewrite (on_cache_ext _ (assign b (refcnt_add (-1) ∘ with_lock None)))
        by apply assign_assign.
      by apply same_but_count_assign.
    + apply same_but_count_refl.
  - rewrite run_bpin by done. by apply same_but_count_assign.
  - rewrite run_bunpin by done. by apply same_but_count_assign.
  - rewrite run_bpin by done. cbn [final]. rewrite cache_on_cache.
    by apply (deref_assign_keep _ lock).
  - rewrite run_bunpin by done. cbn [final]. rewrite cache_on_cache.
    by apply (deref_assign_keep _ lock).
Qed.

Lemma count_calls_frame_witness :
  same_but_count (Bf 0) world1 (final (run (brelse (Bf 0)) pid7 world1)) /\
  same_but_count (Bf 0) world1 (final (run (bpin (Bf 0)) pid7 world1)) /\
  bucket (cache (final (run (brelse (Bf 0)) pid7 world1))) 5 = [0%nat].
Proof.
  destruct (count_calls_frame (Bf 0) pid7 world1 world1_quiet) as (H1 & H2 & _).
  split; [exact H1|]. split; [exact H2|].
  destruct H1 as (Hb & _). rewrite Hb. vm_compute. reflexivity.
Defined.
(** ** Slots in use *)

Lemma intact_refl c i : intact c c i.
Proof. by repeat split. Qed.

Lemma intact_trans c1 c2 c3 i : intact c1 c2 i -> intact c2 c3 i -> intact c1 c3 i.
Proof.
  intros (Hd & Hn & Hv) (Hd' & Hn' & Hv'). split; [congruence|]. split; [congruence|].
  intros H. destruct (Hv H) as [H1 H2]. destruct (Hv' H1) as [H3 H4].
  split; [done|congruence].
Qed.

Lemma intact_assign c p f i :
  (forall x, dev (f x) = dev x) -> (forall x, blockno (f x) = blockno x) ->
  (forall x, valid (f x) = valid x) -> (forall x, data (f x) = data x) ->
  intact c (assign p f c) i.
Proof.
  intros Hd Hn Hv Hdt. unfold intact.
  rewrite (deref_assign_keep _ dev), (deref_assign_keep _ blockno),
    (deref_assign_keep _ valid), (deref_assign_keep _ data) by done.
  done.
Qed.

(** [bread] fills the buffer it got only if the buffer is not valid. *)
Lemma fill_intact j pid w i :
  intact (cache w) (cache (final (run (bread_fill (Bf j)) pid w))) i.
Proof.
  rewrite run_bread_fill. cbn [final].
  destruct (valid (deref (cache w) (Bf j))) eqn:Hv; [apply intact_refl|].
  rewrite virtio_disk_rw_in, !cache_on_cache.
  destruct (decide (i = j)) as [->|Hne].
  - unfold intact.
    rewrite !(deref_assign_keep _ dev), !(deref_assign_keep _ blockno) by done.
    split; [done|]. split; [done|]. congruence.
  - unfold intact. rewrite !deref_assign_ne by congruence. done.
Qed.

(** [bget] takes no slot whose count is not zero. *)
Lemma bget_cache_intact NBUF c dev0 blockno0 j i :
  links_ok NBUF c -> bget_slot c dev0 blockno0 = Some j ->
  (deref c (Bf i)).(refcnt) <> 0 ->
  intact c (bget_cache c dev0 blockno0) i.
Proof.
  intros Hok Hs Hcnt. destruct (decide (i = j)) as [->|Hne].
  - destruct (bget_cache_slot NBUF c dev0 blockno0 j Hok Hs)
      as (Hd & Hn & _ & Hdt & Hhit & Hmiss).
    unfold bget_slot in Hs. destruct (cached c dev0 blockno0) as [x|] eqn:Ec.
    + injection Hs as ->. destruct (Hhit eq_refl) as [Hv _].
      destruct (cached_Some NBUF _ _ _ _ Hok Ec) as (_ & _ & Hk).
      apply has_key_true in Hk as [Hdo Hno].
      split; [congruence|]. split; [congruence|]. intros Hvo. split; [congruence|done].
    + destruct (Hmiss eq_refl) as (_ & _ & H0). done.
  - destruct (bget_cache_other c dev0 blockno0 j i Hs Hne) as (Hd & Hn & Hv & _ & _ & Hdt).
    split; [done|]. split; [done|]. intros Hvo. split; [congruence|done].
Qed.

(** One turn leaves a slot in use alone. *)
Lemma slot_in_use_step NBUF s t lb s' i :
  sys_inv NBUF s -> sys_step NBUF s t = Some (lb, s') ->
  (deref (cache (sys_world s)) (Bf i)).(refcnt) <> 0 ->
  intact (cache (sys_world s)) (cache (sys_world s')) i.
Proof.
  intros [Hinv Hsl] Hstep Hcnt. pose proof Hinv as (Hok & Hq & Hfirst).
  destruct s as [w l]. cbn [sys_world sys_sleepers] in *.
  destruct t as [pid c|pid]; unfold sys_step, finish in Hstep;
    cbn [sys_world sys_sleepers] in Hstep.
  - destruct (sleeper _ pid) as [k|]; [done|].
    destruct c as [dev0 blockno0|b|b|b|b].
    + rewrite run_bread in Hstep by done.
      destruct (bget_slot (cache w) dev0 blockno0) as [j|] eqn:Es; [|done].
      pose proof (bget_cache_intact NBUF _ _ _ j i Hok Es Hcnt) as H1.
      cbv zeta in Hstep.
      set (wf := on_cache (fun _ => bget_cache (cache w) dev0 blockno0) w) in *.
      destruct (sleep_free wf (Bf j)).
      * pose proof (fill_intact j pid (on_cache (assign (Bf j) (with_lock (Some pid))) wf) i)
          as H3.
        rewrite run_bread_fill in Hstep. rewrite run_bread_fill in H3. cbn [final] in H3.
        injection Hstep as <- <-. cbn [sys_world].
        eapply intact_trans; [exact H1|]. eapply intact_trans; [|exact H3].
        unfold wf. rewrite !cache_on_cache. by apply intact_assign.
      * injection Hstep as <- <-. cbn [sys_world]. exact H1.
    + rewrite run_bwrite in Hstep. destruct (sleep_held pid w b); [|done].
      injection Hstep as <- <-. cbn [sys_world]. apply intact_refl.
    + rewrite run_brelse in Hstep by done. destruct (sleep_held pid w b); [|done].
      injection Hstep as <- <-. cbn [sys_world]. rewrite !cache_on_cache.
      eapply intact_trans; by apply intact_assign.
    + rewrite run_bpin in Hstep by done. injection Hstep as <- <-. cbn [sys_world].
      rewrite cache_on_cache. by apply intact_assign.
    + rewrite run_bunpin in Hstep by done. injection Hstep as <- <-. cbn [sys_world].
      rewrite cache_on_cache. by apply intact_assign.
  - destruct (sleeper _ pid) as [k|] eqn:Ek; [|done].
    apply sleeper_Some in Ek as (x & Hx & <-). simpl in Hx.
    destruct (proj1 (Forall_forall _ _) Hsl x Hx) as (j & Hj & Hk & Hfj).
    rewrite Hk in Hstep. cbn [run] in Hstep.
    destruct (sleep_free w (Bf j)); [|done].
    pose proof (fill_intact j pid (on_cache (assign (Bf j) (with_lock (Some pid))) w) i) as H3.
    rewrite run_bread_fill in Hstep. rewrite run_bread_fill in H3. cbn [final] in H3.
    injection Hstep as <- <-. cbn [sys_world].
    eapply intact_trans; [|exact H3]. rewrite cache_on_cache. by apply intact_assign.
Qed.

(** X7: a slot in use is left alone.  From any state the system reaches,
    along any sequence of turns -- calls that return or sleep, and wake-ups
    of sleepers -- during which the count of a slot never is zero, the slot
    keeps the device and block number it had and, if it was valid, stays
    valid with the payload it had: [bget] recycles no slot in use and [bread]
    fills no valid slot. *)
Theorem slot_in_use_intact NBUF s ts lbs s' i :
  sys_inv NBUF s -> sys_run NBUF s ts = Some (lbs, s') ->
  (i < NBUF)%nat ->
  (forall n, (n < length lbs)%nat ->
     (deref (cache (sys_world s)) (Bf i)).(refcnt) + outstanding (Bf i) (take n lbs) <> 0) ->
  intact (cache (sys_world s)) (cache (sys_world s')) i.
Proof.
  intros Hinv Hrun Hi. revert s lbs Hinv Hrun.
  induction ts as [|t ts IH]; intros s lbs Hinv Hrun Hcnt; cbn [sys_run] in Hrun.
  - injection Hrun as <- <-. apply intact_refl.
  - destruct (sys_step NBUF s t) as [[lb s1]|] eqn:Hstep; [|done].
    destruct (sys_run NBUF s1 ts) as [[lbs1 s2]|] eqn:Hrest; [|done].
    injection Hrun as <- <-.
    destruct (sys_step_effect NBUF s t lb s1 Hinv Hstep) as [Hinv1 Hr].
    assert (H0 : refcnt (deref (cache (sys_world s)) (Bf i)) <> 0).
    { specialize (Hcnt 0%nat). cbn [take outstanding length] in Hcnt.
      rewrite Z.add_0_r in Hcnt. apply Hcnt. lia. }
    eapply intact_trans; [by eapply slot_in_use_step|].
    apply (IH s1 lbs1); [done|done|].
    intros n Hn. rewrite Hr by done.
    specialize (Hcnt (S n)). cbn [take outstanding length] in Hcnt.
    rewrite Z.add_assoc in Hcnt. apply Hcnt. lia.
Qed.

Lemma world_after_cache_inv NBUF BSIZE d ts :
  cache_inv NBUF (cache (world_after NBUF BSIZE d ts)).
Proof.
  unfold world_after.
  destruct (sys_run NBUF (sys_boot NBUF BSIZE d) ts) as [[lbs s]|] eqn:Hrun.
  - by destruct (sys_reach_inv NBUF BSIZE d ts lbs s Hrun) as [[H _] _].
  - by destruct (sys_boot_inv NBUF BSIZE d) as [H _].
Qed.

Lemma slot_in_use_intact_witness :
  exists s',
    sys_run 3 (mksystem world3 [])
      [Call 7 (Bread 1 1); Call 7 (Bread 1 0); Call 9 (Brelse (Bf 0)); Wake 7] =
      Some ([Lread (Bf 1); Lread (Bf 0); Lrelease (Bf 0); Lwake (Bf 0)], s') /\
    (deref (cache world3) (Bf 0)).(valid) = true /\
    intact (cache (sys_world (mksystem world3 []))) (cache (sys_world s')) 0.
Proof.
  assert (exists s', sys_run 3 (mksystem world3 [])
      [Call 7 (Bread 1 1); Call 7 (Bread 1 0); Call 9 (Brelse (Bf 0)); Wake 7] =
      Some ([Lread (Bf 1); Lread (Bf 0); Lrelease (Bf 0); Lwake (Bf 0)], s')) as [s' Hrun].
  { eexists. vm_compute. reflexivity. }
  exists s'. split; [exact Hrun|]. split; [vm_compute; reflexivity|].
  assert (Hinv : sys_inv 3 (mksystem world3 [])).
  { split; [apply world_after_cache_inv|constructor]. }
  assert (H1 : refcnt (deref (cache (sys_world (mksystem world3 []))) (Bf 0)) = 1)
    by (vm_compute; reflexivity).
  apply (slot_in_use_intact 3 (mksystem world3 []) _ _ s' 0 Hinv Hrun); [lia|].
  intros n Hn. rewrite H1.
  do 4 (destruct n as [|n]; [vm_compute; discriminate|]).
  cbn [length] in Hn. lia.
Defined.
(** ** Every access is in bounds *)

Lemma deref_assign_cases c p f q :
  deref (assign p f c) q = deref c q \/
  (p = q /\ deref (assign p f c) q = f (deref c q)).
Proof.
  destruct (decide (p = q)) as [->|Hne]; [|left; by apply deref_assign_ne].
  destruct (decide (in_range c q)) as [Hr|Hr].
  - right. split; [done|]. by apply deref_assign_eq.
  - left. by apply deref_assign_out.
Qed.

Lemma closed_assign NBUF c p f :
  (forall x, ptr_ok NBUF (next x) -> ptr_ok NBUF (next (f x))) ->
  (forall x, ptr_ok NBUF (prev x) -> ptr_ok NBUF (prev (f x))) ->
  closed NBUF c -> closed NBUF (assign p f c).
Proof.
  intros Hn Hp Hc q Hq. destruct (Hc q Hq) as [H1 H2].
  destruct (deref_assign_cases c p f q) as [->|[_ ->]]; [done|]. split; auto.
Qed.

Lemma closed_set_spin NBUF c l v : closed NBUF c -> closed NBUF (set_spin l v c).
Proof. intros Hc q Hq. rewrite deref_set_spin. by apply Hc. Qed.

Lemma links_ok_closed NBUF c : links_ok NBUF c -> closed NBUF c.
Proof.
  intros (Hb & Hh & Hch & Hin & Hall) p Hp.
  assert (Hcase : forall h l1 l2 x, (h < NBUCKET)%nat ->
            (forall y, y ∈ l1 -> (y < NBUF)%nat) -> (forall y, y ∈ l2 -> (y < NBUF)%nat) ->
            (first_ptr l2 (Hd h) = x \/ last_ptr (Hd h) l1 = x) -> ptr_ok NBUF x).
  { intros h l1 l2 x Hlt H1 H2 [<-|<-].
    - destruct (first_ptr_cases l2 (Hd h)) as [->|(y & Hy & ->)]; [done|]. by apply H2.
    - destruct (last_ptr_cases (Hd h) l1) as [->|(y & Hy & ->)]; [done|]. by apply H1. }
  destruct p as [h|j]; simpl in Hp.
  - destruct (Hch h Hp) as [Hc _].
    assert (Hm : forall y, y ∈ bucket c h -> (y < NBUF)%nat) by (intros y Hy; by apply (Hin h)).
    split.
    + apply (Hcase h (bucket c h) (bucket c h)); try done. left. symmetry. by apply chain_first.
    + apply (Hcase h (bucket c h) (bucket c h)); try done. right. symmetry. by apply chain_last.
  - pose proof (Hall j Hp) as Hj. set (h := HASH (blockno (deref c (Bf j)))) in *.
    assert (Hlt : (h < NBUCKET)%nat) by apply HASH_lt.
    destruct (Hch h Hlt) as [Hc _].
    assert (Hm : forall y, y ∈ bucket c h -> (y < NBUF)%nat) by (intros y Hy; by apply (Hin h)).
    apply list_elem_of_split in Hj as (l1 & l2 & Hl). rewrite Hl in Hc, Hm.
    apply chain_app in Hc as [Hc1 Hc2].
    assert (Hm1 : forall y, y ∈ l1 -> (y < NBUF)%nat).
    { intros y Hy. apply Hm. apply elem_of_app. by left. }
    assert (Hm2 : forall y, y ∈ l2 -> (y < NBUF)%nat).
    { intros y Hy. apply Hm. apply elem_of_app. right. by apply elem_of_cons; right. }
    split.
    + apply (Hcase h l1 l2); try done. left. symmetry. by apply chain_first.
    + apply (Hcase h l1 l2); try done. right. symmetry. by apply chain_last.
Qed.

Section Bounds.
Context (NBUF pid : nat) {A : Type}.

Lemma Safe_Ret I (a : A) : Safe NBUF pid I (Ret a).
Proof. intros w _. constructor. Qed.

Lemma Safe_Panic I msg : Safe NBUF pid I (@Panic A msg).
Proof. intros w _. constructor. Qed.

Lemma Safe_Diverge I : Safe NBUF pid I (@Diverge A).
Proof. intros w _. constructor. Qed.

Lemma Safe_Deref (I : bcache -> Prop) b (k : buf -> prog A) :
  ptr_ok NBUF b ->
  (forall c, I c -> Safe NBUF pid (fun c' => c' = c) (k (deref c b))) ->
  Safe NBUF pid I (Deref b k).
Proof.
  intros Hb Hk w Hw. cbn [trace]. apply Forall_cons. split; [done|]. by apply (Hk (cache w)).
Qed.

Lemma Safe_Assign (I J : bcache -> Prop) b f (k : prog A) :
  ptr_ok NBUF b -> (forall c, I c -> J (assign b f c)) ->
  Safe NBUF pid J k -> Safe NBUF pid I (Assign b f k).
Proof.
  intros Hb HJ Hk w Hw. cbn [trace]. apply Forall_cons. split; [done|].
  apply Hk. rewrite cache_on_cache. by apply HJ.
Qed.

Lemma Safe_Acquire (I J : bcache -> Prop) l (k : prog A) :
  lock_ok l -> (forall c, I c -> J (set_spin l (Some pid) c)) ->
  Safe NBUF pid J k -> Safe NBUF pid I (Acquire l k).
Proof.
  intros Hl HJ Hk w Hw. cbn [trace]. destruct (spin_free w l); [|constructor].
  apply Forall_cons. split; [done|]. apply Hk. rewrite cache_on_cache. by apply HJ.
Qed.

Lemma Safe_Release (I J : bcache -> Prop) l (k : prog A) :
  lock_ok l -> (forall c, I c -> J (set_spin l None c)) ->
  Safe NBUF pid J k -> Safe NBUF pid I (Release l k).
Proof.
  intros Hl HJ Hk w Hw. cbn [trace].
  apply Forall_cons. split; [done|]. apply Hk. rewrite cache_on_cache. by apply HJ.
Qed.

Lemma Safe_Initlock (I J : bcache -> Prop) l (k : prog A) :
  lock_ok l -> (forall c, I c -> J (set_spin l None c)) ->
  Safe NBUF pid J k -> Safe NBUF pid I (Initlock l k).
Proof.
  intros Hl HJ Hk w Hw. cbn [trace].
  apply Forall_cons. split; [done|]. apply Hk. rewrite cache_on_cache. by apply HJ.
Qed.

Lemma Safe_Acquiresleep (I J : bcache -> Prop) b (k : prog A) :
  ptr_ok NBUF b -> (forall c, I c -> J (assign b (with_lock (Some pid)) c)) ->
  Safe NBUF pid J k -> Safe NBUF pid I (Acquiresleep b k).
Proof.
  intros Hb HJ Hk w Hw. cbn [trace]. destruct (sleep_free w b); [|constructor].
  apply Forall_cons. split; [done|]. apply Hk. rewrite cache_on_cache. by apply HJ.
Qed.

Lemma Safe_Releasesleep (I J : bcache -> Prop) b (k : prog A) :
  ptr_ok NBUF b -> (forall c, I c -> J (assign b (with_lock None) c)) ->
  Safe NBUF pid J k -> Safe NBUF pid I (Releasesleep b k).
Proof.
  intros Hb HJ Hk w Hw. cbn [trace].
  apply Forall_cons. split; [done|]. apply Hk. rewrite cache_on_cache. by apply HJ.
Qed.

Lemma Safe_Initsleeplock (I J : bcache -> Prop) b (k : prog A) :
  ptr_ok NBUF b -> (forall c, I c -> J (assign b (with_lock None) c)) ->
  Safe NBUF pid J k -> Safe NBUF pid I (Initsleeplock b k).
Proof.
  intros Hb HJ Hk w Hw. cbn [trace].
  apply Forall_cons. split; [done|]. apply Hk. rewrite cache_on_cache. by apply HJ.
Qed.

Lemma Safe_Holdingsleep (I : bcache -> Prop) b (k : bool -> prog A) :
  ptr_ok NBUF b -> (forall r, Safe NBUF pid I (k r)) -> Safe NBUF pid I (Holdingsleep b k).
Proof.
  intros Hb Hk w Hw. cbn [trace]. apply Forall_cons. split; [done|]. by apply Hk.
Qed.

Lemma Safe_Disk_rw (I J : bcache -> Prop) b wr (k : prog A) :
  ptr_ok NBUF b ->
  (forall w, I (cache w) -> J (cache (virtio_disk_rw b wr w))) ->
  Safe NBUF pid J k -> Safe NBUF pid I (Disk_rw b wr k).
Proof.
  intros Hb HJ Hk w Hw. cbn [trace]. apply Forall_cons. split; [done|]. apply Hk. by apply HJ.
Qed.

Lemma Safe_weaken (I J : bcache -> Prop) (p : prog A) :
  (forall c, I c -> J c) -> Safe NBUF pid J p -> Safe NBUF pid I p.
Proof. intros HIJ Hp w Hw. apply Hp. by apply HIJ. Qed.

End Bounds.
(** ** The calls stay in bounds *)

Section CallsInBounds.
Context (NBUF pid : nat).

Local Ltac keep_closed :=
  first
    [ intros ? ?; apply closed_set_spin; assumption
    | intros ? ?; apply closed_assign; [intros ? ?; cbn; assumption ..|assumption] ].

(** Reading the closed memory gives links that point into the arrays. *)
Lemma Safe_Deref_closed {A : Type} b (k : buf -> prog A) :
  ptr_ok NBUF b ->
  (forall bb, ptr_ok NBUF (next bb) -> ptr_ok NBUF (prev bb) ->
              Safe NBUF pid (closed NBUF) (k bb)) ->
  Safe NBUF pid (closed NBUF) (Deref b k).
Proof.
  intros Hb Hk. apply Safe_Deref; [done|]. intros c Hc.
  destruct (Hc b Hb) as [Hn Hp].
  eapply Safe_weaken; [|by apply Hk]. by intros c' ->.
Qed.

Lemma bget_cached_in_bounds fuel dev0 blockno0 h b miss :
  (h < NBUCKET)%nat -> ptr_ok NBUF b ->
  Safe NBUF pid (closed NBUF) miss ->
  Safe NBUF pid (closed NBUF) (bget_cached fuel dev0 blockno0 h b miss).
Proof.
  intros Hh Hb Hm. revert b Hb. induction fuel as [|fuel IH]; intros b Hb; simpl.
  - destruct (ptr_eqb b (Hd h)); [done|apply Safe_Diverge].
  - destruct (ptr_eqb b (Hd h)); [done|].
    apply Safe_Deref_closed; [done|]. intros bb Hn Hp.
    destruct (_ && _); [|by apply IH].
    apply (Safe_Assign NBUF pid (closed NBUF) (closed NBUF)); [done|keep_closed|].
    apply (Safe_Release NBUF pid (closed NBUF) (closed NBUF)); [done|keep_closed|].
    apply (Safe_Acquiresleep NBUF pid (closed NBUF) (closed NBUF)); [done|keep_closed|].
    apply Safe_Ret.
Qed.

Lemma bget_scan_in_bounds n dev0 blockno0 h j :
  (h < NBUCKET)%nat -> (j + n = NBUF)%nat ->
  Safe NBUF pid (closed NBUF) (bget_scan n dev0 blockno0 h j).
Proof.
  intros Hh. revert j. induction n as [|n IH]; intros j Hj; simpl.
  - apply (Safe_Release NBUF pid (closed NBUF) (closed NBUF)); [done|keep_closed|].
    apply (Safe_Release NBUF pid (closed NBUF) (closed NBUF)); [done|keep_closed|]. apply Safe_Panic.
  - assert (Hb : ptr_ok NBUF (Bf j)) by (simpl; lia).
    apply Safe_Deref_closed; [done|]. intros bb _ _.
    destruct (Nat.eqb _ _).
    + destruct (_ =? _); [|apply IH; lia].
      do 4 (apply (Safe_Assign NBUF pid (closed NBUF) (closed NBUF)); [done|keep_closed|]).
      do 2 (apply (Safe_Release NBUF pid (closed NBUF) (closed NBUF)); [done|keep_closed|]).
      apply (Safe_Acquiresleep NBUF pid (closed NBUF) (closed NBUF)); [done|keep_closed|]. apply Safe_Ret.
    + apply (Safe_Acquire NBUF pid (closed NBUF) (closed NBUF)); [apply HASH_lt|keep_closed|].
      apply Safe_Deref_closed; [done|]. intros bb1 _ _.
      destruct (_ =? _).
      * do 4 (apply (Safe_Assign NBUF pid (closed NBUF) (closed NBUF)); [done|keep_closed|]).
        apply Safe_Deref_closed; [done|]. intros bb2 Hn2 Hp2.
        apply (Safe_Assign NBUF pid (closed NBUF) (closed NBUF)); [done|keep_closed|].
        apply Safe_Deref_closed; [done|]. intros bb3 Hn3 Hp3.
        apply (Safe_Assign NBUF pid (closed NBUF) (closed NBUF)); [done|keep_closed|].
        apply Safe_Deref_closed; [done|]. intros hd1 Hn4 Hp4.
        do 2 (apply (Safe_Assign NBUF pid (closed NBUF) (closed NBUF)); [done|keep_closed|]).
        apply Safe_Deref_closed; [done|]. intros hd2 Hn5 Hp5.
        do 2 (apply (Safe_Assign NBUF pid (closed NBUF) (closed NBUF)); [done|keep_closed|]).
        apply (Safe_Release NBUF pid (closed NBUF) (closed NBUF)); [apply HASH_lt|keep_closed|].
        do 2 (apply (Safe_Release NBUF pid (closed NBUF) (closed NBUF)); [done|keep_closed|]).
        apply (Safe_Acquiresleep NBUF pid (closed NBUF) (closed NBUF)); [done|keep_closed|]. apply Safe_Ret.
      * apply (Safe_Release NBUF pid (closed NBUF) (closed NBUF)); [apply HASH_lt|keep_closed|]. apply IH. lia.
Qed.

Lemma bget_in_bounds dev0 blockno0 :
  Safe NBUF pid (closed NBUF) (bget NBUF dev0 blockno0).
Proof.
  unfold bget. simpl.
  apply (Safe_Acquire NBUF pid (closed NBUF) (closed NBUF)); [apply HASH_lt|keep_closed|].
  apply Safe_Deref_closed; [apply HASH_lt|]. intros hd Hn Hp.
  apply bget_cached_in_bounds; [apply HASH_lt|done|].
  apply (Safe_Acquire NBUF pid (closed NBUF) (closed NBUF)); [done|keep_closed|].
  apply bget_scan_in_bounds; [apply HASH_lt|done].
Qed.

End CallsInBounds.
Section FillInBounds.
Context (NBUF pid : nat).

Local Ltac keep_any := intros; exact I.

Lemma bread_fill_in_bounds b :
  ptr_ok NBUF b -> Safe NBUF pid (fun _ => True) (bread_fill b).
Proof.
  intros Hb. unfold bread_fill. simpl.
  apply Safe_Deref; [done|]. intros c _. apply (Safe_weaken _ _ _ (fun _ => True)); [done|].
  destruct (negb _); [|apply Safe_Ret].
  apply (Safe_Disk_rw NBUF pid (fun _ => True) (fun _ => True)); [done|keep_any|].
  apply (Safe_Assign NBUF pid (fun _ => True) (fun _ => True)); [done|keep_any|].
  apply Safe_Ret.
Qed.

Lemma bwrite_in_bounds b :
  ptr_ok NBUF b -> Safe NBUF pid (fun _ => True) (bwrite b).
Proof.
  intros Hb. unfold bwrite. simpl. apply Safe_Holdingsleep; [done|]. intros r.
  destruct (negb r); [apply Safe_Panic|].
  apply (Safe_Disk_rw NBUF pid (fun _ => True) (fun _ => True)); [done|keep_any|].
  apply Safe_Ret.
Qed.

Lemma count_in_bounds b d :
  ptr_ok NBUF b ->
  Safe NBUF pid (fun _ => True)
       (bb ← get b;
        acquire (Bucket (HASH bb.(blockno)));; set b (refcnt_add d);;
        release (Bucket (HASH bb.(blockno)))).
Proof.
  intros Hb. simpl.
  apply Safe_Deref; [done|]. intros c _. apply (Safe_weaken _ _ _ (fun _ => True)); [done|].
  apply (Safe_Acquire NBUF pid (fun _ => True) (fun _ => True)); [apply HASH_lt|keep_any|].
  apply (Safe_Assign NBUF pid (fun _ => True) (fun _ => True)); [done|keep_any|].
  apply (Safe_Release NBUF pid (fun _ => True) (fun _ => True)); [apply HASH_lt|keep_any|].
  apply Safe_Ret.
Qed.

Lemma brelse_in_bounds b :
  ptr_ok NBUF b -> Safe NBUF pid (fun _ => True) (brelse b).
Proof.
  intros Hb. unfold brelse. simpl. apply Safe_Holdingsleep; [done|]. intros r.
  destruct (negb r); [apply Safe_Panic|].
  apply (Safe_Releasesleep NBUF pid (fun _ => True) (fun _ => True)); [done|keep_any|].
  by apply (count_in_bounds b (-1)).
Qed.

End FillInBounds.

(** [bget] hands out slots of the pool only. *)
Lemma bget_done NBUF dev0 blockno0 pid w b w' :
  links_ok NBUF (cache w) -> quiet (cache w) ->
  run (bget NBUF dev0 blockno0) pid w = Done b w' -> ptr_ok NBUF b.
Proof.
  intros Hok Hq. rewrite run_bget by done.
  destruct (bget_slot (cache w) dev0 blockno0) as [j|] eqn:Hs; [|discriminate].
  cbn [run]. destruct (sleep_free _ _); [|discriminate].
  intros [= <- _]. simpl. by eapply bget_slot_lt.
Qed.

(** X10: the calls stay inside the arrays.  In a well-formed cache with no
    spinlock held, every [struct buf] that [bget] and [bread] read or write
    -- the list heads and slots they walk, and the neighbours they relink
    through [prev] and [next] -- is an element of [bcache.head] or
    [bcache.buf], and every spinlock they take or give back is [master] or an
    element of [bcache.lock]; the same holds for [bwrite], [brelse], [bpin]
    and [bunpin] of a buffer that is such an element. *)
Theorem calls_in_bounds NBUF pid w :
  links_ok NBUF (cache w) -> quiet (cache w) ->
  (forall dev0 blockno0, in_bounds NBUF (trace (bget NBUF dev0 blockno0) pid w)) /\
  (forall dev0 blockno0, in_bounds NBUF (trace (bread NBUF dev0 blockno0) pid w)) /\
  (forall b, ptr_ok NBUF b ->
     in_bounds NBUF (trace (bwrite b) pid w) /\
     in_bounds NBUF (trace (brelse b) pid w) /\
     in_bounds NBUF (trace (bpin b) pid w) /\
     in_bounds NBUF (trace (bunpin b) pid w)).
Proof.
  intros Hok Hq. pose proof (links_ok_closed NBUF _ Hok) as Hc.
  split; [intros; by apply bget_in_bounds|]. split.
  - intros dev0 blockno0. unfold bread. rewrite trace_bind. apply Forall_app. split.
    + by apply bget_in_bounds.
    + destruct (run (bget NBUF dev0 blockno0) pid w) as [b w'| | | |] eqn:Hrun;
        [|by constructor..].
      apply bread_fill_in_bounds; [|done]. by eapply bget_done.
  - intros b Hb.
    split; [by apply bwrite_in_bounds|]. split; [by apply brelse_in_bounds|].
    split; [by apply (count_in_bounds NBUF pid b 1)|by apply (count_in_bounds NBUF pid b (-1))].
Qed.

Lemma calls_in_bounds_witness :
  in_bounds 3 (trace (bread 3 1 1) pid7 world3) /\
  in_bounds 3 (trace (brelse (Bf 0)) 9 world3) /\
  Nat.leb 20 (length (trace (bread 3 1 1) pid7 world3)) = true.
Proof.
  destruct world3_state_ok as (Hok & Hq & _).
  destruct (calls_in_bounds 3 pid7 world3 Hok Hq) as (_ & Hread & _).
  destruct (calls_in_bounds 3 9 world3 Hok Hq) as (_ & _ & Hb).
  destruct (Hb (Bf 0)) as (_ & Hrel & _); [simpl; lia|].
  split; [exact (Hread 1 1)|]. split; [exact Hrel|].
  vm_compute. reflexivity.
Defined.
(** ** [binit] stays in bounds *)

Lemma deref_out c p : ~ in_range c p -> deref c p = buf_zero 0.
Proof.
  intros Hr. destruct p as [h|j]; unfold deref; simpl in Hr.
  - rewrite lookup_ge_None_2; [done|lia].
  - rewrite lookup_ge_None_2; [done|lia].
Qed.

Lemma head0_ok_assign_next NBUF c v :
  ptr_ok NBUF v -> head0_ok NBUF (assign (Hd 0) (with_next v) c).
Proof.
  intros Hv. unfold head0_ok.
  destruct (decide (in_range c (Hd 0))) as [Hr|Hr].
  - by rewrite deref_assign_eq.
  - rewrite deref_out by (by rewrite in_range_assign). simpl. unfold NBUCKET. lia.
Qed.

Lemma head0_ok_assign_keep NBUF c p f :
  (forall x, next (f x) = next x) -> head0_ok NBUF c -> head0_ok NBUF (assign p f c).
Proof. intros Hf H. unfold head0_ok. by rewrite (deref_assign_keep _ next). Qed.

Lemma head0_ok_assign_buf NBUF c j f :
  head0_ok NBUF c -> head0_ok NBUF (assign (Bf j) f c).
Proof. intros H. unfold head0_ok. by rewrite deref_assign_ne. Qed.

Section BinitInBounds.
Context (NBUF pid : nat).

Lemma binit_bufs_in_bounds n j :
  (j + n = NBUF)%nat -> Safe NBUF pid (head0_ok NBUF) (binit_bufs n j).
Proof.
  revert j. induction n as [|n IH]; intros j Hj; simpl; [apply Safe_Ret|].
  assert (Hb : ptr_ok NBUF (Bf j)) by (simpl; lia).
  assert (H0 : ptr_ok NBUF (Hd 0)) by (simpl; unfold NBUCKET; lia).
  apply Safe_Deref; [done|]. intros c Hc.
  apply (Safe_weaken _ _ _ (head0_ok NBUF)); [by intros c' ->|].
  apply (Safe_Assign NBUF pid (head0_ok NBUF) (head0_ok NBUF));
    [done|intros; by apply head0_ok_assign_buf|].
  apply (Safe_Assign NBUF pid (head0_ok NBUF) (head0_ok NBUF));
    [done|intros; by apply head0_ok_assign_buf|].
  apply (Safe_Initsleeplock NBUF pid (head0_ok NBUF) (head0_ok NBUF));
    [done|intros; by apply head0_ok_assign_buf|].
  apply Safe_Deref; [done|]. intros c1 Hc1.
  apply (Safe_weaken _ _ _ (head0_ok NBUF)); [by intros c' ->|].
  apply (Safe_Assign NBUF pid (head0_ok NBUF) (head0_ok NBUF));
    [exact Hc1|intros; by apply head0_ok_assign_keep|].
  apply (Safe_Assign NBUF pid (head0_ok NBUF) (head0_ok NBUF));
    [done|intros; by apply head0_ok_assign_next|].
  apply IH. lia.
Qed.

Lemma binit_heads_then n i (k : prog unit) :
  (i + n = NBUCKET)%nat -> Safe NBUF pid (head0_ok NBUF) k ->
  Safe NBUF pid (fun c => i <> 0%nat -> head0_ok NBUF c) (mbind (fun _ => k) (binit_heads n i)).
Proof.
  intros Hin Hk. revert i Hin. induction n as [|n IH]; intros i Hin.
  - change (mbind (fun _ => k) (binit_heads 0 i)) with k.
    eapply Safe_weaken; [|exact Hk]. intros c Hc. apply Hc. unfold NBUCKET in Hin. lia.
  - change (mbind (fun _ => k) (binit_heads (S n) i)) with
      (Initlock (Bucket i)
         (Assign (Hd i) (with_prev (Hd i))
            (Assign (Hd i) (with_next (Hd i)) (mbind (fun _ => k) (binit_heads n (S i)))))).
    assert (Hi : ptr_ok NBUF (Hd i)) by (simpl; lia).
    apply (Safe_Initlock NBUF pid _ (fun c => i <> 0%nat -> head0_ok NBUF c)).
    { simpl. lia. }
    { intros c Hc Hne. unfold head0_ok. rewrite deref_set_spin. by apply Hc. }
    apply (Safe_Assign NBUF pid _ (fun c => i <> 0%nat -> head0_ok NBUF c)); [done| |].
    { intros c Hc Hne. apply head0_ok_assign_keep; [done|]. by apply Hc. }
    apply (Safe_Assign NBUF pid _ (fun c => S i <> 0%nat -> head0_ok NBUF c)); [done| |].
    { intros c Hc _. destruct (decide (i = 0%nat)) as [->|Hne].
      - apply head0_ok_assign_next. simpl. unfold NBUCKET. lia.
      - unfold head0_ok. rewrite deref_assign_ne by congruence. by apply Hc. }
    apply IH. lia.
Qed.

End BinitInBounds.

(** X11: [binit] stays inside the arrays whatever the memory holds before it
    runs.  Every [struct buf] it writes, and the one it reaches through
    [bcache.head[0].next], is an element of [bcache.head] or [bcache.buf],
    and every lock it initialises is [master], an element of [bcache.lock] or
    the sleep-lock of a slot: it follows no link that it has not set. *)
Theorem binit_in_bounds NBUF pid w : in_bounds NBUF (trace (binit NBUF) pid w).
Proof.
  unfold binit.
  change (initlock Master;; binit_heads NBUCKET 0;; binit_bufs NBUF 0) with
    (Initlock Master (mbind (fun _ => binit_bufs NBUF 0) (binit_heads NBUCKET 0))).
  apply (Safe_Initlock NBUF pid (fun _ => True) (fun c => 0%nat <> 0%nat -> head0_ok NBUF c));
    [done|done| |done].
  apply binit_heads_then; [done|]. by apply binit_bufs_in_bounds.
Qed.
(** ** The order in which [bget] takes the spinlocks *)

Section SpinSteps.
Context {B : Type} (pid : nat).

Lemma spin_events_get b (kb : buf -> prog B) w :
  spin_events (trace (mbind kb (get b)) pid w) =
  spin_events (trace (kb (deref (cache w) b)) pid w).
Proof. by rewrite trace_get. Qed.

Lemma spin_events_set b f (ku : unit -> prog B) w :
  spin_events (trace (mbind ku (set b f)) pid w) =
  spin_events (trace (ku tt) pid (on_cache (assign b f) w)).
Proof. by rewrite trace_set. Qed.

Lemma spin_events_release l (ku : unit -> prog B) w :
  spin_events (trace (mbind ku (release l)) pid w) =
  EvRelease l :: spin_events (trace (ku tt) pid (on_cache (set_spin l None) w)).
Proof. by rewrite trace_release. Qed.

Lemma spin_events_acquire l (ku : unit -> prog B) w :
  spin (cache w) l = None ->
  spin_events (trace (mbind ku (acquire l)) pid w) =
  EvAcquire l :: spin_events (trace (ku tt) pid (on_cache (set_spin l (Some pid)) w)).
Proof. intros H. by rewrite trace_acquire. Qed.

Lemma spin_events_acquiresleep_ret b (ku : unit -> prog B) r w :
  ku tt = Ret r -> spin_events (trace (mbind ku (acquiresleep b)) pid w) = [].
Proof.
  intros E. rewrite trace_acquiresleep, E. simpl. by destruct (sleep_free w b).
Qed.

Lemma spin_events_claim_code dev0 blockno0 b (k : prog B) w :
  spin_events (trace (set b (with_dev dev0);; set b (with_blockno blockno0);;
                      set b (with_valid false);; set b (with_refcnt 1);; k) pid w) =
  spin_events (trace k pid (on_cache (claimed dev0 blockno0 b) w)).
Proof. rewrite !spin_events_set. by rewrite !on_cache_on_cache. Qed.

Lemma spin_events_unlink_code b (k : prog B) w :
  spin_events (trace (bb ← get b; set bb.(prev) (with_next bb.(next));;
                      bb ← get b; set bb.(next) (with_prev bb.(prev));; k) pid w) =
  spin_events (trace k pid (on_cache (unlink b) w)).
Proof.
  rewrite spin_events_get, spin_events_set, spin_events_get, spin_events_set.
  by rewrite !on_cache_on_cache.
Qed.

Lemma spin_events_push_front_code h b (k : prog B) w :
  spin_events (trace (head_h ← get (Hd h); set b (with_next head_h.(next));;
                      set b (with_prev (Hd h));;
                      head_h ← get (Hd h); set head_h.(next) (with_prev b);;
                      set (Hd h) (with_next b);; k) pid w) =
  spin_events (trace k pid (on_cache (push_front h b) w)).
Proof.
  rewrite spin_events_get, !spin_events_set, spin_events_get, !spin_events_set.
  by rewrite !on_cache_on_cache.
Qed.

End SpinSteps.
Lemma scan_locks_nil c h j : scan_locks c h j 0 = [EvRelease Master; EvRelease (Bucket h)].
Proof. done. Qed.

(** The scan slot by slot. *)
Lemma scan_locks_cons c h j n :
  scan_locks c h j (S n) =
  if is_unused c j then
    if Nat.eqb (home c j) h then [EvRelease Master; EvRelease (Bucket h)]
    else [EvAcquire (Bucket (home c j)); EvRelease (Bucket (home c j));
          EvRelease (Bucket h); EvRelease Master]
  else donor_locks c h j ++ scan_locks c h (S j) n.
Proof.
  unfold scan_locks. cbn [seq find]. destruct (is_unused c j) eqn:Eu.
  - by rewrite Nat.sub_diag.
  - destruct (find (is_unused c) (seq (S j) n)) as [i|] eqn:Ef.
    + apply find_seq_Some in Ef as (Hi & _).
      replace (i - j)%nat with (S (i - S j)) by lia. cbn [seq flat_map].
      by rewrite <- app_assoc.
    + cbn [flat_map]. by rewrite <- app_assoc.
Qed.

Lemma scan_locks_same_mem c c' h j n :
  same_mem c c' -> scan_locks c h j n = scan_locks c' h j n.
Proof.
  intros Hsm. revert j. induction n as [|n IH]; intros j; [done|].
  rewrite !scan_locks_cons. rewrite (is_unused_same_mem c c') by done.
  unfold donor_locks. rewrite (same_mem_home c c') by done. by rewrite IH.
Qed.

Lemma spin_events_bget_scan n dev0 blockno0 h j pid w :
  (forall g, g <> h -> spin (cache w) (Bucket g) = None) ->
  length (bcache_lock (cache w)) = NBUCKET ->
  spin_events (trace (bget_scan n dev0 blockno0 h j) pid w) = scan_locks (cache w) h j n.
Proof.
  intros Hfree Hlen. revert j. induction n as [|n IH]; intros j.
  - cbn [bget_scan]. by rewrite !spin_events_release.
  - rewrite scan_locks_cons. unfold is_unused, donor_locks. cbn [bget_scan].
    rewrite spin_events_get. cbv beta zeta. fold (home (cache w) j).
    destruct (Nat.eqb_spec (home (cache w) j) h) as [Eh|Eh].
    + destruct (refcnt (deref (cache w) (Bf j)) =? 0) eqn:Er; [|apply IH].
      rewrite spin_events_claim_code, !spin_events_release.
      by rewrite (spin_events_acquiresleep_ret _ _ _ (Bf j)).
    + assert (Hg : spin (cache w) (Bucket (home (cache w) j)) = None) by by apply Hfree.
      assert (Hgr : lock_in_range (cache w) (Bucket (home (cache w) j))).
      { simpl. rewrite Hlen. apply HASH_lt. }
      rewrite spin_events_acquire by done. rewrite spin_events_get. cbv beta.
      change (cache (on_cache ?f w)) with (f (cache w)). rewrite deref_set_spin.
      destruct (refcnt (deref (cache w) (Bf j)) =? 0) eqn:Er.
      * rewrite spin_events_claim_code, spin_events_unlink_code, spin_events_push_front_code.
        rewrite !spin_events_release.
        by rewrite (spin_events_acquiresleep_ret _ _ _ (Bf j)).
      * rewrite spin_events_release. rewrite on_cache_on_cache, on_cache_id; [by rewrite IH|].
        rewrite set_spin_set_spin. rewrite <- Hg. by apply set_spin_id.
Qed.

Lemma spin_events_bget_cached fuel dev0 blockno0 h from l miss pid w :
  chain (cache w) from l (Hd h) -> (length l <= fuel)%nat ->
  spin_events (trace (bget_cached fuel dev0 blockno0 h (deref (cache w) from).(next) miss)
                     pid w) =
  match find (has_key (cache w) dev0 blockno0) l with
  | Some j => [EvRelease (Bucket h)]
  | None => spin_events (trace miss pid w)
  end.
Proof.
  revert from fuel. induction l as [|j l IH]; simpl; intros from fuel Hc Hlen.
  - destruct Hc as [-> _]. destruct fuel; simpl; by rewrite Nat.eqb_refl.
  - destruct Hc as (-> & _ & Hc). destruct fuel as [|fuel]; [lia|]. simpl.
    unfold has_key at 1.
    destruct ((dev (deref (cache w) (Bf j)) =? dev0) &&
              (blockno (deref (cache w) (Bf j)) =? blockno0)) eqn:E; simpl.
    + by destruct (sleep_free _ _).
    + apply IH; [done|lia].
Qed.

(** X12: the order in which [bget] takes the spinlocks.  In a well-formed
    cache with no spinlock held, a hit takes the lock of the home bucket and
    gives it back, and nothing else: it never takes the master lock.  A miss
    takes the lock of the home bucket, then the master lock, then goes through
    the pool in index order; for a slot in use in another bucket it takes the
    lock of that bucket and gives it back at once, so it never holds two donor
    locks; it stops at the first free slot and gives back every lock it
    holds, or gives back the master lock and the home lock when there is
    none. *)
Theorem bget_lock_order NBUF dev0 blockno0 pid w :
  links_ok NBUF (cache w) -> quiet (cache w) ->
  spin_events (trace (bget NBUF dev0 blockno0) pid w) =
  bget_locks NBUF (cache w) dev0 blockno0.
Proof.
  intros Hok Hq. unfold bget, bget_locks. cbv zeta. set (h := HASH blockno0).
  assert (Hh : (h < NBUCKET)%nat) by apply HASH_lt.
  rewrite spin_events_acquire by (by apply quiet_spin). rewrite spin_events_get. cbv beta.
  set (w1 := on_cache (set_spin (Bucket h) (Some pid)) w).
  assert (Hsm1 : same_mem (cache w1) (cache w)) by apply same_mem_set_spin.
  rewrite (spin_events_bget_cached NBUF dev0 blockno0 h (Hd h) (bucket (cache w) h)).
  2:{ destruct Hok as (_ & _ & Hch & _). destruct (Hch h Hh) as [Hc _].
      eapply chain_same_links; [| |exact Hc]; intros p;
        by rewrite (same_mem_deref _ _ _ Hsm1). }
  2:{ by eapply links_ok_bucket_length. }
  rewrite (find_ext _ (has_key (cache w) dev0 blockno0))
    by (intros x; by apply has_key_same_mem).
  unfold cached. fold h.
  destruct (find (has_key (cache w) dev0 blockno0) (bucket (cache w) h)) as [j|] eqn:Ec;
    [done|].
  rewrite spin_events_acquire by (unfold w1; simpl; by autorewrite with locks; destruct Hq).
  set (w2 := on_cache (set_spin Master (Some pid)) w1).
  assert (Hsm2 : same_mem (cache w2) (cache w)).
  { eapply same_mem_trans; [apply same_mem_set_spin|done]. }
  rewrite spin_events_bget_scan.
  - by rewrite (scan_locks_same_mem _ _ _ _ _ Hsm2).
  - intros g Hg. unfold w2, w1. simpl.
    rewrite !spin_set_spin_ne by congruence. by apply quiet_spin.
  - unfold w2, w1. simpl. rewrite ?length_insert. by apply quiet_length.
Qed.

Lemma bget_lock_order_witness :
  spin_events (trace (bget 3 1 1) pid7 world3) =
    [EvAcquire (Bucket 1); EvAcquire Master;
     EvAcquire (Bucket 0); EvRelease (Bucket 0);
     EvAcquire (Bucket 0); EvRelease (Bucket 0); EvRelease (Bucket 1); EvRelease Master] /\
  spin_events (trace (bget 3 1 0) pid7 world3) = [EvAcquire (Bucket 0); EvRelease (Bucket 0)].
Proof.
  destruct world3_state_ok as (Hok & Hq & _).
  split.
  - rewrite (bget_lock_order 3 1 1 pid7 world3 Hok Hq). vm_compute. reflexivity.
  - rewrite (bget_lock_order 3 1 0 pid7 world3 Hok Hq). vm_compute. reflexivity.
Defined.
